(** * go-kvbench: the benchmark driver (cmd/cli/main.go) and two storage
    adapters (leveldb, pebble), embedded shallowly.

    Conventions of the embedding.
    - Go's [int], [int64] are 64-bit two's complement integers, [uint64] is
      a 64-bit unsigned integer; both are carried by [Z] with the wrap-around
      written out ([GoInt.wrap64], [GoInt.wrapU64]).
    - A [[]byte] is a [list Z] whose elements lie in [0, 256).
    - A run-time panic is [None] ([run_ok = false] for the bulk load).
    - [math/rand] is an oracle: a stream of raw draws and a cursor.
    - What the goroutines of a time-bounded phase observe (how many loop
      iterations each one completes before the deadline, what the shared
      store answers to each call, how long the phase took) is an input of
      the phase: the scheduler and the wall clock are not modelled. *)

From Stdlib Require Import ZArith Lia DecimalString.
From stdpp Require Import base option list strings.

Local Open Scope Z_scope.

(** ** Machine integers *)

Module GoInt.

Definition int_min : Z := - 2 ^ 63.

Definition int_max : Z := 2 ^ 63 - 1.

Definition uint64_max : Z := 2 ^ 64 - 1.

(** Conversion to [int]/[int64]: two's complement wrap-around. *)
Definition wrap64 (z : Z) : Z := (z + 2 ^ 63) mod 2 ^ 64 - 2 ^ 63.

(** Conversion to [uint64]. *)
Definition wrapU64 (z : Z) : Z := z mod 2 ^ 64.

Definition add64 (a b : Z) : Z := wrap64 (a + b).

Definition mul64 (a b : Z) : Z := wrap64 (a * b).

(** [a / b] on [int64]: truncation toward zero, a panic when [b = 0]. *)
Definition quot64 (a b : Z) : option Z :=
  if b =? 0 then None else Some (wrap64 (Z.quot a b)).

Definition addU64 (a b : Z) : Z := wrapU64 (a + b).

(** [byte(x)] *)
Definition to_byte (z : Z) : Z := z mod 256.

Definition is_int (z : Z) : Prop := int_min <= z <= int_max.

Definition is_uint64 (z : Z) : Prop := 0 <= z <= uint64_max.

End GoInt.

Import GoInt.

(** ** math/rand as an oracle *)

Record Rand : Type := mkRand { draws : nat -> Z; cursor : nat }.

Definition rand_next (g : Rand) : Rand :=
  {| draws := draws g; cursor := S (cursor g) |}.

(** [rand.Intn(n)], for [0 < n]: some value of [0, n). *)
Definition rand_Intn (n : Z) (g : Rand) : Z * Rand :=
  (draws g (cursor g) mod n, rand_next g).

(** [rand.Read(b)] for a slice of [k] bytes: [k] fresh bytes. *)
Fixpoint rand_Read (k : nat) (g : Rand) : list Z * Rand :=
  match k with
  | O => ([], g)
  | S k' =>
      let b := to_byte (draws g (cursor g)) in
      let '(bs, g') := rand_Read k' (rand_next g) in
      (b :: bs, g')
  end.

(** ** Keys *)

(** [binary.BigEndian.PutUint64(b, v)] on an 8-byte slice. *)
Definition PutUint64 (v : Z) : list Z :=
  [ to_byte (Z.shiftr v 56); to_byte (Z.shiftr v 48);
    to_byte (Z.shiftr v 40); to_byte (Z.shiftr v 32);
    to_byte (Z.shiftr v 24); to_byte (Z.shiftr v 16);
    to_byte (Z.shiftr v 8);  to_byte v ].

(** [binary.BigEndian.Uint64(b)]: the reader that goes with it. *)
Definition Uint64 (b : list Z) : Z :=
  match b with
  | [b0; b1; b2; b3; b4; b5; b6; b7] =>
      Z.lor (Z.shiftl b0 56) (Z.lor (Z.shiftl b1 48) (Z.lor (Z.shiftl b2 40)
        (Z.lor (Z.shiftl b3 32) (Z.lor (Z.shiftl b4 24) (Z.lor (Z.shiftl b5 16)
        (Z.lor (Z.shiftl b6 8) b7))))))
  | _ => 0
  end.

(** The body of [genKey] once [rand.Intn(127 - 32)] has returned [v]. *)
Definition genKey_with (v : Z) (i : Z) : list Z :=
  to_byte (32 + v) :: PutUint64 i.

Definition genKey (i : Z) (g : Rand) : list Z * Rand :=
  let '(v, g1) := rand_Intn (127 - 32) g in
  (genKey_with v i, g1).

Definition genKeyPrefix (i : Z) (g : Rand) : list Z * Rand :=
  let '(r, g1) := rand_Read 3 g in
  let '(v, g2) := rand_Intn (127 - 32) g1 in
  (<[0%nat := to_byte (32 + v)]> r, g2).

(** The 8-byte suffix of a key: [key[1:]]. *)
Definition key_suffix (k : list Z) : list Z := drop 1 k.

(** The logical index a 9-byte key carries. *)
Definition key_index (k : list Z) : Z := Uint64 (key_suffix k).

(** ** Errors *)

(** Modelled from the spec: the two sentinel errors of package kvbench,
    [ErrNotSupported] and [ErrMemoryNotAllowed], are declared outside the
    sources. The others are the engines' "not found" sentinels and any
    other error they return. *)
Inductive error : Type :=
  | ErrNotSupported                      (* kvbench.ErrNotSupported *)
  | ErrMemoryNotAllowed                  (* kvbench.ErrMemoryNotAllowed *)
  | LeveldbErrNotFound                   (* leveldb.ErrNotFound *)
  | PebbleErrNotFound                    (* pebble.ErrNotFound *)
  | ErrEngine (msg : string)             (* any other error of an engine *)
  | ErrWrapped (msg : string) (inner : error).  (* an error that wraps one *)

(** [leveldb.ErrClosed], the error of every call on a closed goleveldb
    database. *)
Definition LeveldbErrClosed : error := ErrEngine "leveldb: closed".

#[global] Instance error_eq_dec : EqDecision error.
Proof. solve_decision. Defined.

(** [errors.Is(err, target)]: [err] or an error it wraps is [target]. *)
Fixpoint errors_Is (err target : error) : bool :=
  if decide (err = target) then true
  else match err with
       | ErrWrapped _ inner => errors_Is inner target
       | _ => false
       end.

(** ** Byte strings *)

Fixpoint bytes_of_string (s : string) : list Z :=
  match s with
  | EmptyString => []
  | String a s' => Z.of_N (Ascii.N_of_ascii a) :: bytes_of_string s'
  end.

(** [bytes.Compare] *)
Fixpoint bytes_compare (a b : list Z) : comparison :=
  match a, b with
  | [], [] => Eq
  | [], _ :: _ => Lt
  | _ :: _, [] => Gt
  | x :: a', y :: b' =>
      match x ?= y with
      | Eq => bytes_compare a' b'
      | o => o
      end
  end.

(** [bytes.HasPrefix(s, p)] *)
Definition bytes_HasPrefix (s p : list Z) : bool :=
  bool_decide (take (length p) s = p).

(** ** The storage contract *)

(** Modelled from the spec: the interface [kvbench.Store], whose declaration
    is not among the sources; these are the operations the driver calls,
    with the signatures the two adapters implement: [Set(key, value) error],
    [Get(key) (value, found, error)], [Del(key) (existed, error)],
    [PSet(keys, values) error], [Keys(prefix, limit, withValues)
    (keys, values, error)]. A value result is [None] for Go's [nil] slice.
    The result of a call is [None] when the call panics (an adapter that
    indexes [values] by the positions of [keys], an engine that panics
    once it is closed). *)
Class Store (S : Type) : Type := {
  Set_ : S -> list Z -> list Z -> option (S * option error);
  Get : S -> list Z -> option (option (list Z) * bool * option error);
  Del : S -> list Z -> option (S * bool * option error);
  PSet : S -> list (list Z) -> list (list Z) -> option (S * option error);
  Keys : S -> list Z -> Z -> bool
         -> option (list (list Z) * list (list Z) * option error)
}.

(** ** An ordered engine: what both embedded databases offer the adapters.
    The table holds the live entries in key order (bytewise), which is the
    order their iterators follow. [closed] holds once the database has been
    closed: goleveldb then answers every call with [leveldb.ErrClosed] and
    its iterators are empty, pebble panics in every call. *)

Module Engine.

(** The slices an iterator hands out. [Key()] and [Value()] return the
    iterator's own buffer, not a copy: a slice handed out keeps its length,
    and what it holds once the iteration is over is the engine's business
    (the steps that follow refill the buffer). [held_keys ks i j] is the
    byte at offset [j] of the [i]-th key slice when the iteration that
    handed out [ks], in this order, is over; [held_values] likewise. *)
Record Buffers : Type := mkBuffers {
  held_keys : list (list Z) -> nat -> nat -> Z;
  held_values : list (list Z) -> nat -> nat -> Z
}.

Record DB : Type := mkDB {
  table : list (list Z * list Z);
  closed : bool;
  buffers : Buffers
}.

Fixpoint tbl_put (k v : list Z) (t : list (list Z * list Z)) : list (list Z * list Z) :=
  match t with
  | [] => [(k, v)]
  | (k', v') :: t' =>
      match bytes_compare k k' with
      | Lt => (k, v) :: t
      | Eq => (k, v) :: t'
      | Gt => (k', v') :: tbl_put k v t'
      end
  end.

Fixpoint tbl_get (k : list Z) (t : list (list Z * list Z)) : option (list Z) :=
  match t with
  | [] => None
  | (k', v') :: t' => if decide (k = k') then Some v' else tbl_get k t'
  end.

Definition tbl_del (k : list Z) (t : list (list Z * list Z)) : list (list Z * list Z) :=
  filter (fun kv => kv.1 <> k) t.

(** The error goleveldb gives a call on this database, if any. *)
Definition failure (db : DB) : option error :=
  if closed db then Some LeveldbErrClosed else None.

(** The stored keys, in iteration order. *)
Definition stored_keys (db : DB) : list (list Z) := (table db).*1.

Definition put (db : DB) (k v : list Z) : DB * option error :=
  match failure db with
  | Some e => (db, Some e)
  | None =>
      ({| table := tbl_put k v (table db); closed := false; buffers := buffers db |}, None)
  end.

(** A batch: its operations, in order, all or nothing. *)
Definition write (db : DB) (batch : list (list Z * list Z)) : DB * option error :=
  match failure db with
  | Some e => (db, Some e)
  | None =>
      ({| table := foldl (fun t kv => tbl_put kv.1 kv.2 t) (table db) batch;
          closed := false; buffers := buffers db |}, None)
  end.

Definition delete (db : DB) (k : list Z) : DB * option error :=
  match failure db with
  | Some e => (db, Some e)
  | None =>
      ({| table := tbl_del k (table db); closed := false; buffers := buffers db |}, None)
  end.

(** The entries an iterator over [lower <= key < upper] yields. *)
Definition scan_range (db : DB) (lower upper : list Z) : list (list Z * list Z) :=
  filter (fun kv => bytes_compare lower kv.1 <> Gt /\ bytes_compare kv.1 upper = Lt)
         (table db).

(** The entries an iterator over the keys with a prefix yields. *)
Definition scan_prefix (db : DB) (p : list Z) : list (list Z * list Z) :=
  filter (fun kv => bytes_HasPrefix kv.1 p = true) (table db).

(** What the slices handed out for [xs] hold when the caller reads them
    after the iteration: as many slices, each as long as it was. *)
Definition reread (held : list (list Z) -> nat -> nat -> Z) (xs : list (list Z))
  : list (list Z) :=
  imap (fun i x => held xs i <$> seq 0 (length x)) xs.

(** An iterator that refills one buffer in place at each step,
    [buf = append(buf[:0], x...)], and moves to a new array of capacity
    [grow cap need], or of the length of [x] if that is more, when [x]
    does not fit. [cur] is the array of the
    buffer and [pending] the lengths of the slices handed out on it; the
    slices on an array the buffer has left keep what it held then. *)
Fixpoint refill (grow : nat -> nat -> nat) (cur : list Z) (pending : list nat)
    (xs : list (list Z)) : list (list Z) :=
  match xs with
  | [] => (fun n => take n cur) <$> pending
  | x :: xs' =>
      if (length x <=? length cur)%nat
      then refill grow (x ++ drop (length x) cur) (pending ++ [length x]) xs'
      else ((fun n => take n cur) <$> pending)
             ++ refill grow (x ++ replicate (grow (length cur) (length x) - length x) 0)
                  [length x] xs'
  end.

(** The bytes such an iterator leaves in the slices, starting from a
    buffer of capacity [cap]. *)
Definition in_place (cap : nat) (grow : nat -> nat -> nat)
    (xs : list (list Z)) (i j : nat) : Z :=
  default 0 (refill grow (replicate cap 0) [] xs !! i ≫= (.!! j)).

(** The bytes of slices that nothing overwrites. *)
Definition stable (xs : list (list Z)) (i j : nat) : Z :=
  default 0 (xs !! i ≫= (.!! j)).

End Engine.

(** ** The leveldb adapter *)

Module Leveldb.

Import Engine.

Record leveldbStore : Type := mkStore { db : DB; path : string; fsync : bool }.

Definition with_db (s : leveldbStore) (d : DB) : leveldbStore :=
  {| db := d; path := path s; fsync := fsync s |}.

(** [db.Get(key, nil)] *)
Definition db_Get (d : DB) (key : list Z) : option (list Z) * option error :=
  match failure d with
  | Some e => (None, Some e)
  | None =>
      match tbl_get key (table d) with
      | Some v => (Some v, None)
      | None => (None, Some LeveldbErrNotFound)
      end
  end.

(** [db.Has(key, nil)] *)
Definition db_Has (d : DB) (key : list Z) : bool * option error :=
  match failure d with
  | Some e => (false, Some e)
  | None => (bool_decide (is_Some (tbl_get key (table d))), None)
  end.

Definition Get (s : leveldbStore) (key : list Z) : option (list Z) * bool * option error :=
  let '(v, err) := db_Get (db s) key in
  match err with
  | Some e =>
      if decide (e = LeveldbErrNotFound) then (None, false, None)
      else (None, false, Some e)
  | None => (v, true, None)
  end.

Definition Set_ (s : leveldbStore) (key value : list Z) : leveldbStore * option error :=
  let '(d, err) := put (db s) key value in (with_db s d, err).

Definition Del (s : leveldbStore) (key : list Z) : leveldbStore * bool * option error :=
  let '(ok, err) := db_Has (db s) key in
  if negb ok || bool_decide (err <> None) then (s, ok, err)
  else
    let '(d, err) := delete (db s) key in
    match err with
    | Some e => (with_db s d, false, Some e)
    | None => (with_db s d, true, None)
    end.

(** [batch.Put(keys[i], values[i])] for [i := range keys]: [None] is the
    index-out-of-range panic of [values[i]]. *)
Fixpoint build_batch (keys values : list (list Z)) : option (list (list Z * list Z)) :=
  match keys, values with
  | [], _ => Some []
  | _ :: _, [] => None
  | k :: keys', v :: values' => ((k, v) ::.) <$> build_batch keys' values'
  end.

Definition PSet (s : leveldbStore) (keys values : list (list Z))
  : option (leveldbStore * option error) :=
  batch ← build_batch keys values;
  let '(d, err) := write (db s) batch in
  Some (with_db s d, err).

(** The iterator is opened on the fixed prefix ["foo-"]; [pattern] and
    [limit] are not read. [iter.Key()] and [iter.Value()] are appended as
    they are handed out, without a copy, and the iterator's error is not
    read: on a closed database the iterator is empty and the result is
    (nil, nil, nil). *)
Definition Keys (s : leveldbStore) (pattern : list Z) (limit : Z) (withvalues : bool)
  : list (list Z) * list (list Z) * option error :=
  if closed (db s) then ([], [], None)
  else
    let entries := scan_prefix (db s) (bytes_of_string "foo-") in
    (reread (held_keys (buffers (db s))) entries.*1,
     if withvalues then reread (held_values (buffers (db s))) entries.*2 else [],
     None).

(** [PGet]: the keys in order through [Get]; the first error other than
    "not found" ends the batch with nil slices. *)
Fixpoint PGet_loop (s : leveldbStore) (keys : list (list Z))
    (values : list (option (list Z))) (oks : list bool)
  : list (option (list Z)) * list bool * option error :=
  match keys with
  | [] => (values, oks, None)
  | key :: keys' =>
      let '(value, ok, err) := Get s key in
      match err with
      | Some e => ([], [], Some e)
      | None => PGet_loop s keys' (values ++ [value]) (oks ++ [ok])
      end
  end.

Definition PGet (s : leveldbStore) (keys : list (list Z))
  : list (option (list Z)) * list bool * option error :=
  PGet_loop s keys [] [].

(** [NewLevelDBStore]; [OpenFile path nosync] is what
    [leveldb.OpenFile(path, &opt.Options{NoSync: nosync})] returns on the
    file system of the run. *)
Definition NewLevelDBStore (OpenFile : string -> bool -> DB + error)
    (path : string) (fsync : bool) : option leveldbStore * option error :=
  if decide (path = ":memory:") then (None, Some ErrMemoryNotAllowed)
  else
    match OpenFile path (negb fsync) with
    | inr err => (None, Some err)
    | inl d => (Some {| db := d; path := path; fsync := fsync |}, None)
    end.

End Leveldb.

(** ** The pebble adapter *)

Module Pebble.

Import Engine.

Record pebbleStore : Type := mkStore { db : DB }.

(** Every call on a pebble database that has been closed panics. *)
Definition opened {A : Type} (d : DB) (x : A) : option A :=
  if closed d then None else Some x.

(** [db.Get(key)], without its closer. *)
Definition db_Get (d : DB) (key : list Z) : option (option (list Z) * option error) :=
  opened d
    match tbl_get key (table d) with
    | Some v => (Some v, None)
    | None => (None, Some PebbleErrNotFound)
    end.

(** An error other than [pebble.ErrNotFound] is printed; every error is
    returned as it came. *)
Definition Get (s : pebbleStore) (key : list Z)
  : option (option (list Z) * bool * option error) :=
  '(v, err) ← db_Get (db s) key;
  Some match err with
       | Some e => (None, false, Some e)
       | None => (v, bool_decide (v <> None), None)
       end.

Definition Set_ (s : pebbleStore) (key value : list Z)
  : option (pebbleStore * option error) :=
  opened (db s) (let '(d, err) := put (db s) key value in ({| db := d |}, err)).

Definition Del (s : pebbleStore) (key : list Z)
  : option (pebbleStore * bool * option error) :=
  opened (db s)
    (let '(d, err) := delete (db s) key in
     ({| db := d |}, bool_decide (err = None), err)).

(** [wb.Set(k, vals[i], s.wo)] for [i, k := range keys]. *)
Fixpoint build_batch (keys vals : list (list Z)) : option (list (list Z * list Z)) :=
  match keys, vals with
  | [], _ => Some []
  | _ :: _, [] => None
  | k :: keys', v :: vals' => ((k, v) ::.) <$> build_batch keys' vals'
  end.

(** The batch is built first (the index-out-of-range panic of [vals[i]]),
    then committed. *)
Definition PSet (s : pebbleStore) (keys vals : list (list Z))
  : option (pebbleStore * option error) :=
  batch ← build_batch keys vals;
  opened (db s) (let '(d, err) := write (db s) batch in ({| db := d |}, err)).

(** The iterator runs over [prefix <= key < append(prefix, 0xFF)] for the
    fixed [prefix := "myprefix"]; [pattern] and [limit] are not read.
    [iter.Key()] and [iter.Value()] are appended as they are handed out,
    without a copy. *)
Definition Keys (s : pebbleStore) (pattern : list Z) (limit : Z) (withvals : bool)
  : option (list (list Z) * list (list Z) * option error) :=
  let prefix := bytes_of_string "myprefix" in
  opened (db s)
    (let entries := scan_range (db s) prefix (prefix ++ [255]) in
     (reread (held_keys (buffers (db s))) entries.*1,
      if withvals then reread (held_values (buffers (db s))) entries.*2 else [],
      None)).

(** [PGet]: every key is looked up; [oks[i]] is [err == nil] of its
    lookup, and the error returned is the one of the last lookup. *)
Fixpoint PGet_loop (s : pebbleStore) (keys : list (list Z))
    (vals : list (option (list Z))) (oks : list bool) (err : option error)
  : option (list (option (list Z)) * list bool * option error) :=
  match keys with
  | [] => Some (vals, oks, err)
  | k :: keys' =>
      '(v, err') ← db_Get (db s) k;
      PGet_loop s keys' (vals ++ [v]) (oks ++ [bool_decide (err' = None)]) err'
  end.

Definition PGet (s : pebbleStore) (keys : list (list Z))
  : option (list (option (list Z)) * list bool * option error) :=
  PGet_loop s keys [] [] None.

(** [pebbleKey]: the key behind the byte ['k']. *)
Definition pebbleKey (key : list Z) : list Z := 107 :: key.

(** [NewPebbleStore]; [Open path disableWAL] is what
    [pebble.Open(path, opts)] returns on the file system of the run. *)
Definition NewPebbleStore (Open : string -> bool -> DB + error)
    (path : string) (fsync : bool) : option pebbleStore * option error :=
  if decide (path = ":memory:") then (None, Some ErrMemoryNotAllowed)
  else
    match Open path (negb fsync) with
    | inr err => (None, Some err)
    | inl d => (Some {| db := d |}, None)
    end.

End Pebble.

(** No method of the leveldb adapter panics, but [PSet]. *)
#[global] Instance leveldb_Store : Store Leveldb.leveldbStore :=
  {| Set_ := fun s key value => Some (Leveldb.Set_ s key value);
     Get := fun s key => Some (Leveldb.Get s key);
     Del := fun s key => Some (Leveldb.Del s key);
     PSet := Leveldb.PSet;
     Keys := fun s pattern limit withvalues =>
               Some (Leveldb.Keys s pattern limit withvalues) |}.

#[global] Instance pebble_Store : Store Pebble.pebbleStore :=
  {| Set_ := Pebble.Set_; Get := Pebble.Get; Del := Pebble.Del;
     PSet := Pebble.PSet; Keys := Pebble.Keys |}.

(** ** The record of a run *)

Record BenchRecord : Type := mkRecord {
  Name : string;
  Headers : list string;
  Values : list Z
}.

(** [record.Headers = append(record.Headers, h)] *)
Definition append_header (h : string) (r : BenchRecord) : BenchRecord :=
  {| Name := Name r; Headers := Headers r ++ [h]; Values := Values r |}.

(** [record.Values = append(record.Values, v)] *)
Definition append_value (v : Z) (r : BenchRecord) : BenchRecord :=
  {| Name := Name r; Headers := Headers r; Values := Values r ++ [v] |}.

(** ** Bulk load: testBatchWriteFixCount *)

(** One [store.PSet] call as the store saw it, and what it answered. *)
Record PSetCall : Type := mkCall {
  call_keys : list (list Z);
  call_vals : list (list Z);
  call_err : option error
}.

(** Where the page loop stopped. [run_ok = false]: a panic (a failed [PSet],
    a panic inside the adapter, or [make] with a negative size). *)
Record BulkRun (S : Type) : Type := mkBulk {
  run_store : S;
  run_rand : Rand;
  run_total : Z;
  run_calls : list PSetCall;
  run_ok : bool
}.

Arguments mkBulk {S}.

Arguments run_store {S}.

Arguments run_rand {S}.

Arguments run_total {S}.

Arguments run_calls {S}.

Arguments run_ok {S}.

Definition batchSize : Z := 1000.

(** The first inner loop: [n] times [genKey(arg)] and [make([]byte, size)]. *)
Fixpoint alloc_page (n : nat) (arg : Z) (size : nat) (g : Rand)
  : list (list Z) * list (list Z) * Rand :=
  match n with
  | O => ([], [], g)
  | S n' =>
      let '(k, g1) := genKey arg g in
      let '(ks, vs, g2) := alloc_page n' arg size g1 in
      (k :: ks, replicate size 0 :: vs, g2)
  end.

(** The second inner loop, [for i := range keyList]: both slices are
    overwritten with random bytes, then the key's first byte is set. *)
Fixpoint fill_page (keyList valList : list (list Z)) (g : Rand)
  : list (list Z) * list (list Z) * Rand :=
  match keyList, valList with
  | k :: ks, v :: vs =>
      let '(kb, g1) := rand_Read (length k) g in
      let '(vb, g2) := rand_Read (length v) g1 in
      let '(x, g3) := rand_Intn (127 - 32) g2 in
      let '(ks', vs', g4) := fill_page ks vs g3 in
      (<[0%nat := to_byte (32 + x)]> kb :: ks', vb :: vs', g4)
  | _, _ => ([], [], g)
  end.

Section BulkLoad.

Context {S : Type} `{Store S}.

(** The body of [for i := 0; i < pageCount; i++], over the page numbers
    still to do. *)
Fixpoint run_pages (pages : list Z) (size : Z) (store : S) (g : Rand)
    (total : Z) (calls : list PSetCall) : BulkRun S :=
  match pages with
  | [] => mkBulk store g total calls true
  | i :: pages' =>
      let startIdx := mul64 i batchSize in
      let endIdx := add64 startIdx batchSize in
      let n := Z.to_nat (endIdx - startIdx) in
      if (0 <? endIdx - startIdx) && (size <? 0) then
        mkBulk store g total calls false
      else
        let '(keyList0, valList0, g1) :=
          alloc_page n (wrapU64 (wrap64 (endIdx - startIdx))) (Z.to_nat size) g in
        let '(keyList, valList, g2) := fill_page keyList0 valList0 g1 in
        match PSet store keyList valList with
        | None => mkBulk store g2 total calls false
        | Some (store', Some e) =>
            mkBulk store' g2 total (calls ++ [mkCall keyList valList (Some e)]) false
        | Some (store', None) =>
            run_pages pages' size store' g2
              (addU64 total (Z.of_nat (length keyList)))
              (calls ++ [mkCall keyList valList None])
        end
  end.

Definition pageCount_of (count : Z) : Z :=
  if Z.rem count batchSize =? 0 then Z.quot count batchSize
  else add64 (Z.quot count batchSize) 1.

(** [size] is the flag [*size]; [secs] is what
    [int(time.Since(start).Seconds())] gives at the end. The record is
    [None] when the function panicked. *)
Definition testBatchWriteFixCount (size secs : Z) (record : BenchRecord)
    (name : string) (store : S) (g : Rand) (count : Z)
  : BulkRun S * option BenchRecord :=
  let pageCount := pageCount_of count in
  let run := run_pages (seqZ 0 pageCount) size store g 0 [] in
  (run,
   if run_ok run then
     Some (append_value secs (append_header "batch write cost(s)" record))
   else None).

End BulkLoad.

(** ** Time-bounded phases *)

(** A worker goroutine: its private index [i], its private [count], the
    draws of the shared generator it receives, and the keys it has passed
    to the store so far (oldest first). *)
Record Worker : Type := mkWorker {
  w_i : Z;
  w_count : Z;
  w_rand : Rand;
  w_keys : list (list Z)
}.

(** [var count int; i := index] *)
Definition start_worker (index : Z) (g : Rand) : Worker := mkWorker index 0 g [].

(** The [default:] branch of testGet's loop; [ok] is what [store.Get]
    answered. *)
Definition get_iter (c index : Z) (w : Worker) (ok : bool) : Worker :=
  let '(key, g) := genKey (w_i w) (w_rand w) in
  let i := if ok then w_i w else index in
  mkWorker (addU64 i (wrapU64 c)) (add64 (w_count w) 1) g (w_keys w ++ [key]).

(** The [default:] branch of testKeys's loop; [ok] is [err == nil]. *)
Definition keys_iter (c index : Z) (w : Worker) (ok : bool) : Worker :=
  let '(key, g) := genKeyPrefix (w_i w) (w_rand w) in
  let i := if ok then w_i w else index in
  mkWorker (addU64 i (wrapU64 c)) (add64 (w_count w) 1) g (w_keys w ++ [key]).

(** The [default:] branch of the loops of testSet, testDelete and of the
    readers of testGetSet: the store's answer is not read. *)
Definition set_iter (c index : Z) (w : Worker) (_ : unit) : Worker :=
  let '(key, g) := genKey (w_i w) (w_rand w) in
  mkWorker (addU64 (w_i w) (wrapU64 c)) (add64 (w_count w) 1) g (w_keys w ++ [key]).

(** What one worker meets between its start and the deadline: the draws it
    gets and the store's answer at each completed iteration. *)
Record View (A : Type) : Type := mkView { view_rand : Rand; view_answers : list A }.

Arguments mkView {A}.

Arguments view_rand {A}.

Arguments view_answers {A}.

(** What a phase meets: the view of each worker, by worker number, and
    [d := int64(time.Since(start))] in nanoseconds. *)
Record Phase (A : Type) : Type := mkPhase { sched : Z -> View A; elapsed : Z }.

Arguments mkPhase {A}.

Arguments sched {A}.

Arguments elapsed {A}.

Definition run_worker {A} (iter : Z -> Z -> Worker -> A -> Worker)
    (c index : Z) (v : View A) : Worker :=
  foldl (iter c index) (start_worker index (view_rand v)) (view_answers v).

(** [for j := 0; j < c; j++ { index := uint64(j); go func() {...}() }],
    joined: the workers as they ended, by worker number. *)
Definition run_workers {A} (iter : Z -> Z -> Worker -> A -> Worker)
    (c : Z) (ph : Phase A) : list Worker :=
  (fun j => run_worker iter c (wrapU64 j) (sched ph j)) <$> seqZ 0 c.

(** [for _, count := range counts { n += count }] *)
Definition sum_counts (counts : list Z) : Z := foldl add64 0 counts.

(** The two figures of a phase's printed line. *)
Record Report : Type := mkReport { rate : Z; mean : Z }.

(** [int64(n)*1e6/(d/1e3)] and [d/int64(n * c)]; a zero divisor panics. *)
Definition report (n c d : Z) : option Report :=
  us ← quot64 d 1000;
  r ← quot64 (mul64 n 1000000) us;
  m ← quot64 d (mul64 n c);
  Some (mkReport r m).

Record PhaseOut : Type := mkOut {
  out_workers : list Worker;
  out_report : Report;
  out_record : BenchRecord
}.

(** The frame shared by testGet, testSet, testDelete and the second half
    of testKeys. [wg.Add] and [make] on the worker count [c] panic for [c < 0]. *)
Definition stride_phase {A} (iter : Z -> Z -> Worker -> A -> Worker)
    (header : string) (c : Z) (ph : Phase A) (record : BenchRecord)
  : option PhaseOut :=
  if c <? 0 then None
  else
    let workers := run_workers iter c ph in
    let counts := w_count <$> workers in
    let n := sum_counts counts in
    rep ← report n c (elapsed ph);
    Some (mkOut workers rep (append_value (rate rep) (append_header header record))).

Definition testGet (c : Z) (ph : Phase bool) (record : BenchRecord) (name : string)
  : option PhaseOut :=
  stride_phase get_iter "Get op/s" c ph record.

Definition testSet (c : Z) (ph : Phase unit) (record : BenchRecord) (name : string)
  : option PhaseOut :=
  stride_phase set_iter "Set op/s" c ph record.

Definition testDelete (c : Z) (ph : Phase unit) (record : BenchRecord) (name : string)
  : option PhaseOut :=
  stride_phase set_iter "Del op/s" c ph record.

Section Probe.

Context {S : Type} `{Store S}.

(** One [store.Keys] call first; on a NotSupported error the sentinel
    column is appended and no worker is started. *)
Definition testKeys (c : Z) (ph : Phase bool) (record : BenchRecord)
    (name : string) (store : S) (g : Rand) : option PhaseOut * Rand :=
  let '(prefix, g1) := genKeyPrefix 0 g in
  match Keys store prefix 0 true with
  | None => (None, g1)
  | Some (_, _, Some e) =>
      if errors_Is e ErrNotSupported then
        (Some (mkOut [] (mkReport (-1) (-1))
                 (append_value (-1) (append_header "Keys op/s" record))), g1)
      else (stride_phase keys_iter "Keys op/s" c ph record, g1)
  | Some (_, _, None) => (stride_phase keys_iter "Keys op/s" c ph record, g1)
  end.

End Probe.

(** testGetSet: [setCount] is the writer goroutine's counter as read after
    the readers have joined. The readers run testSet's loop with [Get]. *)
Definition testGetSet (c : Z) (ph : Phase unit) (setCount : Z)
    (record : BenchRecord) (name : string) : option PhaseOut :=
  if c <? 0 then None
  else
    let workers := run_workers set_iter c ph in
    let n := sum_counts (w_count <$> workers) in
    let d := elapsed ph in
    let record1 := append_header "Setmixed op/s" record in
    record2 ←
      (if setCount =? 0 then Some (append_value (-1) record1)
       else
         us ← quot64 d 1000;
         r ← quot64 (mul64 (wrap64 setCount) 1000000) us;
         _ ← quot64 d (wrap64 setCount);
         Some (append_value r record1));
    rep ← report n c d;
    Some (mkOut workers rep (append_value (rate rep) (append_header "Getmixed op/s" record2))).

(** ** Resource samplers *)

(** The fields of [runtime.MemStats] that reach the record ([uint64]). *)
Record MemStats : Type := mkMem { Alloc : Z; HeapInuse : Z }.

Definition showMemUsage (m : MemStats) (record : BenchRecord) (name : string) : BenchRecord :=
  let r1 := append_header "MemUsage(MiB)" record in
  let r2 := append_value (wrap64 (Alloc m / 1024 / 1024)) r1 in
  let r3 := append_header "HeapInuse(MiB)" r2 in
  append_value (wrap64 (HeapInuse m / 1024 / 1024)) r3.

(** What [os.Stat(path)] finds, with the total [GetDirSize] computes for a
    directory. *)
Inductive StatResult : Type :=
  | StatNotExist                 (* an error that os.IsNotExist accepts *)
  | StatFailed (msg : string)    (* any other error: fileInfo is nil *)
  | StatFile (size : Z)
  | StatDir (total : Z).

(** [None]: the nil dereference of [fileInfo.IsDir()]. *)
Definition showDiskUsage (st : StatResult) (record : BenchRecord) (name path : string)
  : option BenchRecord :=
  match st with
  | StatNotExist => Some record
  | StatFailed _ => None
  | StatFile fileSize | StatDir fileSize =>
      Some (append_value (wrap64 (Z.quot (Z.quot fileSize 1024) 1024))
              (append_header "DiskUsage(MiB)" record))
  end.

(** ** The record sink: saveReorder *)

(** [strconv.Itoa] *)
Definition Itoa (v : Z) : string := NilZero.string_of_int (Z.to_int v).

(** The ledger file at [savePath]: [None] while it does not exist, else its
    rows. Failures of the file system are not modelled. *)
Definition saveReorder (savePath : string) (record : BenchRecord)
    (file : option (list (list string))) : option (list (list string)) :=
  if decide (savePath = "") then file
  else
    let values := Name record :: (Itoa <$> Values record) in
    match file with
    | None => Some [Headers record; values]
    | Some rows => Some (rows ++ [values])
    end.

(** ** main *)

(** The flags the run reads after the store is open. *)
Record Flags : Type := mkFlags {
  flag_c : Z;
  flag_setCount : Z;
  flag_size : Z;
  flag_savePath : string
}.

(** What the run meets outside the program. *)
Record Env : Type := mkEnv {
  env_rand : Rand;
  env_bulk_secs : Z;
  env_mem : MemStats;
  env_stat : StatResult;
  env_keys : Phase bool;
  env_set : Phase unit;
  env_get : Phase bool;
  env_getset : Phase unit;
  env_setCount : Z;
  env_del : Phase unit
}.

(** [name]: the store type, ["/memory"] for an in-memory run, then
    ["/fsync"] or ["/nofsync"]. *)
Definition run_name (s : string) (memory fsync : bool) : string :=
  let name := if memory then s +:+ "/memory" else s in
  if fsync then name +:+ "/fsync" else name +:+ "/nofsync".

(** The calls of [main] one after the other, each on the record the
    previous one left: the records after each call, and whether all of
    them returned. *)
Fixpoint run_steps (steps : list (BenchRecord -> option BenchRecord)) (r : BenchRecord)
  : list BenchRecord * bool :=
  match steps with
  | [] => ([], true)
  | f :: steps' =>
      match f r with
      | None => ([], false)
      | Some r' => let '(tr, ok) := run_steps steps' r' in (r' :: tr, ok)
      end
  end.

Record Run : Type := mkRun {
  trace : list BenchRecord;   (* the record when created, then after each statement of main *)
  completed : bool;           (* no panic *)
  ledger : option (list (list string))
}.

Section Main.

Context {S : Type} `{Store S}.

(** [main] from [record := &Record{...}] on: [getStore] has returned
    [store] and [path]. *)
Definition main (fl : Flags) (name path : string) (store : S) (env : Env)
    (file : option (list (list string))) : Run :=
  let record0 := {| Name := name; Headers := []; Values := [] |} in
  let record := append_header "name" record0 in
  let bulk := fun r => testBatchWriteFixCount (flag_size fl) (env_bulk_secs env) r name
                store (env_rand env) (flag_setCount fl) in
  let '(tr, ok) :=
    run_steps
      [ (fun r => (bulk r).2);
        (fun r => Some (showMemUsage (env_mem env) r name));
        (fun r => showDiskUsage (env_stat env) r name path);
        (fun r => out_record <$>
                    (testKeys (flag_c fl) (env_keys env) r name
                       (run_store (bulk record).1) (run_rand (bulk record).1)).1);
        (fun r => out_record <$> testSet (flag_c fl) (env_set env) r name);
        (fun r => out_record <$> testGet (flag_c fl) (env_get env) r name);
        (fun r => out_record <$>
                    testGetSet (flag_c fl) (env_getset env) (env_setCount env) r name);
        (fun r => out_record <$> testDelete (flag_c fl) (env_del env) r name) ]
      record in
  let all := record0 :: record :: tr in
  {| trace := all;
     completed := ok;
     ledger := if ok then saveReorder (flag_savePath fl) (List.last all record0) file
               else file |}.

End Main.

(** * Vocabulary of the properties, and the data of the examples *)

(** An empty store of each kind, and one that holds the two keys ["ab"]
    and ["foo-1"]; their iterators refill their buffers in place, on a new
    array of just the length needed when an entry does not fit. *)
Definition example_buffers : Engine.Buffers :=
  Engine.mkBuffers (Engine.in_place 0 (fun _ need => need))
                   (Engine.in_place 0 (fun _ need => need)).

Definition empty_db : Engine.DB := Engine.mkDB [] false example_buffers.

Definition two_keys_db : Engine.DB :=
  (Engine.put (Engine.put empty_db (bytes_of_string "foo-1") [1]).1
              (bytes_of_string "ab") [2]).1.

Definition myprefix_db : Engine.DB :=
  (Engine.put (Engine.put empty_db (bytes_of_string "myprefix1") [1]).1
              (bytes_of_string "ab") [2]).1.

(** Data for the examples. *)
Definition g0 : Rand :=
  mkRand (fun n => match n with
                   | 0%nat => 13 | 1%nat => 40 | 2%nat => 7919 | 3%nat => 300
                   | _ => 77
                   end) 0.

Definition stride_views : Phase unit := mkPhase (fun _ => mkView g0 [(); (); ()]) 5000.

Definition get_views : Phase bool := mkPhase (fun _ => mkView g0 [true; false; true]) 5000.

(** ** Metrics of a time-bounded phase *)

Definition sumZ (l : list Z) : Z := foldr Z.add 0 l.

(** The number of attempts each worker of a phase completes. *)
Definition attempts {A} (c : Z) (ph : Phase A) : list Z :=
  (fun j => Z.of_nat (length (view_answers (sched ph j)))) <$> seqZ 0 c.

(** The ranges in which the phase's figures are defined and the machine
    arithmetic is exact: at least one worker and one attempt, at least one
    microsecond elapsed, and [n * 1e6], [n * c] and [d] within [int64]. *)
Definition measurable {A} (c : Z) (ph : Phase A) : Prop :=
  0 < c
  /\ 0 < sumZ (attempts c ph)
  /\ sumZ (attempts c ph) * 1000000 <= int_max
  /\ sumZ (attempts c ph) * c <= int_max
  /\ 1000 <= elapsed ph <= int_max.

(** A phase returned, with as many workers as [c], and its figures are
    those of the formulas over [n], the sum of the workers' counters. *)
Definition reports_formulas (res : option PhaseOut) (header : string)
    (c d : Z) (record : BenchRecord) : Prop :=
  exists out, res = Some out
    /\ length (out_workers out) = Z.to_nat c
    /\ let n := sumZ (w_count <$> out_workers out) in
       rate (out_report out) = n * 1000000 / (d / 1000)
       /\ mean (out_report out) = d / (n * c)
       /\ out_record out
          = append_value (n * 1000000 / (d / 1000)) (append_header header record).

Section ProbeTest.

Context {S : Type} `{Store S}.

(** The test of testKeys on its preliminary scan, when the scan
    returns. *)
Definition probe_unsupported (store : S) (g : Rand) : option bool :=
  (fun res => match res.2 with
              | Some e => errors_Is e ErrNotSupported
              | None => false
              end) <$> Keys store (genKeyPrefix 0 g).1 0 true.

End ProbeTest.

Definition leveldb_empty : Leveldb.leveldbStore :=
  Leveldb.mkStore empty_db "leveldb.db" false.

Definition record1 : BenchRecord := mkRecord "leveldb/nofsync" ["name"] [].

(** ** Bulk load *)

(** A key as the bulk load sends it: 9 bytes, the first one printable. *)
Definition key_ok (k : list Z) : Prop :=
  length k = 9%nat /\ exists b, k !! 0%nat = Some b /\ 32 <= b <= 126.

(** A full page: 1000 keys and 1000 values of [size] bytes, accepted. *)
Definition page_ok (size : Z) (cl : PSetCall) : Prop :=
  Z.of_nat (length (call_keys cl)) = 1000
  /\ Z.of_nat (length (call_vals cl)) = 1000
  /\ Forall key_ok (call_keys cl)
  /\ Forall (fun v => length v = Z.to_nat size) (call_vals cl)
  /\ call_err cl = None.

(** The number of key/value pairs a list of calls carried. *)
Definition entries_written (calls : list PSetCall) : Z :=
  sumZ ((fun cl => Z.of_nat (length (call_keys cl))) <$> calls).

(** The least integer not below [a / b], for [0 < b]. *)
Definition ceil_div (a b : Z) : Z := - ((- a) / b).

Section BulkCalls.

Context {S : Type} `{Store S}.

(** The calls were made one after the other, each on the store the
    previous one left, and got the answers recorded. *)
Fixpoint replay (store : S) (calls : list PSetCall) : option S :=
  match calls with
  | [] => Some store
  | cl :: calls' =>
      match PSet store (call_keys cl) (call_vals cl) with
      | Some (store', e) =>
          if decide (e = call_err cl) then replay store' calls' else None
      | None => None
      end
  end.

(** A store that accepts every batch of as many values as keys, as long
    as [P] holds of it. *)
Definition accepts_batches (P : S -> Prop) : Prop :=
  forall s ks vs, P s -> length ks = length vs ->
    exists s', PSet s ks vs = Some (s', None) /\ P s'.

End BulkCalls.

(** ** The record along a run *)

(** The record with the columns [hs], [vs] appended. *)
Definition extend (hs : list string) (vs : list Z) (r : BenchRecord) : BenchRecord :=
  {| Name := Name r; Headers := Headers r ++ hs; Values := Values r ++ vs |}.

(** A statement of [main] that, whatever the record it gets, either
    panics ([cols = None]) or appends the columns [cols] to it. *)
Definition appends (f : BenchRecord -> option BenchRecord)
    (cols : option (list string * list Z)) : Prop :=
  forall r, f r = (fun hv => extend hv.1 hv.2 r) <$> cols.

(** The records after each statement, from the columns they append. *)
Fixpoint extend_all (cols : list (option (list string * list Z))) (r : BenchRecord)
  : list BenchRecord * bool :=
  match cols with
  | [] => ([], true)
  | None :: _ => ([], false)
  | Some (hs, vs) :: cols' =>
      let '(tr, ok) := extend_all cols' (extend hs vs r) in
      (extend hs vs r :: tr, ok)
  end.

(** The value a phase of the shared frame appends. *)
Definition stride_column {A} (iter : Z -> Z -> Worker -> A -> Worker)
    (c : Z) (ph : Phase A) : option Z :=
  if c <? 0 then None
  else rate <$> report (sum_counts (w_count <$> run_workers iter c ph)) c (elapsed ph).

Definition one_column (h : string) (v : option Z) : option (list string * list Z) :=
  (fun x => ([h], [x])) <$> v.

Definition mem_columns (m : MemStats) : option (list string * list Z) :=
  Some (["MemUsage(MiB)"; "HeapInuse(MiB)"],
        [wrap64 (Alloc m / 1024 / 1024); wrap64 (HeapInuse m / 1024 / 1024)]).

Definition disk_columns (st : StatResult) : option (list string * list Z) :=
  match st with
  | StatNotExist => Some ([], [])
  | StatFailed _ => None
  | StatFile fileSize | StatDir fileSize =>
      Some (["DiskUsage(MiB)"], [wrap64 (Z.quot (Z.quot fileSize 1024) 1024)])
  end.

Definition getset_columns (c : Z) (ph : Phase unit) (setCount : Z)
  : option (list string * list Z) :=
  if c <? 0 then None
  else
    let d := elapsed ph in
    v1 ← (if setCount =? 0 then Some (-1)
          else
            us ← quot64 d 1000;
            r ← quot64 (mul64 (wrap64 setCount) 1000000) us;
            _ ← quot64 d (wrap64 setCount);
            Some r);
    rep ← report (sum_counts (w_count <$> run_workers set_iter c ph)) c d;
    Some (["Setmixed op/s"; "Getmixed op/s"], [v1; rate rep]).

Section Columns.

Context {S : Type} `{Store S}.

Definition keys_column (c : Z) (ph : Phase bool) (store : S) (g : Rand) : option Z :=
  match probe_unsupported store g with
  | None => None
  | Some true => Some (-1)
  | Some false => stride_column keys_iter c ph
  end.

Definition bulk_columns (size secs : Z) (store : S) (g : Rand) (count : Z)
  : option (list string * list Z) :=
  if run_ok (run_pages (seqZ 0 (pageCount_of count)) size store g 0 [])
  then Some (["batch write cost(s)"], [secs]) else None.

(** The columns of the eight statements of [main] that follow the
    creation of the record, in order. *)
Definition main_columns (fl : Flags) (store : S) (env : Env)
  : list (option (list string * list Z)) :=
  let bulk := run_pages (seqZ 0 (pageCount_of (flag_setCount fl))) (flag_size fl)
                store (env_rand env) 0 [] in
  [ bulk_columns (flag_size fl) (env_bulk_secs env) store (env_rand env) (flag_setCount fl);
    mem_columns (env_mem env);
    disk_columns (env_stat env);
    one_column "Keys op/s"
      (keys_column (flag_c fl) (env_keys env) (run_store bulk) (run_rand bulk));
    one_column "Set op/s" (stride_column set_iter (flag_c fl) (env_set env));
    one_column "Get op/s" (stride_column get_iter (flag_c fl) (env_get env));
    getset_columns (flag_c fl) (env_getset env) (env_setCount env);
    one_column "Del op/s" (stride_column set_iter (flag_c fl) (env_del env)) ].

End Columns.

(** ** The shape of the record at every point of a run *)

(** [r'] is [r] with headers and values appended at the end: nothing that
    was there is changed. *)
Definition grows (r r' : BenchRecord) : Prop :=
  Name r' = Name r
  /\ Headers r `prefix_of` Headers r'
  /\ Values r `prefix_of` Values r'.

(** One header more than values: the ["name"] header stands for the
    [Name] field, which saveReorder puts in front of the values. *)
Definition one_ahead (r : BenchRecord) : Prop :=
  length (Headers r) = (length (Values r) + 1)%nat.

Fixpoint chain {A} (R : A -> A -> Prop) (x : A) (l : list A) : Prop :=
  match l with
  | [] => True
  | y :: l' => R x y /\ chain R y l'
  end.

Definition balanced (col : option (list string * list Z)) : Prop :=
  match col with
  | Some (hs, vs) => length hs = length vs
  | None => True
  end.

(** ** An example run *)

Definition example_flags : Flags := mkFlags 4 1000 0 "results.csv".

Definition example_env (st : StatResult) : Env :=
  mkEnv g0 3 (mkMem 536870912 629145600) st
        get_views stride_views get_views stride_views 7 stride_views.

Definition example_run : Run :=
  main example_flags "leveldb/nofsync" "leveldb.db" leveldb_empty
       (example_env (StatDir 1111490560)) None.

(** ** The record a completed run ends with *)

(** All the columns of a run, or [None] if a statement panics. *)
Fixpoint collect (cols : list (option (list string * list Z)))
  : option (list string * list Z) :=
  match cols with
  | [] => Some ([], [])
  | None :: _ => None
  | Some (hs, vs) :: cols' => (fun t => (hs ++ t.1, vs ++ t.2)) <$> collect cols'
  end.

(** The row saveReorder writes for a record. *)
Definition ledger_row (r : BenchRecord) : list string := Name r :: (Itoa <$> Values r).

(** The environment with another answer of [os.Stat]. *)
Definition with_stat (st : StatResult) (env : Env) : Env :=
  mkEnv (env_rand env) (env_bulk_secs env) (env_mem env) st (env_keys env)
        (env_set env) (env_get env) (env_getset env) (env_setCount env) (env_del env).

Section Final.

Context {St : Type} `{Store St}.

(** Every statement of [main] returns, and these are the columns they
    append: [dh], [dv] for the disk column, if any, then one value for each
    rate. *)
Definition run_columns (fl : Flags) (store : St) (env : Env)
    (dh : list string) (dv : list Z) (vkeys vset vget vsm vgm vdel : Z) : Prop :=
  let bulk := run_pages (seqZ 0 (pageCount_of (flag_setCount fl))) (flag_size fl)
                store (env_rand env) 0 [] in
  run_ok bulk = true
  /\ disk_columns (env_stat env) = Some (dh, dv)
  /\ keys_column (flag_c fl) (env_keys env) (run_store bulk) (run_rand bulk) = Some vkeys
  /\ stride_column set_iter (flag_c fl) (env_set env) = Some vset
  /\ stride_column get_iter (flag_c fl) (env_get env) = Some vget
  /\ getset_columns (flag_c fl) (env_getset env) (env_setCount env)
     = Some (["Setmixed op/s"; "Getmixed op/s"], [vsm; vgm])
  /\ stride_column set_iter (flag_c fl) (env_del env) = Some vdel.

(** The record a run ends with, from its columns. *)
Definition final_record (name : string) (env : Env)
    (dh : list string) (dv : list Z) (vkeys vset vget vsm vgm vdel : Z) : BenchRecord :=
  mkRecord name
    (["name"; "batch write cost(s)"; "MemUsage(MiB)"; "HeapInuse(MiB)"]
       ++ dh ++ ["Keys op/s"; "Set op/s"; "Get op/s"; "Setmixed op/s";
                 "Getmixed op/s"; "Del op/s"])
    ([env_bulk_secs env; wrap64 (Alloc (env_mem env) / 1024 / 1024);
      wrap64 (HeapInuse (env_mem env) / 1024 / 1024)]
       ++ dv ++ [vkeys; vset; vget; vsm; vgm; vdel]).

End Final.

(** ** A backend without prefix scan *)

(** A store for the examples: the pebble adapter with a [Keys] that
    answers [ErrNotSupported], as the contract allows. *)
Module Scanless.

Record scanlessStore : Type := mkStore { inner : Pebble.pebbleStore }.

Definition Keys (s : scanlessStore) (pattern : list Z) (limit : Z) (withvals : bool)
  : option (list (list Z) * list (list Z) * option error) :=
  Some ([], [], Some ErrNotSupported).

Definition PSet (s : scanlessStore) (keys vals : list (list Z))
  : option (scanlessStore * option error) :=
  (fun r => (mkStore r.1, r.2)) <$> Pebble.PSet (inner s) keys vals.

End Scanless.

#[global] Instance scanless_Store : Store Scanless.scanlessStore :=
  {| Set_ := fun s k v => (fun r => (Scanless.mkStore r.1, r.2))
                            <$> Pebble.Set_ (Scanless.inner s) k v;
     Get := fun s k => Pebble.Get (Scanless.inner s) k;
     Del := fun s k => (fun r => (Scanless.mkStore r.1.1, r.1.2, r.2))
                         <$> Pebble.Del (Scanless.inner s) k;
     PSet := Scanless.PSet;
     Keys := Scanless.Keys |}.

Definition scanless_empty : Scanless.scanlessStore :=
  Scanless.mkStore (Pebble.mkStore empty_db).

Definition scanless_env : Env := example_env StatNotExist.

(** * The rest of the driver *)

(** ** Strings *)

(** [s[:n]] and [s[n:]] *)
Fixpoint string_take (n : nat) (s : string) : string :=
  match n, s with
  | Datatypes.S n', String a s' => String a (string_take n' s')
  | _, _ => EmptyString
  end.

Fixpoint string_drop (n : nat) (s : string) : string :=
  match n, s with
  | Datatypes.S n', String _ s' => string_drop n' s'
  | _, _ => s
  end.

(** [strings.HasSuffix]:
    [len(s) >= len(suffix) && s[len(s)-len(suffix):] == suffix] *)
Definition strings_HasSuffix (s suffix : string) : bool :=
  (String.length suffix <=? String.length s)%nat
  && String.eqb (string_drop (String.length s - String.length suffix) s) suffix.

(** [strings.TrimSuffix] *)
Definition strings_TrimSuffix (s suffix : string) : string :=
  if strings_HasSuffix s suffix
  then string_take (String.length s - String.length suffix) s
  else s.

(** ** getStore *)

(** A store behind the interface: an adapter's type, its methods and its
    state. *)
Record AnyStore : Type := mkAny {
  any_type : Type;
  any_Store : Store any_type;
  any_state : any_type
}.

(** What getStore returns as its error. *)
Inductive open_error : Type :=
  | UnknownStoreType (s : string)   (* fmt.Errorf("unknown store type: %v", s) *)
  | OpenFailed (err : error).       (* the error of a constructor *)

Section GetStore.

(** The file system as the two constructors of the sources meet it, and
    the constructors of the adapters that are not among the sources (by
    store type, path and fsync). *)
Variable leveldb_OpenFile : string -> bool -> Engine.DB + error.

Variable pebble_Open : string -> bool -> Engine.DB + error.

Variable other_New : string -> string -> bool -> option AnyStore * option error.

Definition default_path (path dflt : string) : string :=
  if decide (path = "") then dflt else path.

Definition open_other (s path : string) (fsync : bool)
  : option AnyStore * string * option open_error :=
  let '(store, err) := other_New s path fsync in (store, path, OpenFailed <$> err).

Definition getStore (s : string) (fsync : bool) (path : string)
  : option AnyStore * string * option open_error :=
  if decide (s = "map") then open_other s (default_path path "map.db") fsync
  else if decide (s = "btree") then open_other s (default_path path "btree.db") fsync
  else if decide (s = "bolt") then open_other s (default_path path "bolt.db") fsync
  else if decide (s = "bbolt") then open_other s (default_path path "bbolt.db") fsync
  else if decide (s = "leveldb") then
    let path := default_path path "leveldb.db" in
    let '(store, err) := Leveldb.NewLevelDBStore leveldb_OpenFile path fsync in
    ((fun st => mkAny Leveldb.leveldbStore leveldb_Store st) <$> store, path,
     OpenFailed <$> err)
  else if decide (s = "kv") then open_other s (default_path path "kv.db") fsync
  else if decide (s = "badger") then open_other s (default_path path "badger.db") fsync
  else if decide (s = "buntdb") then open_other s (default_path path "buntdb.db") fsync
  else if decide (s = "pebble") then
    let path := default_path path "pebble.db" in
    let '(store, err) := Pebble.NewPebbleStore pebble_Open path fsync in
    ((fun st => mkAny Pebble.pebbleStore pebble_Store st) <$> store, path,
     OpenFailed <$> err)
  else if decide (s = "pogreb") then open_other s (default_path path "pogreb.db") fsync
  else if decide (s = "nutsdb") then open_other s (default_path path "nutsdb.db") fsync
  else (None, path, Some (UnknownStoreType s)).

(** [main] from its first line: the store type [s] and [fsync] are the
    flags [-s] and [-fsync]. [None]: [panic(err)] on an error of getStore
    (or the nil store of a constructor that returned neither store nor
    error). *)
Definition main_top (s : string) (fsync : bool) (fl : Flags) (env : Env)
    (file : option (list (list string))) : option Run :=
  let memory := strings_HasSuffix s "/memory" in
  let path := if memory then ":memory:" else "" in
  let s := if memory then strings_TrimSuffix s "/memory" else s in
  let '(store, path, err) := getStore s fsync path in
  match err, store with
  | Some _, _ => None
  | None, None => None
  | None, Some st =>
      Some (@main (any_type st) (any_Store st) fl (run_name s memory fsync) path
              (any_state st) env file)
  end.

End GetStore.

(** ** GetDirSize *)

(** What [filepath.Walk] meets under a path: a file of some size, a
    directory with its entries (in the order of their names; [readable =
    false] when its names cannot be read), or an entry whose [lstat]
    fails. *)
#[local] Unset Elimination Schemes.

Inductive FsNode : Type :=
  | FsFile (size : Z)
  | FsDir (readable : bool) (entries : list FsNode)
  | FsBroken.

#[local] Set Elimination Schemes.

(** How a walk ends: at its end, on the error a callback returned, or in a
    panic; with the [size] accumulated so far. *)
Inductive WalkResult : Type :=
  | WalkDone (size : Z)
  | WalkStopped (size : Z)
  | WalkPanic.

(** [filepath.Walk] with the callback of GetDirSize: the callback adds
    [info.Size()] when [info] is not a directory and returns the error it
    was given; it dereferences [info], which is nil after a failed
    [lstat]. *)
Fixpoint walk (node : FsNode) (size : Z) : WalkResult :=
  match node with
  | FsFile sz => WalkDone (add64 size sz)
  | FsBroken => WalkPanic
  | FsDir false _ => WalkStopped size
  | FsDir true entries =>
      (fix walk_entries (l : list FsNode) (size : Z) : WalkResult :=
         match l with
         | [] => WalkDone size
         | entry :: l' =>
             match walk entry size with
             | WalkDone size' => walk_entries l' size'
             | stopped => stopped
             end
         end) entries size
  end.

(** [GetDirSize]: the size and whether an error is returned; [None] is the
    panic. *)
Definition GetDirSize (root : FsNode) : option (Z * bool) :=
  match walk root 0 with
  | WalkDone size => Some (size, false)
  | WalkStopped size => Some (size, true)
  | WalkPanic => None
  end.

(** What [os.Stat(path)] and, for a directory, [GetDirSize(path)] give
    showDiskUsage, from what is under the path. [None]: GetDirSize
    panics. *)
Definition stat_path (fs : option FsNode) : option StatResult :=
  match fs with
  | None => Some StatNotExist
  | Some (FsFile size) => Some (StatFile size)
  | Some FsBroken => Some (StatFailed "stat")
  | Some (FsDir r entries) => (fun res => StatDir res.1) <$> GetDirSize (FsDir r entries)
  end.

(** The sizes of the files under a node, directories not counted. *)
Fixpoint file_sizes (node : FsNode) : list Z :=
  match node with
  | FsFile sz => [sz]
  | FsBroken => []
  | FsDir _ entries => concat (file_sizes <$> entries)
  end.

(** Every directory under the node can be read and every entry can be
    [lstat]ed. *)
Fixpoint readable_tree (node : FsNode) : bool :=
  match node with
  | FsFile _ => true
  | FsBroken => false
  | FsDir r entries => r && forallb readable_tree entries
  end.

(** ** Vocabulary of the further properties *)

(** [Set] of each key with the value at its position, in order; [None]
    if one of the calls panics. *)
Definition set_each {S : Type} `{Store S} (store : S) (keys values : list (list Z))
  : option S :=
  foldl (fun st kv => s ← st; fst <$> Set_ s kv.1 kv.2) (Some store) (zip keys values).

(** A leveldb and a pebble store over an engine. *)
Definition leveldb_on (d : Engine.DB) : Leveldb.leveldbStore :=
  Leveldb.mkStore d "leveldb.db" false.

Definition pebble_on (d : Engine.DB) : Pebble.pebbleStore := Pebble.mkStore d.

(** [k] is [p], or [p] followed by bytes of which the first is below
    [0xFF]. *)
Definition extends_below_ff (p k : list Z) : bool :=
  bytes_HasPrefix k p
  && match drop (length p) k with
     | [] => true
     | b :: _ => b <? 255
     end.

(** A byte string: every element is a byte. *)
Definition is_bytes (b : list Z) : Prop := Forall (fun x => 0 <= x < 256) b.

(** The sizes of the files under the entries of a directory. *)
Definition files_under (entries : list FsNode) : list Z := concat (file_sizes <$> entries).

(** A tree of two files and a directory of one file, and the same tree
    with an unreadable directory, or a broken entry, before the last
    file. *)
Definition example_tree : FsNode :=
  FsDir true [FsFile 1048576; FsDir true [FsFile 2097152]; FsFile 524288].

Definition locked_tree : FsNode :=
  FsDir true [FsFile 1048576; FsDir false [FsFile 2097152]; FsFile 524288].

Definition broken_tree : FsNode :=
  FsDir true [FsFile 1048576; FsBroken; FsFile 524288].

(** The store types getStore knows. *)
Definition store_types : list string :=
  ["map"; "btree"; "bolt"; "bbolt"; "leveldb"; "kv"; "badger"; "buntdb"; "pebble";
   "pogreb"; "nutsdb"].

(** The store type [main] passes to getStore for a value of [-s]. *)
Definition store_type_of (s : string) : string :=
  if strings_HasSuffix s "/memory" then strings_TrimSuffix s "/memory" else s.

(** A file system on which every database opens empty, and no adapter
    besides the two of the sources. *)
Definition open_empty (path : string) (fsync : bool) : Engine.DB + error := inl empty_db.

Definition no_other (s path : string) (fsync : bool) : option AnyStore * option error :=
  (None, Some (ErrEngine "not built")).

(** Saving the records one after the other. *)
Definition save_all (savePath : string) (records : list BenchRecord)
    (file : option (list (list string))) : option (list (list string)) :=
  foldl (fun f r => saveReorder savePath r f) file records.

(** Stores that hold two keys in the range of a scan. The pebble one has
    an iterator that refills its key buffer in place and hands out its
    values where the engine keeps them. *)
Definition pebble_buffers : Engine.Buffers :=
  Engine.mkBuffers (Engine.in_place 0 (fun _ need => need)) Engine.stable.

Definition myprefix_pair_db : Engine.DB :=
  (Engine.put (Engine.put (Engine.mkDB [] false pebble_buffers)
                 (bytes_of_string "myprefix1") [1]).1
              (bytes_of_string "myprefix2") [2]).1.

Definition foo_pair_db : Engine.DB :=
  (Engine.put (Engine.put empty_db (bytes_of_string "foo-1") [1]).1
              (bytes_of_string "foo-2") [2]).1.

(** A database that has been closed. *)
Definition closed_db : Engine.DB := Engine.mkDB [] true example_buffers.

(** * Properties *)

(** ** Machine integers *)

Lemma wrap64_id z : is_int z -> wrap64 z = z.
Proof.
  unfold is_int, int_min, int_max, wrap64. intros H.
  rewrite Z.mod_small by lia. lia.
Qed.

Lemma wrap64_range z : is_int (wrap64 z).
Proof.
  unfold is_int, int_min, int_max, wrap64.
  pose proof (Z.mod_pos_bound (z + 2 ^ 63) (2 ^ 64) ltac:(lia)). lia.
Qed.

Lemma wrapU64_id z : is_uint64 z -> wrapU64 z = z.
Proof.
  unfold is_uint64, uint64_max, wrapU64. intros H.
  apply Z.mod_small. lia.
Qed.

Lemma wrapU64_range z : is_uint64 (wrapU64 z).
Proof.
  unfold is_uint64, uint64_max, wrapU64.
  pose proof (Z.mod_pos_bound z (2 ^ 64) ltac:(lia)). lia.
Qed.

Lemma to_byte_range z : 0 <= to_byte z < 256.
Proof. unfold to_byte. apply Z.mod_pos_bound. lia. Qed.

(** ** Facts about keys *)

Section KeyFacts.

Lemma rand_Intn_range n g : 0 < n -> 0 <= (rand_Intn n g).1 < n.
Proof. intros Hn. simpl. apply Z.mod_pos_bound. exact Hn. Qed.

Lemma rand_Read_length k : forall g, length (rand_Read k g).1 = k.
Proof.
  induction k as [|k IH]; intros g; simpl; [reflexivity|].
  specialize (IH (rand_next g)).
  destruct (rand_Read k (rand_next g)) as [bs g']. simpl in *. by rewrite IH.
Qed.

Lemma PutUint64_length v : length (PutUint64 v) = 8%nat.
Proof. reflexivity. Qed.

Lemma byte_testbit x n :
  0 <= n -> Z.testbit (to_byte x) n = if n <? 8 then Z.testbit x n else false.
Proof.
  intros Hn. unfold to_byte. change 256 with (2 ^ 8).
  destruct (n <? 8) eqn:E.
  - apply Z.mod_pow2_bits_low. lia.
  - apply Z.mod_pow2_bits_high. lia.
Qed.

Lemma Uint64_PutUint64 v : Uint64 (PutUint64 v) = wrapU64 v.
Proof.
  unfold Uint64, PutUint64, wrapU64.
  apply Z.bits_inj'. intros n Hn.
  rewrite !Z.lor_spec.
  rewrite Z.testbit_mod_pow2 by lia.
  rewrite !Z.shiftl_spec by lia.
  destruct (Z.ltb_spec n 64) as [H64|H64].
  - destruct (Z.ltb_spec n 8); [|destruct (Z.ltb_spec n 16);
      [|destruct (Z.ltb_spec n 24); [|destruct (Z.ltb_spec n 32);
      [|destruct (Z.ltb_spec n 40); [|destruct (Z.ltb_spec n 48);
      [|destruct (Z.ltb_spec n 56)]]]]]].
    all: rewrite ?(Z.testbit_neg_r _ (n - 56)), ?(Z.testbit_neg_r _ (n - 48)),
           ?(Z.testbit_neg_r _ (n - 40)), ?(Z.testbit_neg_r _ (n - 32)),
           ?(Z.testbit_neg_r _ (n - 24)), ?(Z.testbit_neg_r _ (n - 16)),
           ?(Z.testbit_neg_r _ (n - 8)) by lia.
    all: rewrite ?byte_testbit by lia.
    all: rewrite ?Z.shiftr_spec by lia.
    all: repeat match goal with
           | |- context [?a <? 8] =>
               destruct (Z.ltb_spec a 8); try lia
           end.
    all: rewrite ?orb_false_r, ?orb_false_l; simpl; try reflexivity.
    all: f_equal; lia.
  - rewrite !byte_testbit by lia. rewrite ?Z.shiftr_spec by lia.
    repeat match goal with
           | |- context [?a <? 8] =>
               destruct (Z.ltb_spec a 8); try lia
           end.
Qed.

Lemma key_index_genKey_with v i : key_index (genKey_with v i) = wrapU64 i.
Proof. unfold key_index, key_suffix, genKey_with. simpl drop. apply Uint64_PutUint64. Qed.

Lemma genKey_with_length v i : length (genKey_with v i) = 9%nat.
Proof. reflexivity. Qed.

Lemma genKey_spec i g :
  genKey i g = (genKey_with ((rand_Intn 95 g).1) i, rand_next g).
Proof. reflexivity. Qed.

Lemma lead_byte_printable v : 0 <= v < 95 -> 32 <= to_byte (32 + v) <= 126.
Proof. intros Hv. unfold to_byte. rewrite Z.mod_small by lia. lia. Qed.

End KeyFacts.

(** ** The adapters: Get on an absent key *)

Section AdapterGet.

Import Engine.

(** leveldb: [leveldb.ErrNotFound] is turned into [found = false] with a
    nil error. *)
Lemma leveldb_Get_absent (s : Leveldb.leveldbStore) (key : list Z) :
  closed (Leveldb.db s) = false ->
  tbl_get key (table (Leveldb.db s)) = None ->
  Leveldb.Get s key = (None, false, None).
Proof.
  intros Hb Hk. unfold Leveldb.Get, Leveldb.db_Get, failure.
  rewrite Hb, Hk. simpl. reflexivity.
Qed.

(** pebble: [pebble.ErrNotFound] is passed on. *)
Lemma pebble_Get_absent (s : Pebble.pebbleStore) (key : list Z) :
  closed (Pebble.db s) = false ->
  tbl_get key (table (Pebble.db s)) = None ->
  Pebble.Get s key = Some (None, false, Some PebbleErrNotFound).
Proof.
  intros Hb Hk. unfold Pebble.Get, Pebble.db_Get, Pebble.opened.
  rewrite Hb, Hk. simpl. reflexivity.
Qed.

Lemma leveldb_Get_present (s : Leveldb.leveldbStore) (key v : list Z) :
  closed (Leveldb.db s) = false ->
  tbl_get key (table (Leveldb.db s)) = Some v ->
  Leveldb.Get s key = (Some v, true, None).
Proof.
  intros Hb Hk. unfold Leveldb.Get, Leveldb.db_Get, failure.
  rewrite Hb, Hk. simpl. reflexivity.
Qed.

Lemma pebble_Get_present (s : Pebble.pebbleStore) (key v : list Z) :
  closed (Pebble.db s) = false ->
  tbl_get key (table (Pebble.db s)) = Some v ->
  Pebble.Get s key = Some (Some v, true, None).
Proof.
  intros Hb Hk. unfold Pebble.Get, Pebble.db_Get, Pebble.opened.
  rewrite Hb, Hk. simpl. reflexivity.
Qed.

End AdapterGet.

(** C8. Get on an absent key. The leveldb adapter answers (nil, false, nil)
    as the contract asks; the pebble adapter, on an empty store and the
    key ["k"], answers (nil, false, pebble.ErrNotFound): the absence is
    reported through a non-nil error. *)
Theorem C8_pebble_Get_absent_has_error :
  Get (Pebble.mkStore empty_db) (bytes_of_string "k")
    = Some (None, false, Some PebbleErrNotFound)
  /\ Get (Leveldb.mkStore empty_db "leveldb.db" false) (bytes_of_string "k")
    = Some (None, false, None).
Proof. split; reflexivity. Qed.

(** ** The adapters: Keys *)

Section AdapterKeys.

Import Engine.

(** Neither adapter reads the prefix or the limit it is given. *)
Lemma leveldb_Keys_ignores_pattern (s : Leveldb.leveldbStore) p1 p2 l1 l2 w :
  Leveldb.Keys s p1 l1 w = Leveldb.Keys s p2 l2 w.
Proof. reflexivity. Qed.

Lemma pebble_Keys_ignores_pattern (s : Pebble.pebbleStore) p1 p2 l1 l2 w :
  Pebble.Keys s p1 l1 w = Pebble.Keys s p2 l2 w.
Proof. reflexivity. Qed.

(** Both return a nil error whenever they return. *)
Lemma leveldb_Keys_no_error (s : Leveldb.leveldbStore) p l w :
  (Leveldb.Keys s p l w).2 = None.
Proof. unfold Leveldb.Keys. by destruct (closed _). Qed.

Lemma pebble_Keys_no_error (s : Pebble.pebbleStore) p l w res :
  Pebble.Keys s p l w = Some res -> res.2 = None.
Proof. unfold Pebble.Keys, Pebble.opened. destruct (closed _); by intros [= <-]. Qed.

(** The slices read back are as many and as long as those handed out. *)
Lemma reread_lengths held xs : length <$> reread held xs = length <$> xs.
Proof.
  unfold reread. generalize xs at 1. intros ctx.
  assert (Hgen : forall (n : nat) (l : list (list Z)),
    length <$> imap (fun i x => held ctx (n + i)%nat <$> seq 0 (length x)) l
    = length <$> l).
  { intros n l. revert n. induction l as [|x l IH]; intros n; [reflexivity|].
    cbn [imap fmap list_fmap]. rewrite length_fmap, length_seq. f_equal.
    rewrite <- (IH (Datatypes.S n)). f_equal. apply imap_ext. intros i y _. cbn.
    by rewrite Nat.add_succ_r. }
  exact (Hgen 0%nat xs).
Qed.

Lemma reread_length held xs : length (reread held xs) = length xs.
Proof. unfold reread. apply length_imap. Qed.

(** What leveldb's Keys returns on an open database: one slice for each
    stored key that starts with ["foo-"], in key order, as long as the
    key. *)
Lemma leveldb_Keys_fixed_prefix (s : Leveldb.leveldbStore) p l w :
  closed (Leveldb.db s) = false ->
  length <$> (Leveldb.Keys s p l w).1.1
    = length <$> filter (fun k => bytes_HasPrefix k (bytes_of_string "foo-") = true)
                        (stored_keys (Leveldb.db s)).
Proof.
  intros Hd. unfold Leveldb.Keys, scan_prefix, stored_keys. rewrite Hd.
  generalize (bytes_of_string "foo-"). intros pre. cbn [fst snd].
  rewrite reread_lengths. f_equal.
  induction (table (Leveldb.db s)) as [|[k v] t IH]; [reflexivity|].
  rewrite filter_cons. cbn [fmap list_fmap fst]. rewrite filter_cons.
  destruct (decide (bytes_HasPrefix k pre = true));
    cbn [fmap list_fmap fst]; rewrite <- IH; reflexivity.
Qed.

End AdapterKeys.

(** C7. Keys and the prefix argument. On a store that holds ["ab"] and
    ["foo-1"], the leveldb adapter asked for the prefix ["a"] returns
    ["foo-1"] and not ["ab"], with a nil error, and it returns the same for
    the prefix ["zz"]; the pebble adapter on a store that holds ["ab"] and
    ["myprefix1"] returns ["myprefix1"] for the prefix ["a"]. *)
Theorem C7_Keys_ignores_prefix :
  Keys (Leveldb.mkStore two_keys_db "leveldb.db" false) (bytes_of_string "a") 0 true
    = Some ([bytes_of_string "foo-1"], [[1]], None)
  /\ Keys (Leveldb.mkStore two_keys_db "leveldb.db" false) (bytes_of_string "zz") 0 true
    = Some ([bytes_of_string "foo-1"], [[1]], None)
  /\ Engine.stored_keys two_keys_db = [bytes_of_string "ab"; bytes_of_string "foo-1"]
  /\ bytes_HasPrefix (bytes_of_string "ab") (bytes_of_string "a") = true
  /\ bytes_HasPrefix (bytes_of_string "foo-1") (bytes_of_string "a") = false
  /\ Keys (Pebble.mkStore myprefix_db) (bytes_of_string "a") 0 true
    = Some ([bytes_of_string "myprefix1"], [[1]], None).
Proof. repeat split; vm_compute; reflexivity. Qed.

(** ** Workers: indices, counters and keys *)

Section Workers.

Lemma wrapU64_add_r a b : wrapU64 (a + wrapU64 b) = wrapU64 (a + b).
Proof. unfold wrapU64. apply Zplus_mod_idemp_r. Qed.

Lemma wrapU64_add_l a b : wrapU64 (wrapU64 a + b) = wrapU64 (a + b).
Proof. unfold wrapU64. apply Zplus_mod_idemp_l. Qed.

Lemma wrapU64_idemp a : wrapU64 (wrapU64 a) = wrapU64 a.
Proof. unfold wrapU64. apply Zmod_mod. Qed.

Lemma wrap64_succ a : wrap64 (wrap64 a + 1) = wrap64 (a + 1).
Proof.
  unfold wrap64. f_equal.
  replace ((a + 2 ^ 63) mod 2 ^ 64 - 2 ^ 63 + 1 + 2 ^ 63)
    with ((a + 2 ^ 63) mod 2 ^ 64 + 1) by lia.
  rewrite Zplus_mod_idemp_l. f_equal. lia.
Qed.

Lemma get_iter_i c index w ok :
  w_i (get_iter c index w ok) = wrapU64 ((if ok then w_i w else index) + c).
Proof. unfold get_iter, addU64. simpl. apply wrapU64_add_r. Qed.

Lemma get_iter_count c index w ok :
  w_count (get_iter c index w ok) = add64 (w_count w) 1.
Proof. reflexivity. Qed.

Lemma get_iter_keys c index w ok :
  w_keys (get_iter c index w ok)
    = w_keys w ++ [genKey_with (rand_Intn 95 (w_rand w)).1 (w_i w)].
Proof. reflexivity. Qed.

Lemma set_iter_i c index w u : w_i (set_iter c index w u) = wrapU64 (w_i w + c).
Proof. unfold set_iter, addU64. simpl. apply wrapU64_add_r. Qed.

Lemma set_iter_count c index w u :
  w_count (set_iter c index w u) = add64 (w_count w) 1.
Proof. reflexivity. Qed.

Lemma set_iter_keys c index w u :
  w_keys (set_iter c index w u)
    = w_keys w ++ [genKey_with (rand_Intn 95 (w_rand w)).1 (w_i w)].
Proof. reflexivity. Qed.

Lemma keys_iter_count c index w ok :
  w_count (keys_iter c index w ok) = add64 (w_count w) 1.
Proof.
  unfold keys_iter. destruct (genKeyPrefix (w_i w) (w_rand w)). reflexivity.
Qed.

Lemma run_worker_snoc {A} (iter : Z -> Z -> Worker -> A -> Worker) c index g l a :
  run_worker iter c index (mkView g (l ++ [a]))
    = iter c index (run_worker iter c index (mkView g l)) a.
Proof. unfold run_worker. simpl. apply foldl_snoc. Qed.

(** Every completed iteration adds one to the worker's counter. *)
Lemma run_worker_count {A} (iter : Z -> Z -> Worker -> A -> Worker) c index v :
  (forall w a, w_count (iter c index w a) = add64 (w_count w) 1) ->
  w_count (run_worker iter c index v) = wrap64 (Z.of_nat (length (view_answers v))).
Proof.
  intros Hstep. destruct v as [g l]. simpl.
  induction l as [|a l IH] using rev_ind; [reflexivity|].
  rewrite run_worker_snoc, Hstep, IH. unfold add64.
  rewrite wrap64_succ. f_equal. rewrite length_app. simpl. lia.
Qed.

(** A worker of a phase without resets issues, at its step [s], the key
    of index [index + s * c] (modulo 2^64). *)
Lemma set_worker_trace c index g l :
  is_uint64 index ->
  let w := run_worker set_iter c index (mkView g l) in
  w_i w = wrapU64 (index + Z.of_nat (length l) * c)
  /\ length (w_keys w) = length l
  /\ forall (s : nat) k, w_keys w !! s = Some k ->
       length k = 9%nat /\ key_index k = wrapU64 (index + Z.of_nat s * c).
Proof.
  intros Hidx. induction l as [|a l IH] using rev_ind.
  - cbv zeta. split; [|split; [reflexivity|intros s k H; discriminate]].
    simpl. rewrite Z.add_0_r. symmetry. by apply wrapU64_id.
  - cbv zeta in *. rewrite run_worker_snoc. destruct IH as (Hi & Hlen & Hkeys).
    rewrite set_iter_i, set_iter_keys, Hi, !length_app, Hlen.
    split; [|split; [reflexivity|intros s k H; split]].
    + rewrite wrapU64_add_l. f_equal. simpl length. rewrite Nat2Z.inj_add. simpl. lia.
    + apply lookup_app_Some in H as [H|[Hge H]]; [by apply Hkeys in H as [? ?]|].
      rewrite Hlen in *. destruct (s - length l)%nat; simpl in H; [|discriminate].
      by inversion H.
    + apply lookup_app_Some in H as [H|[Hge H]]; [by apply Hkeys in H as [? ?]|].
      rewrite Hlen in *. destruct (s - length l)%nat eqn:E; simpl in H; [|discriminate].
      inversion H. rewrite key_index_genKey_with, wrapU64_idemp.
      replace s with (length l) by lia. reflexivity.
Qed.

(** A worker of the get phase issues keys of indices [index + m * c]
    (modulo 2^64) only, whatever the store answers. *)
Lemma get_worker_trace c index g l :
  is_uint64 index ->
  let w := run_worker get_iter c index (mkView g l) in
  (exists m, 0 <= m <= Z.of_nat (length l) /\ w_i w = wrapU64 (index + m * c))
  /\ length (w_keys w) = length l
  /\ forall k, k ∈ w_keys w ->
       length k = 9%nat
       /\ exists m, 0 <= m < Z.of_nat (length l) /\ key_index k = wrapU64 (index + m * c).
Proof.
  intros Hidx. induction l as [|a l IH] using rev_ind.
  - cbv zeta. split; [|split; [reflexivity|intros k H; by apply elem_of_nil in H]].
    exists 0. split; [simpl; lia|]. simpl. rewrite Z.add_0_r. symmetry.
    by apply wrapU64_id.
  - cbv zeta in *. rewrite run_worker_snoc.
    destruct IH as ((m & Hm & Hi) & Hlen & Hkeys).
    rewrite get_iter_i, get_iter_keys, !length_app, Hlen. simpl length.
    split; [|split].
    + destruct a.
      * exists (m + 1). split; [lia|]. rewrite Hi, wrapU64_add_l. f_equal. lia.
      * exists 1. split; [lia|]. f_equal. lia.
    + reflexivity.
    + intros k Hk. apply elem_of_app in Hk as [Hk|Hk].
      * apply Hkeys in Hk as (H9 & m' & Hm' & Hk). split; [done|].
        exists m'. split; [lia|done].
      * apply list_elem_of_singleton in Hk. subst k. split; [reflexivity|].
        exists m. split; [lia|].
        by rewrite key_index_genKey_with, Hi, wrapU64_idemp.
Qed.

End Workers.

(** C6, as stated, fails: with 4 workers, worker 1 after a miss on its
    first attempt uses index 5 for its next attempt, not its starting id 1. *)
Lemma C6_next_index_after_miss_is_not_start :
  w_i (get_iter 4 1 (start_worker 1 g0) false) = 5
  /\ w_i (get_iter 4 1 (start_worker 1 g0) false) <> 1
  /\ key_index <$> w_keys (run_worker get_iter 4 1 (mkView g0 [false; true])) = [1; 5].
Proof. repeat split; vm_compute; congruence. Qed.

(** C6, amended. In the point-get phase, after a miss the worker's index
    is reset to its starting id and then advanced by the stride like after
    a hit, so the key of its very next attempt carries index
    [id + c] (modulo 2^64); after a hit it carries [i + c]. Every attempt,
    hit or miss, adds exactly one to the worker's counter, which after the
    loop is the number of attempts. *)
Theorem C6_miss_restarts_one_stride_after_start (c index : Z) :
  (forall w, w_i (get_iter c index w false) = wrapU64 (index + c))
  /\ (forall w ok',
        last (w_keys (get_iter c index (get_iter c index w false) ok'))
          = Some (genKey_with (rand_Intn 95 (w_rand (get_iter c index w false))).1
                              (wrapU64 (index + c)))
        /\ key_index <$> last (w_keys (get_iter c index (get_iter c index w false) ok'))
          = Some (wrapU64 (index + c)))
  /\ (forall w, w_i (get_iter c index w true) = wrapU64 (w_i w + c))
  /\ (forall w ok, w_count (get_iter c index w ok) = add64 (w_count w) 1)
  /\ (forall v, w_count (run_worker get_iter c index v)
                = wrap64 (Z.of_nat (length (view_answers v)))
              /\ length (w_keys (run_worker get_iter c index v))
                = length (view_answers v)).
Proof.
  split; [|split; [|split; [|split]]].
  - intros w. apply get_iter_i.
  - intros w ok'. rewrite get_iter_keys, last_snoc, get_iter_i. split; [reflexivity|].
    simpl. by rewrite key_index_genKey_with, wrapU64_idemp.
  - intros w. apply get_iter_i.
  - intros w ok. reflexivity.
  - intros v. split.
    + apply run_worker_count. intros; reflexivity.
    + destruct v as [g l]. simpl.
      induction l as [|a l IH] using rev_ind; [reflexivity|].
      rewrite run_worker_snoc, get_iter_keys, !length_app, IH. reflexivity.
Qed.

(** ** Keys never collide across indices and workers *)

Section Distinct.

Lemma genKey_suffix i g : key_suffix (genKey i g).1 = PutUint64 i.
Proof. reflexivity. Qed.

Lemma PutUint64_inj i1 i2 :
  is_uint64 i1 -> is_uint64 i2 -> PutUint64 i1 = PutUint64 i2 -> i1 = i2.
Proof.
  intros H1 H2 E. apply (f_equal Uint64) in E.
  rewrite !Uint64_PutUint64 in E. by rewrite !wrapU64_id in E.
Qed.

Lemma suffix_index k1 k2 : key_suffix k1 = key_suffix k2 -> key_index k1 = key_index k2.
Proof. unfold key_index. by intros ->. Qed.

Lemma run_workers_lookup {A} (iter : Z -> Z -> Worker -> A -> Worker) c ph (j : nat) W :
  c <= int_max ->
  run_workers iter c ph !! j = Some W ->
  Z.of_nat j < c
  /\ W = run_worker iter c (Z.of_nat j) (sched ph (Z.of_nat j)).
Proof.
  intros Hc. unfold run_workers. rewrite list_lookup_fmap.
  destruct (seqZ 0 c !! j) as [x|] eqn:E; [|discriminate].
  apply lookup_seqZ in E as [-> Hj]. simpl. intros [= <-].
  split; [exact Hj|]. rewrite Z.add_0_l. rewrite wrapU64_id; [reflexivity|].
  unfold is_uint64, uint64_max, int_max in *. lia.
Qed.

Lemma length_run_workers {A} (iter : Z -> Z -> Worker -> A -> Worker) c ph :
  length (run_workers iter c ph) = Z.to_nat c.
Proof. unfold run_workers. by rewrite length_fmap, length_seqZ. Qed.

(** [j + s * c] determines [j] and [s] when [0 <= j < c]. *)
Lemma stride_inj c j1 s1 j2 s2 :
  0 <= j1 < c -> 0 <= j2 < c ->
  j1 + s1 * c = j2 + s2 * c -> j1 = j2 /\ s1 = s2.
Proof.
  intros H1 H2 E.
  assert (Hj : j1 = j2).
  { apply (f_equal (fun x => x mod c)) in E.
    rewrite !Z.mod_add in E by lia. by rewrite !Z.mod_small in E by lia. }
  split; [exact Hj|]. subst j2.
  apply (Z.mul_cancel_r _ _ c); lia.
Qed.

Lemma stride_in_range c j s n :
  0 <= j -> 0 < c -> 0 <= s <= n -> j + n * c <= uint64_max ->
  is_uint64 (j + s * c).
Proof.
  intros Hj Hc Hs Hn.
  assert (s * c <= n * c) by (apply Z.mul_le_mono_nonneg_r; lia).
  assert (0 <= s * c) by (apply Z.mul_nonneg_nonneg; lia).
  unfold is_uint64. lia.
Qed.

End Distinct.

(** C3. Keys of distinct logical indices are distinct whatever their
    leading bytes, since bytes 1..8 are the big-endian encoding of the
    index. For a worker count [1 <= c], as long as the indices the workers
    compute stay below 2^64: in a phase that advances by the stride only,
    two distinct (worker, step) pairs give keys with distinct suffixes; in
    the get phase, whatever the store answers, every key of worker [j]
    carries an index congruent to [j] modulo [c], so two workers never
    target the same index. *)
Theorem C3_distinct_indices_distinct_keys
    (c : Z) (ps : Phase unit) (pg : Phase bool) :
  1 <= c <= int_max ->
  (forall j, 0 <= j < c ->
     j + Z.of_nat (length (view_answers (sched ps j))) * c <= uint64_max) ->
  (forall j, 0 <= j < c ->
     j + Z.of_nat (length (view_answers (sched pg j))) * c <= uint64_max) ->
  (forall i1 i2 g1 g2, is_uint64 i1 -> is_uint64 i2 -> i1 <> i2 ->
     key_suffix (genKey i1 g1).1 = PutUint64 i1
     /\ key_suffix (genKey i1 g1).1 <> key_suffix (genKey i2 g2).1
     /\ (genKey i1 g1).1 <> (genKey i2 g2).1)
  /\ (forall (j1 j2 s1 s2 : nat) W1 W2 k1 k2,
        run_workers set_iter c ps !! j1 = Some W1 ->
        run_workers set_iter c ps !! j2 = Some W2 ->
        w_keys W1 !! s1 = Some k1 -> w_keys W2 !! s2 = Some k2 ->
        (j1, s1) <> (j2, s2) ->
        key_index k1 = Z.of_nat j1 + Z.of_nat s1 * c
        /\ key_suffix k1 <> key_suffix k2)
  /\ (forall (j1 j2 : nat) W1 W2 k1 k2,
        run_workers get_iter c pg !! j1 = Some W1 ->
        run_workers get_iter c pg !! j2 = Some W2 ->
        k1 ∈ w_keys W1 -> k2 ∈ w_keys W2 ->
        key_index k1 mod c = Z.of_nat j1
        /\ (j1 <> j2 -> key_index k1 <> key_index k2 /\ key_suffix k1 <> key_suffix k2)).
Proof.
  intros Hc Hs Hg. split; [|split].
  - intros i1 i2 g1 g2 H1 H2 Hne.
    assert (Hsuf : key_suffix (genKey i1 g1).1 <> key_suffix (genKey i2 g2).1).
    { rewrite !genKey_suffix. intros E. by apply Hne, PutUint64_inj. }
    split; [apply genKey_suffix|]. split; [exact Hsuf|].
    intros E. apply Hsuf. by rewrite E.
  - intros j1 j2 s1 s2 W1 W2 k1 k2 HW1 HW2 Hk1 Hk2 Hne.
    apply run_workers_lookup in HW1 as [Hj1 ->]; [|lia].
    apply run_workers_lookup in HW2 as [Hj2 ->]; [|lia].
    pose proof (Hs (Z.of_nat j1) ltac:(lia)) as Hb1.
    pose proof (Hs (Z.of_nat j2) ltac:(lia)) as Hb2.
    destruct (sched ps (Z.of_nat j1)) as [ga la].
    destruct (sched ps (Z.of_nat j2)) as [gb lb]. simpl in Hb1, Hb2.
    assert (Hu : forall j, 0 <= j < c -> is_uint64 j).
    { intros j Hj. unfold is_uint64, uint64_max, int_max in *. lia. }
    destruct (set_worker_trace c (Z.of_nat j1) ga la (Hu _ (conj (Nat2Z.is_nonneg j1) Hj1))) as (_ & Hl1 & Ht1).
    destruct (set_worker_trace c (Z.of_nat j2) gb lb (Hu _ (conj (Nat2Z.is_nonneg j2) Hj2))) as (_ & Hl2 & Ht2).
    pose proof (lookup_lt_Some _ _ _ Hk1) as Hlt1. rewrite Hl1 in Hlt1.
    pose proof (lookup_lt_Some _ _ _ Hk2) as Hlt2. rewrite Hl2 in Hlt2.
    apply Ht1 in Hk1 as [_ Hi1]. apply Ht2 in Hk2 as [_ Hi2].
    rewrite wrapU64_id in Hi1
      by (apply (stride_in_range c _ _ (Z.of_nat (length la))); lia).
    rewrite wrapU64_id in Hi2
      by (apply (stride_in_range c _ _ (Z.of_nat (length lb))); lia).
    split; [exact Hi1|].
    intros E. apply suffix_index in E. rewrite Hi1, Hi2 in E.
    apply stride_inj in E as [Ej Es]; [|lia|lia].
    apply Hne. f_equal; lia.
  - intros j1 j2 W1 W2 k1 k2 HW1 HW2 Hk1 Hk2.
    apply run_workers_lookup in HW1 as [Hj1 ->]; [|lia].
    apply run_workers_lookup in HW2 as [Hj2 ->]; [|lia].
    pose proof (Hg (Z.of_nat j1) ltac:(lia)) as Hb1.
    pose proof (Hg (Z.of_nat j2) ltac:(lia)) as Hb2.
    destruct (sched pg (Z.of_nat j1)) as [ga la].
    destruct (sched pg (Z.of_nat j2)) as [gb lb]. simpl in Hb1, Hb2.
    assert (Hu : forall j, 0 <= j < c -> is_uint64 j).
    { intros j Hj. unfold is_uint64, uint64_max, int_max in *. lia. }
    destruct (get_worker_trace c (Z.of_nat j1) ga la (Hu _ (conj (Nat2Z.is_nonneg j1) Hj1))) as (_ & _ & Ht1).
    destruct (get_worker_trace c (Z.of_nat j2) gb lb (Hu _ (conj (Nat2Z.is_nonneg j2) Hj2))) as (_ & _ & Ht2).
    apply Ht1 in Hk1 as (_ & m1 & Hm1 & Hi1).
    apply Ht2 in Hk2 as (_ & m2 & Hm2 & Hi2).
    rewrite wrapU64_id in Hi1
      by (apply (stride_in_range c _ _ (Z.of_nat (length la))); lia).
    rewrite wrapU64_id in Hi2
      by (apply (stride_in_range c _ _ (Z.of_nat (length lb))); lia).
    assert (Hmod : key_index k1 mod c = Z.of_nat j1).
    { rewrite Hi1, Z.mod_add by lia. apply Z.mod_small. lia. }
    split; [exact Hmod|]. intros Hne.
    assert (Hki : key_index k1 <> key_index k2).
    { rewrite Hi1, Hi2. intros E. apply stride_inj in E as [Ej _]; lia. }
    split; [exact Hki|]. intros E. by apply Hki, suffix_index.
Qed.

Lemma C3_distinct_indices_witness :
  1 <= 4 <= int_max
  /\ key_suffix (genKey 1 g0).1 <> key_suffix (genKey 2 g0).1
  /\ (forall (j1 j2 : nat) W1 W2 k1 k2,
        run_workers get_iter 4 get_views !! j1 = Some W1 ->
        run_workers get_iter 4 get_views !! j2 = Some W2 ->
        k1 ∈ w_keys W1 -> k2 ∈ w_keys W2 ->
        key_index k1 mod 4 = Z.of_nat j1
        /\ (j1 <> j2 -> key_index k1 <> key_index k2 /\ key_suffix k1 <> key_suffix k2)).
Proof.
  assert (H4 : 1 <= 4 <= int_max) by (unfold int_max; lia).
  split; [exact H4|].
  destruct (C3_distinct_indices_distinct_keys 4 stride_views get_views H4) as (Ha & _ & Hc).
  - intros j Hj. simpl. unfold uint64_max. lia.
  - intros j Hj. simpl. unfold uint64_max. lia.
  - split; [|exact Hc].
    apply (Ha 1 2 g0 g0); unfold is_uint64, uint64_max; lia.
Defined.

(** ** Metrics of a time-bounded phase *)

Section ProbeFacts.

Context {S : Type} `{Store S}.

Lemma testKeys_unfold c ph record name (store : S) g :
  testKeys c ph record name store g
  = (match probe_unsupported store g with
     | None => None
     | Some true =>
         Some (mkOut [] (mkReport (-1) (-1))
                 (append_value (-1) (append_header "Keys op/s" record)))
     | Some false => stride_phase keys_iter "Keys op/s" c ph record
     end,
     (genKeyPrefix 0 g).2).
Proof.
  unfold testKeys, probe_unsupported.
  destruct (genKeyPrefix 0 g) as [prefix g1]. simpl.
  destruct (Keys store prefix 0 true) as [[[ks vs] [e|]]|]; simpl; try reflexivity.
  destruct (errors_Is e ErrNotSupported); reflexivity.
Qed.

End ProbeFacts.

Section Metrics.

Lemma sumZ_nonneg l : Forall (fun x => 0 <= x) l -> 0 <= sumZ l.
Proof. induction 1; simpl; lia. Qed.

Lemma sum_counts_exact l acc :
  Forall (fun x => 0 <= x) l -> 0 <= acc -> acc + sumZ l <= int_max ->
  foldl add64 acc l = acc + sumZ l.
Proof.
  intros Hl. revert acc. induction Hl as [|x l Hx Hl IH]; intros acc Ha Hb; simpl in *.
  - lia.
  - pose proof (sumZ_nonneg l Hl).
    unfold add64 at 2. rewrite wrap64_id by (unfold is_int, int_min, int_max in *; lia).
    rewrite IH; lia.
Qed.

Lemma elem_le_sumZ l x : Forall (fun x => 0 <= x) l -> x ∈ l -> x <= sumZ l.
Proof.
  induction 1 as [|y l Hy Hl IH]; intros Hin.
  - by apply elem_of_nil in Hin.
  - pose proof (sumZ_nonneg l Hl). simpl.
    apply elem_of_cons in Hin as [->|Hin]; [lia|]. specialize (IH Hin). lia.
Qed.

Lemma attempts_nonneg {A} c (ph : Phase A) : Forall (fun x => 0 <= x) (attempts c ph).
Proof. unfold attempts. apply Forall_fmap, Forall_forall. intros j _. simpl. lia. Qed.

(** The workers' counters are the numbers of attempts. *)
Lemma counts_are_attempts {A} (iter : Z -> Z -> Worker -> A -> Worker) c ph :
  (forall index w a, w_count (iter c index w a) = add64 (w_count w) 1) ->
  sumZ (attempts c ph) <= int_max ->
  w_count <$> run_workers iter c ph = attempts c ph.
Proof.
  intros Hstep Hsum. unfold run_workers, attempts.
  rewrite <- list_fmap_compose. apply list_fmap_ext.
  intros i j Hj. simpl. rewrite run_worker_count by apply Hstep.
  apply wrap64_id.
  assert (Hin : Z.of_nat (length (view_answers (sched ph j))) ∈ attempts c ph).
  { unfold attempts. apply list_elem_of_fmap. exists j. split; [reflexivity|].
    by eapply list_elem_of_lookup_2. }
  apply elem_le_sumZ in Hin; [|apply attempts_nonneg].
  unfold is_int, int_min, int_max in *. lia.
Qed.

Lemma quot64_exact a b :
  0 <= a <= int_max -> 0 < b -> quot64 a b = Some (a / b).
Proof.
  intros Ha Hb. unfold quot64.
  destruct (Z.eqb_spec b 0) as [?|_]; [lia|].
  rewrite Z.quot_div_nonneg by lia. f_equal. apply wrap64_id.
  assert (0 <= a / b <= a).
  { split; [apply Z.div_pos; lia|]. apply Z.div_le_upper_bound; [lia|]. nia. }
  unfold is_int, int_min, int_max in *. lia.
Qed.

Lemma report_exact n c d :
  0 < c -> 0 < n -> n * 1000000 <= int_max -> n * c <= int_max ->
  1000 <= d <= int_max ->
  report n c d = Some (mkReport (n * 1000000 / (d / 1000)) (d / (n * c))).
Proof.
  intros Hc Hn Hn6 Hnc Hd. unfold report, mul64.
  assert (Hus : 1 <= d / 1000) by (apply Z.div_le_lower_bound; lia).
  assert (Hncpos : 0 < n * c) by (apply Z.mul_pos_pos; lia).
  rewrite (wrap64_id (n * 1000000)) by (unfold is_int, int_min, int_max in *; lia).
  rewrite (wrap64_id (n * c)) by (unfold is_int, int_min, int_max in *; lia).
  rewrite (quot64_exact d 1000) by lia. simpl.
  rewrite (quot64_exact (n * 1000000)) by lia. simpl.
  rewrite (quot64_exact d (n * c)) by lia. reflexivity.
Qed.

Lemma stride_phase_exact {A} (iter : Z -> Z -> Worker -> A -> Worker)
    header c ph record :
  (forall index w a, w_count (iter c index w a) = add64 (w_count w) 1) ->
  measurable c ph ->
  reports_formulas (stride_phase iter header c ph record) header c (elapsed ph) record.
Proof.
  intros Hstep (Hc & Hn & Hn6 & Hnc & Hd).
  assert (Hint : sumZ (attempts c ph) <= int_max) by lia.
  unfold stride_phase, reports_formulas.
  destruct (Z.ltb_spec c 0) as [?|_]; [lia|].
  rewrite (counts_are_attempts iter c ph Hstep Hint).
  unfold sum_counts. rewrite sum_counts_exact; [|apply attempts_nonneg|lia|lia].
  rewrite Z.add_0_l, report_exact by assumption. simpl.
  eexists. split; [reflexivity|]. simpl.
  rewrite (counts_are_attempts iter c ph Hstep Hint).
  split; [apply length_run_workers|]. repeat split.
Qed.

End Metrics.

(** C1. In each time-bounded phase (point get, point set, prefix scan when
    the preliminary scan returns and is not reported unsupported, delete),
    within the
    ranges of [measurable], the reported rate is [n * 1_000_000 / (d / 1000)]
    and the printed mean is [d / (n * c)], where [n] is the sum of the
    workers' counters, [c] the worker count and [d] the elapsed nanoseconds;
    the rate is also the value the phase appends to the record. *)
Theorem C1_rate_and_mean_formulas {S : Type} `{Store S}
    (c : Z) (pget pkeys : Phase bool) (pset pdel : Phase unit)
    (record : BenchRecord) (name : string) (store : S) (g : Rand) :
  measurable c pget -> measurable c pset -> measurable c pkeys -> measurable c pdel ->
  probe_unsupported store g = Some false ->
  reports_formulas (testGet c pget record name) "Get op/s" c (elapsed pget) record
  /\ reports_formulas (testSet c pset record name) "Set op/s" c (elapsed pset) record
  /\ reports_formulas (testKeys c pkeys record name store g).1
       "Keys op/s" c (elapsed pkeys) record
  /\ reports_formulas (testDelete c pdel record name) "Del op/s" c (elapsed pdel) record.
Proof.
  intros Hg Hs Hk Hd Hprobe. repeat split.
  - apply stride_phase_exact; [reflexivity|exact Hg].
  - apply stride_phase_exact; [reflexivity|exact Hs].
  - rewrite testKeys_unfold, Hprobe. simpl.
    apply stride_phase_exact; [apply keys_iter_count|exact Hk].
  - apply stride_phase_exact; [reflexivity|exact Hd].
Qed.

Lemma measurable_get_views : measurable 4 get_views.
Proof. unfold measurable. vm_compute. repeat split; congruence. Defined.

Lemma measurable_stride_views : measurable 4 stride_views.
Proof. unfold measurable. vm_compute. repeat split; congruence. Defined.

Lemma C1_rate_and_mean_witness :
  measurable 4 get_views /\ measurable 4 stride_views
  /\ probe_unsupported leveldb_empty g0 = Some false
  /\ reports_formulas (testGet 4 get_views record1 "leveldb/nofsync")
       "Get op/s" 4 5000 record1
  /\ (rate <$> (out_report <$> testGet 4 get_views record1 "leveldb/nofsync"))
       = Some 2400000
  /\ (mean <$> (out_report <$> testGet 4 get_views record1 "leveldb/nofsync"))
       = Some 104.
Proof.
  split; [exact measurable_get_views|]. split; [exact measurable_stride_views|].
  split; [reflexivity|].
  split; [|split; vm_compute; reflexivity].
  exact (proj1 (C1_rate_and_mean_formulas 4 get_views get_views stride_views stride_views
           record1 "leveldb/nofsync" leveldb_empty g0
           measurable_get_views measurable_stride_views measurable_get_views
           measurable_stride_views eq_refl)).
Defined.

(** ** Bulk load *)

Section BulkFacts.

Context {S : Type} `{Store S}.

Lemma alloc_page_spec n arg size g :
  length (alloc_page n arg size g).1.1 = n
  /\ length (alloc_page n arg size g).1.2 = n
  /\ Forall (fun k => length k = 9%nat) (alloc_page n arg size g).1.1
  /\ Forall (fun v => length v = size) (alloc_page n arg size g).1.2.
Proof.
  revert g. induction n as [|n IH]; intros g.
  - simpl. repeat split; constructor.
  - cbn [alloc_page]. rewrite genKey_spec.
    specialize (IH (rand_next g)).
    destruct (alloc_page n arg size (rand_next g)) as [[ks vs] g2].
    cbn [fst snd] in *. destruct IH as (H1 & H2 & H3 & H4).
    repeat split; cbn [length]; try congruence.
    + constructor; [reflexivity|exact H3].
    + constructor; [apply length_replicate|exact H4].
Qed.

Lemma fill_page_spec size keyList : forall valList g,
  length keyList = length valList ->
  Forall (fun k => length k = 9%nat) keyList ->
  Forall (fun v => length v = size) valList ->
  length (fill_page keyList valList g).1.1 = length keyList
  /\ length (fill_page keyList valList g).1.2 = length keyList
  /\ Forall key_ok (fill_page keyList valList g).1.1
  /\ Forall (fun v => length v = size) (fill_page keyList valList g).1.2.
Proof.
  induction keyList as [|k ks IH]; intros [|v vs] g Hlen Hk Hv; try discriminate.
  - simpl. repeat split; constructor.
  - cbn [fill_page].
    pose proof (rand_Read_length (length k) g) as Hkb.
    destruct (rand_Read (length k) g) as [kb g1].
    pose proof (rand_Read_length (length v) g1) as Hvb.
    destruct (rand_Read (length v) g1) as [vb g2].
    pose proof (rand_Intn_range (127 - 32) g2 ltac:(lia)) as Hx.
    destruct (rand_Intn (127 - 32) g2) as [x g3].
    inversion Hk as [|? ? Hk9 Hks]; subst. inversion Hv as [|? ? Hvs Hvs']; subst.
    specialize (IH vs g3 ltac:(simpl in Hlen; lia) Hks Hvs').
    destruct (fill_page ks vs g3) as [[ks' vs'] g4].
    cbn [fst snd] in *. destruct IH as (H1 & H2 & H3 & H4).
    repeat split; cbn [length]; try congruence.
    + constructor; [|exact H3]. split.
      * rewrite length_insert. congruence.
      * exists (to_byte (32 + x)). split.
        -- apply list_lookup_insert_eq. rewrite Hkb, Hk9. lia.
        -- apply lead_byte_printable. lia.
    + constructor; [|exact H4]. congruence.
Qed.

(** What one full page sends, whatever the generator gives. *)
Lemma page_contents (size : Z) g :
  0 <= size ->
  let a := alloc_page (Z.to_nat 1000) 1000 (Z.to_nat size) g in
  let f := fill_page a.1.1 a.1.2 a.2 in
  Z.of_nat (length f.1.1) = 1000 /\ Z.of_nat (length f.1.2) = 1000
  /\ Forall key_ok f.1.1 /\ Forall (fun v => length v = Z.to_nat size) f.1.2.
Proof.
  intros Hsize a f.
  destruct (alloc_page_spec (Z.to_nat 1000) 1000 (Z.to_nat size) g) as (A1 & A2 & A3 & A4).
  fold a in A1, A2, A3, A4.
  destruct (fill_page_spec (Z.to_nat size) a.1.1 a.1.2 a.2) as (F1 & F2 & F3 & F4);
    [congruence|exact A3|exact A4|].
  fold f in F1, F2, F3, F4. rewrite F1, F2, A1.
  repeat split; try assumption; apply Z2Nat.id; lia.
Qed.

End BulkFacts.

Section BulkRuns.

Context {S : Type} `{Store S}.

(** One turn of the page loop, for a page number whose indices fit [int]. *)
Lemma run_pages_cons i pages size (store : S) g total calls :
  0 <= i -> i * 1000 + 1000 <= int_max -> 0 <= size ->
  run_pages (i :: pages) size store g total calls =
  let a := alloc_page (Z.to_nat 1000) 1000 (Z.to_nat size) g in
  let f := fill_page a.1.1 a.1.2 a.2 in
  match PSet store f.1.1 f.1.2 with
  | None => mkBulk store f.2 total calls false
  | Some (store', Some e) =>
      mkBulk store' f.2 total (calls ++ [mkCall f.1.1 f.1.2 (Some e)]) false
  | Some (store', None) =>
      run_pages pages size store' f.2 (addU64 total (Z.of_nat (length f.1.1)))
        (calls ++ [mkCall f.1.1 f.1.2 None])
  end.
Proof.
  intros Hi Hmax Hsize. cbn [run_pages]. unfold mul64, add64, batchSize.
  rewrite (wrap64_id (i * 1000)) by (unfold is_int, int_min, int_max in *; lia).
  rewrite (wrap64_id (i * 1000 + 1000)) by (unfold is_int, int_min, int_max in *; lia).
  replace (i * 1000 + 1000 - i * 1000) with 1000 by lia.
  destruct (Z.ltb_spec size 0) as [?|_]; [lia|].
  change (0 <? 1000) with true. cbn [andb].
  change (wrapU64 (wrap64 1000)) with 1000.
  destruct (alloc_page (Z.to_nat 1000) 1000 (Z.to_nat size) g) as [[ks0 vs0] g1].
  cbn [fst snd]. destruct (fill_page ks0 vs0 g1) as [[ks vs] g2]. reflexivity.
Qed.

(** On a store that accepts batches, every page is sent, full. *)
Lemma run_pages_all pages (P : S -> Prop) size :
  accepts_batches P -> 0 <= size ->
  Forall (fun i => 0 <= i /\ i * 1000 + 1000 <= int_max) pages ->
  forall (store : S) g total calls, P store -> is_uint64 total ->
  let run := run_pages pages size store g total calls in
  run_ok run = true
  /\ P (run_store run)
  /\ run_total run = wrapU64 (total + 1000 * Z.of_nat (length pages))
  /\ exists new, run_calls run = calls ++ new
       /\ length new = length pages
       /\ Forall (page_ok size) new
       /\ replay store new = Some (run_store run).
Proof.
  intros Hacc Hsize Hpages. induction Hpages as [|i pages [Hi Hmax] Hpages IH];
    intros store g total calls HP Htot.
  - cbn. repeat split; [exact HP| |].
    + rewrite Z.add_0_r. symmetry. by apply wrapU64_id.
    + exists []. rewrite app_nil_r. repeat split. constructor.
  - cbv zeta. rewrite run_pages_cons by assumption. cbv zeta.
    destruct (page_contents size g Hsize) as (L1 & L2 & K & V).
    set (a := alloc_page (Z.to_nat 1000) 1000 (Z.to_nat size) g) in *.
    set (f := fill_page a.1.1 a.1.2 a.2) in *.
    destruct (Hacc store f.1.1 f.1.2 HP ltac:(lia)) as (store' & HPSet & HP').
    rewrite HPSet.
    destruct (IH store' f.2 (addU64 total (Z.of_nat (length f.1.1)))
                (calls ++ [mkCall f.1.1 f.1.2 None]) HP' (wrapU64_range _))
      as (Hok & HPend & Htotal & new & Hcalls & Hlen & Hall & Hreplay).
    split; [exact Hok|]. split; [exact HPend|]. split.
    + rewrite Htotal. unfold addU64. rewrite wrapU64_add_l, L1. f_equal.
      cbn [length]. lia.
    + exists (mkCall f.1.1 f.1.2 None :: new). split; [|split; [|split]].
      * rewrite Hcalls, <- app_assoc. reflexivity.
      * cbn [length]. by rewrite Hlen.
      * constructor; [|exact Hall]. repeat split; assumption.
      * cbn [replay call_keys call_vals call_err]. rewrite HPSet.
        rewrite decide_True by reflexivity. exact Hreplay.
Qed.

Lemma pageCount_of_nonneg count :
  0 <= count <= int_max ->
  pageCount_of count
  = if count mod 1000 =? 0 then count / 1000 else count / 1000 + 1.
Proof.
  intros Hc. unfold pageCount_of, batchSize, add64.
  rewrite Z.rem_mod_nonneg, Z.quot_div_nonneg by lia.
  destruct (count mod 1000 =? 0); [reflexivity|].
  apply wrap64_id.
  assert (0 <= count / 1000) by (apply Z.div_pos; lia).
  pose proof (Z.mul_div_le count 1000 ltac:(lia)).
  unfold is_int, int_min, int_max in *. lia.
Qed.

Lemma entries_written_full size calls :
  Forall (page_ok size) calls ->
  entries_written calls = 1000 * Z.of_nat (length calls).
Proof.
  unfold entries_written. induction 1 as [|cl calls Hcl _ IH]; [reflexivity|].
  destruct Hcl as (L & _). rewrite fmap_cons.
  change (sumZ (?x :: ?l)) with (x + sumZ l).
  rewrite IH, L. cbn [length]. lia.
Qed.

(** The bulk load on a store that accepts batches, for a count whose page
    indices fit [int]. *)
Lemma bulk_load_all (P : S -> Prop) size secs record name (store : S) g count :
  accepts_batches P -> P store -> 0 <= size ->
  0 <= count <= int_max - 1000 ->
  let res := testBatchWriteFixCount size secs record name store g count in
  let pc := if count mod 1000 =? 0 then count / 1000 else count / 1000 + 1 in
  run_ok res.1 = true
  /\ res.2 = Some (append_value secs (append_header "batch write cost(s)" record))
  /\ Z.of_nat (length (run_calls res.1)) = pc
  /\ Forall (page_ok size) (run_calls res.1)
  /\ replay store (run_calls res.1) = Some (run_store res.1)
  /\ run_total res.1 = 1000 * pc
  /\ entries_written (run_calls res.1) = 1000 * pc.
Proof.
  intros Hacc HP Hsize Hcount res pc. subst res. unfold testBatchWriteFixCount.
  cbn [fst snd]. rewrite pageCount_of_nonneg by (unfold int_max in *; lia). fold pc.
  assert (Hq : 0 <= count / 1000) by (apply Z.div_pos; lia).
  assert (Hdm := Z.div_mod count 1000 ltac:(lia)).
  assert (Hm := Z.mod_pos_bound count 1000 ltac:(lia)).
  assert (Hpc : 0 <= pc /\ pc * 1000 <= count + 1000).
  { subst pc. destruct (Z.eqb_spec (count mod 1000) 0); lia. }
  assert (Hpages : Forall (fun i => 0 <= i /\ i * 1000 + 1000 <= int_max) (seqZ 0 pc)).
  { apply Forall_forall. intros i Hin. apply elem_of_seqZ in Hin. lia. }
  destruct (run_pages_all (seqZ 0 pc) P size Hacc Hsize Hpages store g 0 [] HP)
    as (Hok & _ & Htotal & new & Hcalls & Hlen & Hall & Hreplay).
  { unfold is_uint64, uint64_max. lia. }
  rewrite Hok. rewrite app_nil_l in Hcalls. rewrite Hcalls.
  rewrite length_seqZ in Hlen, Htotal.
  split; [reflexivity|]. split; [reflexivity|].
  split; [rewrite Hlen; lia|]. split; [exact Hall|]. split; [exact Hreplay|].
  split.
  - rewrite Htotal, Z2Nat.id, Z.add_0_l by lia. apply wrapU64_id.
    unfold is_uint64, uint64_max, int_max in *. lia.
  - rewrite (entries_written_full size) by exact Hall. rewrite Hlen. lia.
Qed.

End BulkRuns.

(** C2. A bulk load of 4000 entries on a store that accepts its batches
    issues exactly 4 PSet calls, one after the other (each on the store the
    previous call left), each with exactly 1000 keys and 1000 values, every
    key 9 bytes long with its first byte in [32, 126]. *)
Theorem C2_bulk_load_4000_is_4_full_pages {S : Type} `{Store S}
    (P : S -> Prop) (size secs : Z) (record : BenchRecord) (name : string)
    (store : S) (g : Rand) :
  accepts_batches P -> P store -> 0 <= size ->
  let run := (testBatchWriteFixCount size secs record name store g 4000).1 in
  run_ok run = true
  /\ length (run_calls run) = 4%nat
  /\ Forall (page_ok size) (run_calls run)
  /\ replay store (run_calls run) = Some (run_store run)
  /\ run_total run = 4000.
Proof.
  intros Hacc HP Hsize run.
  destruct (bulk_load_all P size secs record name store g 4000 Hacc HP Hsize)
    as (Hok & _ & Hlen & Hall & Hreplay & Htotal & _).
  { unfold int_max. lia. }
  change (4000 mod 1000 =? 0) with true in Hlen, Htotal. cbv iota in Hlen, Htotal.
  change (4000 / 1000) with 4 in Hlen, Htotal.
  repeat split; try assumption. fold run in Hlen. lia.
Qed.

(** C10, amended. For a count in [0, 2^63 - 1000) that is not a multiple
    of 1000, on a store that accepts its batches, the bulk load issues
    exactly [count / 1000 + 1] PSet calls of exactly 1000 pairs each; the
    entries written are [ceil(count / 1000) * 1000], more than the count. *)
Theorem C10_partial_page_is_sent_full {S : Type} `{Store S}
    (P : S -> Prop) (size secs : Z) (record : BenchRecord) (name : string)
    (store : S) (g : Rand) (count : Z) :
  accepts_batches P -> P store -> 0 <= size ->
  0 <= count <= int_max - 1000 -> count mod 1000 <> 0 ->
  let run := (testBatchWriteFixCount size secs record name store g count).1 in
  run_ok run = true
  /\ Z.of_nat (length (run_calls run)) = count / 1000 + 1
  /\ Forall (page_ok size) (run_calls run)
  /\ entries_written (run_calls run) = ceil_div count 1000 * 1000
  /\ run_total run = entries_written (run_calls run)
  /\ count < entries_written (run_calls run).
Proof.
  intros Hacc HP Hsize Hcount Hrem run.
  destruct (bulk_load_all P size secs record name store g count Hacc HP Hsize Hcount)
    as (Hok & _ & Hlen & Hall & _ & Htotal & Hentries).
  fold run in Hok, Hlen, Hall, Htotal, Hentries.
  destruct (Z.eqb_spec (count mod 1000) 0) as [?|_]; [contradiction|].
  assert (Hceil : ceil_div count 1000 = count / 1000 + 1).
  { unfold ceil_div. rewrite Z.div_opp_l_nz by lia. lia. }
  assert (Hdm := Z.div_mod count 1000 ltac:(lia)).
  assert (Hm := Z.mod_pos_bound count 1000 ltac:(lia)).
  repeat split; try assumption; rewrite ?Hceil; lia.
Qed.

(** The leveldb and pebble adapters accept batches while their database
    is open. *)
Lemma leveldb_accepts_batches :
  accepts_batches (fun s : Leveldb.leveldbStore => Engine.closed (Leveldb.db s) = false).
Proof.
  intros s ks vs Hs Hlen. cbn [PSet leveldb_Store]. unfold Leveldb.PSet.
  assert (Hb : exists b, Leveldb.build_batch ks vs = Some b).
  { clear Hs. revert vs Hlen. induction ks as [|k ks IH]; intros [|v vs] Hlen;
      try discriminate; [by eexists|].
    destruct (IH vs ltac:(simpl in Hlen; lia)) as [b Hb].
    exists ((k, v) :: b). cbn [Leveldb.build_batch]. by rewrite Hb. }
  destruct Hb as [b ->]. cbn. unfold Engine.write, Engine.failure. rewrite Hs. cbn.
  eexists. split; reflexivity.
Qed.

Lemma pebble_accepts_batches :
  accepts_batches (fun s : Pebble.pebbleStore => Engine.closed (Pebble.db s) = false).
Proof.
  intros s ks vs Hs Hlen. cbn [PSet pebble_Store]. unfold Pebble.PSet.
  assert (Hb : exists b, Pebble.build_batch ks vs = Some b).
  { clear Hs. revert vs Hlen. induction ks as [|k ks IH]; intros [|v vs] Hlen;
      try discriminate; [by eexists|].
    destruct (IH vs ltac:(simpl in Hlen; lia)) as [b Hb].
    exists ((k, v) :: b). cbn [Pebble.build_batch]. by rewrite Hb. }
  destruct Hb as [b ->]. cbn. unfold Pebble.opened, Engine.write, Engine.failure.
  rewrite Hs. cbn.
  eexists. split; reflexivity.
Qed.

Lemma C2_bulk_load_4000_witness :
  0 <= 256
  /\ Engine.closed (Leveldb.db leveldb_empty) = false
  /\ let run := (testBatchWriteFixCount 256 3 record1 "leveldb/nofsync"
                   leveldb_empty g0 4000).1 in
     run_ok run = true
     /\ length (run_calls run) = 4%nat
     /\ Forall (page_ok 256) (run_calls run)
     /\ replay leveldb_empty (run_calls run) = Some (run_store run)
     /\ run_total run = 4000.
Proof.
  split; [lia|]. split; [reflexivity|].
  exact (C2_bulk_load_4000_is_4_full_pages
           (fun s : Leveldb.leveldbStore => Engine.closed (Leveldb.db s) = false)
           256 3 record1 "leveldb/nofsync" leveldb_empty g0
           leveldb_accepts_batches eq_refl ltac:(lia)).
Defined.

Lemma C10_range_4500 : 0 <= 4500 <= int_max - 1000.
Proof. unfold int_max. lia. Defined.

Lemma C10_rem_4500 : 4500 mod 1000 <> 0.
Proof. vm_compute. congruence. Defined.

Lemma C10_partial_page_witness :
  (0 <= 4500 <= int_max - 1000)
  /\ 4500 mod 1000 <> 0
  /\ let run := (testBatchWriteFixCount 256 3 record1 "leveldb/nofsync"
                   leveldb_empty g0 4500).1 in
     run_ok run = true
     /\ Z.of_nat (length (run_calls run)) = 4500 / 1000 + 1
     /\ Forall (page_ok 256) (run_calls run)
     /\ entries_written (run_calls run) = ceil_div 4500 1000 * 1000
     /\ run_total run = entries_written (run_calls run)
     /\ 4500 < entries_written (run_calls run).
Proof.
  split; [exact C10_range_4500|]. split; [exact C10_rem_4500|].
  exact (C10_partial_page_is_sent_full
           (fun s : Leveldb.leveldbStore => Engine.closed (Leveldb.db s) = false)
           256 3 record1 "leveldb/nofsync" leveldb_empty g0 4500
           leveldb_accepts_batches eq_refl ltac:(lia) C10_range_4500 C10_rem_4500).
Defined.

(** C10, as stated, fails for a negative count, which the [-set] flag
    accepts: for the count [-5], not a multiple of 1000, the bulk load
    makes one call of 1000 pairs, so it writes 1000 entries where
    [ceil(-5 / 1000) * 1000] is 0. *)
Lemma C10_negative_count_is_not_rounded_up :
  Z.rem (-5) 1000 <> 0
  /\ let run := (testBatchWriteFixCount 16 3 record1 "leveldb/nofsync"
                   leveldb_empty g0 (-5)).1 in
     run_ok run = true
     /\ length (run_calls run) = 1%nat
     /\ (fun cl => length (call_keys cl)) <$> run_calls run = [1000%nat]
     /\ entries_written (run_calls run) = 1000
     /\ ceil_div (-5) 1000 * 1000 = 0
     /\ entries_written (run_calls run) <> ceil_div (-5) 1000 * 1000.
Proof.
  split; [vm_compute; discriminate|].
  assert (Hrun : let run := (testBatchWriteFixCount 16 3 record1 "leveldb/nofsync"
                               leveldb_empty g0 (-5)).1 in
                 run_ok run = true
                 /\ (fun cl => length (call_keys cl)) <$> run_calls run = [1000%nat]
                 /\ entries_written (run_calls run) = 1000).
  { vm_compute. repeat split. }
  cbv zeta in *. destruct Hrun as (Hok & Hlen & Hent).
  split; [exact Hok|]. split; [by rewrite <- (length_fmap (fun cl => length (call_keys cl))), Hlen|].
  split; [exact Hlen|]. split; [exact Hent|]. split; [reflexivity|].
  rewrite Hent. vm_compute. discriminate.
Qed.

(** ** The record along a run *)

Section ColumnFacts.

Context {S : Type} `{Store S}.

Lemma stride_phase_appends {A} (iter : Z -> Z -> Worker -> A -> Worker) header c ph :
  appends (fun r => out_record <$> stride_phase iter header c ph r)
          (one_column header (stride_column iter c ph)).
Proof.
  intros r. unfold stride_phase, stride_column, one_column.
  destruct (c <? 0); [reflexivity|].
  generalize (sum_counts (w_count <$> run_workers iter c ph)). intros n.
  destruct (report n c (elapsed ph)) as [rep|]; reflexivity.
Qed.

Lemma testKeys_appends c ph name (store : S) g :
  appends (fun r => out_record <$> (testKeys c ph r name store g).1)
          (one_column "Keys op/s" (keys_column c ph store g)).
Proof.
  intros r. rewrite testKeys_unfold. unfold keys_column. cbn [fst].
  destruct (probe_unsupported store g) as [[|]|]; [reflexivity| |reflexivity].
  apply (stride_phase_appends keys_iter).
Qed.

Lemma testGetSet_appends c ph setCount name :
  appends (fun r => out_record <$> testGetSet c ph setCount r name)
          (getset_columns c ph setCount).
Proof.
  intros r. unfold testGetSet, getset_columns.
  destruct (c <? 0); [reflexivity|].
  assert (Hext : forall v1 v2,
    append_value v2 (append_header "Getmixed op/s"
      (append_value v1 (append_header "Setmixed op/s" r)))
    = extend ["Setmixed op/s"; "Getmixed op/s"] [v1; v2] r).
  { intros v1 v2. unfold extend, append_value, append_header. cbn.
    by rewrite <- !app_assoc. }
  generalize (report (sum_counts (w_count <$> run_workers set_iter c ph)) c (elapsed ph)).
  intros orep.
  destruct (setCount =? 0).
  - destruct orep as [rep|]; cbn; [|reflexivity]. by rewrite Hext.
  - destruct (quot64 (elapsed ph) 1000) as [us|]; cbn; [|reflexivity].
    destruct (quot64 (mul64 (wrap64 setCount) 1000000) us) as [rt|]; cbn; [|reflexivity].
    destruct (quot64 (elapsed ph) (wrap64 setCount)) as [m|]; cbn; [|reflexivity].
    destruct orep as [rep|]; cbn; [|reflexivity]. by rewrite Hext.
Qed.

Lemma showMemUsage_appends m name :
  appends (fun r => Some (showMemUsage m r name)) (mem_columns m).
Proof.
  intros r. unfold showMemUsage, mem_columns, extend, append_value, append_header.
  cbn. by rewrite <- !app_assoc.
Qed.

Lemma showDiskUsage_appends st name path :
  appends (fun r => showDiskUsage st r name path) (disk_columns st).
Proof.
  intros [n hs vs]. destruct st; cbn; unfold extend; cbn; rewrite ?app_nil_r; reflexivity.
Qed.

Lemma bulk_appends size secs name (store : S) g count :
  appends (fun r => (testBatchWriteFixCount size secs r name store g count).2)
          (bulk_columns size secs store g count).
Proof.
  intros r. unfold testBatchWriteFixCount, bulk_columns. cbn [snd].
  destruct (run_ok _); reflexivity.
Qed.

Lemma run_steps_appends steps cols :
  Forall2 appends steps cols ->
  forall r, run_steps steps r = extend_all cols r.
Proof.
  induction 1 as [|f col steps cols Hf _ IH]; intros r; [reflexivity|].
  cbn [run_steps extend_all]. rewrite Hf.
  destruct col as [[hs vs]|]; cbn; [|reflexivity].
  by rewrite IH.
Qed.

(** [main] in terms of the columns its statements append. *)
Lemma main_by_columns fl name path (store : S) env file :
  let record0 := mkRecord name [] [] in
  let record := mkRecord name ["name"] [] in
  let res := extend_all (main_columns fl store env) record in
  main fl name path store env file
  = {| trace := record0 :: record :: res.1;
       completed := res.2;
       ledger := if res.2
                 then saveReorder (flag_savePath fl)
                        (List.last (record0 :: record :: res.1) record0) file
                 else file |}.
Proof.
  intros record0 record res. unfold main.
  change (append_header "name" {| Name := name; Headers := []; Values := [] |})
    with record.
  rewrite (run_steps_appends _ (main_columns fl store env)).
  - fold res. destruct res as [tr ok]. reflexivity.
  - unfold main_columns. repeat constructor.
    + apply bulk_appends.
    + apply showMemUsage_appends.
    + apply showDiskUsage_appends.
    + apply testKeys_appends.
    + apply (stride_phase_appends set_iter).
    + apply (stride_phase_appends get_iter).
    + apply testGetSet_appends.
    + apply (stride_phase_appends set_iter).
Qed.

End ColumnFacts.

Section Shape.

Context {St : Type} `{Store St}.

Lemma chain_lookup {A} (R : A -> A -> Prop) x l (i : nat) a b :
  chain R x l -> (x :: l) !! i = Some a -> (x :: l) !! (i + 1)%nat = Some b -> R a b.
Proof.
  revert x i. induction l as [|y l IH]; intros x i Hc Ha Hb.
  - destruct i; discriminate.
  - destruct Hc as [Hxy Hc]. destruct i as [|i].
    + cbn in Ha, Hb. congruence.
    + cbn in Ha. replace (Datatypes.S i + 1)%nat with (Datatypes.S (i + 1)) in Hb by lia.
      cbn in Hb. by apply (IH y i).
Qed.

Lemma extend_grows hs vs r : grows r (extend hs vs r).
Proof. repeat split; cbn; by apply prefix_app_r. Qed.

Lemma extend_all_shape cols : forall r,
  Forall balanced cols -> one_ahead r ->
  Forall one_ahead (extend_all cols r).1 /\ chain grows r (extend_all cols r).1.
Proof.
  induction cols as [|[[hs vs]|] cols IH]; intros r Hb Hr.
  - cbn. split; [constructor|exact I].
  - inversion Hb as [|? ? Hlen Hb']; subst. cbn [extend_all].
    assert (Hr' : one_ahead (extend hs vs r)).
    { unfold one_ahead in *. cbn. rewrite !length_app. cbn in Hlen. lia. }
    destruct (IH (extend hs vs r) Hb' Hr') as [IH1 IH2].
    destruct (extend_all cols (extend hs vs r)) as [tr ok]. cbn [fst] in *.
    split; [by constructor|]. split; [apply extend_grows|exact IH2].
  - cbn. split; [constructor|exact I].
Qed.

Lemma main_columns_balanced fl (store : St) env :
  Forall balanced (main_columns fl store env).
Proof.
  unfold main_columns, bulk_columns, mem_columns, one_column, getset_columns.
  repeat constructor.
  - destruct (run_ok _); reflexivity.
  - destruct (env_stat env); reflexivity.
  - destruct (keys_column _ _ _ _); reflexivity.
  - destruct (stride_column set_iter _ (env_set env)); reflexivity.
  - destruct (stride_column get_iter _ _); reflexivity.
  - destruct (flag_c fl <? 0); [exact I|]. cbv zeta.
    generalize (report (sum_counts (w_count <$> run_workers set_iter (flag_c fl) (env_getset env)))
                  (flag_c fl) (elapsed (env_getset env))).
    intros orep.
    destruct (if env_setCount env =? 0 then _ else _) as [v1|]; [|exact I]. cbn.
    destruct orep; reflexivity.
  - destruct (stride_column set_iter _ (env_del env)); reflexivity.
Qed.

End Shape.

(** C4, amended. The record has no header and no value when it is
    created; from the moment [main] has appended the ["name"] header, and
    after each phase function returns, it has exactly one header more than
    values (the row saveReorder writes, the name followed by the values, is
    as long as the headers); and each statement only appends: the name,
    the headers and the values that were there stay as they are, in front. *)
Theorem C4_headers_one_ahead_and_append_only {St : Type} `{Store St}
    (fl : Flags) (name path : string) (store : St) (env : Env)
    (file : option (list (list string))) :
  let run := main fl name path store env file in
  (exists r0 r1 rest, trace run = r0 :: r1 :: rest
     /\ length (Headers r0) = length (Values r0)
     /\ Headers r1 = ["name"] /\ Values r1 = []
     /\ Forall one_ahead (r1 :: rest)
     /\ Forall (fun r => length (Name r :: (Itoa <$> Values r)) = length (Headers r))
               (r1 :: rest))
  /\ (forall (i : nat) a b,
        trace run !! i = Some a -> trace run !! (i + 1)%nat = Some b -> grows a b).
Proof.
  intros run. subst run. rewrite main_by_columns. cbv zeta. cbn [trace].
  set (record0 := mkRecord name [] []). set (record := mkRecord name ["name"] []).
  assert (Hr : one_ahead record) by reflexivity.
  destruct (extend_all_shape (main_columns fl store env) record
              (main_columns_balanced fl store env) Hr) as [Hall Hchain].
  split.
  - exists record0, record, (extend_all (main_columns fl store env) record).1.
    split; [reflexivity|]. split; [reflexivity|]. split; [reflexivity|].
    split; [reflexivity|]. split; [by constructor|].
    assert (Hall' : Forall one_ahead
      (record :: (extend_all (main_columns fl store env) record).1)) by by constructor.
    eapply Forall_impl; [exact Hall'|]. intros r Hone. unfold one_ahead in Hone.
    cbn [length]. rewrite length_fmap. lia.
  - intros i a b Ha Hb.
    apply (chain_lookup grows record0 (record :: (extend_all (main_columns fl store env) record).1) i);
      [|exact Ha|exact Hb].
    split; [|exact Hchain]. repeat split; cbn; [by apply prefix_nil|reflexivity].
Qed.

(** C4, as stated, fails: in a run that completes, the record has one
    header and no value once [main] has appended ["name"], and one header
    more than values after every phase function. *)
Lemma C4_headers_values_lengths_differ :
  completed example_run = true
  /\ (fun r => length (Headers r)) <$> trace example_run
     = [0; 1; 2; 4; 5; 6; 7; 8; 10; 11]%nat
  /\ (fun r => length (Values r)) <$> trace example_run
     = [0; 0; 1; 3; 4; 5; 6; 7; 9; 10]%nat
  /\ ~ Forall (fun r => length (Headers r) = length (Values r)) (trace example_run).
Proof.
  split; [vm_compute; reflexivity|].
  split; [vm_compute; reflexivity|].
  split; [vm_compute; reflexivity|].
  intros HF.
  apply (Forall_lookup_1 _ _ 1%nat (mkRecord "leveldb/nofsync" ["name"] [])) in HF.
  - discriminate HF.
  - vm_compute. reflexivity.
Qed.

(** ** The record a completed run ends with *)

Section FinalFacts.

Context {St : Type} `{Store St}.

Lemma extend_extend hs1 vs1 hs2 vs2 r :
  extend hs2 vs2 (extend hs1 vs1 r) = extend (hs1 ++ hs2) (vs1 ++ vs2) r.
Proof. unfold extend. cbn. by rewrite !app_assoc. Qed.

Lemma extend_all_collect cols : forall r,
  match collect cols with
  | Some (hs, vs) =>
      (extend_all cols r).2 = true
      /\ last (r :: (extend_all cols r).1) = Some (extend hs vs r)
  | None => (extend_all cols r).2 = false
  end.
Proof.
  induction cols as [|[[hs vs]|] cols IH]; intros r.
  - cbn. split; [reflexivity|]. unfold extend. destruct r. cbn. by rewrite !app_nil_r.
  - cbn [collect extend_all]. specialize (IH (extend hs vs r)).
    destruct (collect cols) as [[hs' vs']|]; cbn [fmap option_fmap option_map fst snd].
    + destruct IH as [Hok Hlast].
      destruct (extend_all cols (extend hs vs r)) as [tr ok]. cbn [fst snd] in *.
      split; [exact Hok|]. rewrite last_cons_cons, Hlast. by rewrite extend_extend.
    + destruct (extend_all cols (extend hs vs r)) as [tr ok]. exact IH.
  - reflexivity.
Qed.

Lemma getset_columns_shape c ph setCount cols :
  getset_columns c ph setCount = Some cols ->
  exists x y, cols = (["Setmixed op/s"; "Getmixed op/s"], [x; y]).
Proof.
  unfold getset_columns. destruct (c <? 0); [discriminate|]. cbv zeta.
  generalize (report (sum_counts (w_count <$> run_workers set_iter c ph)) c (elapsed ph)).
  intros orep.
  destruct (if setCount =? 0 then _ else _) as [v1|]; [|discriminate]. cbn.
  destruct orep as [rep|]; [|discriminate]. cbn. intros [= <-]. by eexists _, _.
Qed.

Lemma main_cases fl name path (store : St) env file :
  let run := main fl name path store env file in
  (completed run = true ->
     exists dh dv vkeys vset vget vsm vgm vdel,
       run_columns fl store env dh dv vkeys vset vget vsm vgm vdel)
  /\ (forall dh dv vkeys vset vget vsm vgm vdel,
        run_columns fl store env dh dv vkeys vset vget vsm vgm vdel ->
        completed run = true
        /\ last (trace run)
           = Some (final_record name env dh dv vkeys vset vget vsm vgm vdel)).
Proof.
  intros run. subst run. rewrite main_by_columns. cbv zeta. cbn [completed trace].
  pose proof (extend_all_collect (main_columns fl store env) (mkRecord name ["name"] []))
    as Hcol.
  remember (extend_all (main_columns fl store env) (mkRecord name ["name"] [])) as res
    eqn:Eres.
  clear Eres. unfold main_columns in Hcol. unfold run_columns.
  set (bulk := run_pages (seqZ 0 (pageCount_of (flag_setCount fl))) (flag_size fl)
                 store (env_rand env) 0 []) in *.
  cbn [collect] in Hcol. unfold bulk_columns in Hcol. fold bulk in Hcol.
  split.
  - intros Hdone.
    destruct (run_ok bulk); [|cbn in Hcol; congruence].
    destruct (disk_columns (env_stat env)) as [[dh dv]|]; [|cbn in Hcol; congruence].
    destruct (keys_column _ _ _ _) as [vkeys|]; [|cbn in Hcol; congruence].
    destruct (stride_column set_iter _ (env_set env)) as [vset|]; [|cbn in Hcol; congruence].
    destruct (stride_column get_iter _ _) as [vget|]; [|cbn in Hcol; congruence].
    destruct (getset_columns _ _ _) as [gs|] eqn:Egs; [|cbn in Hcol; congruence].
    destruct (getset_columns_shape _ _ _ _ Egs) as (vsm & vgm & ->).
    destruct (stride_column set_iter _ (env_del env)) as [vdel|]; [|cbn in Hcol; congruence].
    exists dh, dv, vkeys, vset, vget, vsm, vgm, vdel. repeat split; reflexivity.
  - intros dh dv vkeys vset vget vsm vgm vdel (Hb & Hd & Hk & Hs & Hg & Hgs & Hdel).
    rewrite Hb, Hd, Hk, Hs, Hg, Hgs, Hdel in Hcol. cbn in Hcol.
    destruct Hcol as [Hok Hlast]. split; [exact Hok|].
    rewrite last_cons_cons, Hlast. reflexivity.
Qed.

End FinalFacts.

(** C9. When [os.Stat] reports that the path does not exist, showDiskUsage
    returns the record as it got it. Compared with the same run on a path
    that exists, the run then ends with one header and one value fewer:
    there is no ["DiskUsage(MiB)"] column, and every column from position
    4 on (of the headers and of the ledger row) is one position to the
    left. *)
Theorem C9_missing_path_skips_disk_column {St : Type} `{Store St}
    (fl : Flags) (name path : string) (store : St) (env : Env)
    (file : option (list (list string))) (st : StatResult) (fileSize : Z) :
  st = StatFile fileSize \/ st = StatDir fileSize ->
  let mem_run := main fl name path store (with_stat StatNotExist env) file in
  let disk_run := main fl name path store (with_stat st env) file in
  completed disk_run = true ->
  (forall record, showDiskUsage StatNotExist record name path = Some record)
  /\ completed mem_run = true
  /\ exists rm rd,
       last (trace mem_run) = Some rm /\ last (trace disk_run) = Some rd
       /\ ("DiskUsage(MiB)" ∉ Headers rm)
       /\ Headers rd = take 4 (Headers rm) ++ ["DiskUsage(MiB)"] ++ drop 4 (Headers rm)
       /\ Values rd = take 3 (Values rm)
                        ++ [wrap64 (Z.quot (Z.quot fileSize 1024) 1024)]
                        ++ drop 3 (Values rm)
       /\ length (Headers rd) = (length (Headers rm) + 1)%nat
       /\ length (Values rd) = (length (Values rm) + 1)%nat
       /\ (forall k, (4 <= k)%nat -> Headers rm !! k = Headers rd !! (k + 1)%nat)
       /\ (forall k, (4 <= k)%nat -> ledger_row rm !! k = ledger_row rd !! (k + 1)%nat).
Proof.
  intros Hst mem_run disk_run Hdone.
  split; [reflexivity|].
  destruct (main_cases fl name path store (with_stat st env) file) as [Hd1 Hd2].
  destruct (main_cases fl name path store (with_stat StatNotExist env) file) as [_ Hm2].
  fold disk_run in Hd1, Hd2. fold mem_run in Hm2.
  destruct (Hd1 Hdone) as (dh & dv & vkeys & vset & vget & vsm & vgm & vdel & Hcols).
  assert (Hdisk : dh = ["DiskUsage(MiB)"]
                  /\ dv = [wrap64 (Z.quot (Z.quot fileSize 1024) 1024)]).
  { destruct Hcols as (_ & Hd & _). cbn in Hd.
    destruct Hst as [-> | ->]; cbn in Hd; injection Hd as <- <-; by split. }
  destruct Hdisk as [-> ->].
  destruct (Hd2 _ _ _ _ _ _ _ _ Hcols) as [_ Hlastd].
  assert (Hmem : run_columns fl store (with_stat StatNotExist env) [] []
                   vkeys vset vget vsm vgm vdel).
  { destruct Hcols as (Hb & _ & Hk & Hs & Hg & Hgs & Hdel).
    repeat split; assumption. }
  destruct (Hm2 _ _ _ _ _ _ _ _ Hmem) as [Hokm Hlastm].
  split; [exact Hokm|].
  eexists _, _. split; [exact Hlastm|]. split; [exact Hlastd|].
  unfold final_record, ledger_row. cbn.
  split.
  { intros Hin. repeat (apply elem_of_cons in Hin as [Hin|Hin]; [discriminate|]).
    by apply elem_of_nil in Hin. }
  repeat split.
  - intros k Hk. rewrite Nat.add_1_r. do 4 (destruct k as [|k]; [lia|]). reflexivity.
  - intros k Hk. rewrite Nat.add_1_r. do 4 (destruct k as [|k]; [lia|]). reflexivity.
Qed.

Lemma example_run_completes : completed example_run = true.
Proof. vm_compute. reflexivity. Defined.

Lemma C9_missing_path_witness :
  (StatDir 1111490560 = StatFile 1111490560 \/ StatDir 1111490560 = StatDir 1111490560)
  /\ completed (main example_flags "leveldb/nofsync" "leveldb.db" leveldb_empty
                  (with_stat (StatDir 1111490560) (example_env (StatDir 1111490560))) None)
     = true
  /\ completed (main example_flags "leveldb/nofsync" "leveldb.db" leveldb_empty
                  (with_stat StatNotExist (example_env (StatDir 1111490560))) None)
     = true.
Proof.
  split; [by right|]. split; [exact example_run_completes|].
  exact (proj1 (proj2 (C9_missing_path_skips_disk_column example_flags
           "leveldb/nofsync" "leveldb.db" leveldb_empty
           (example_env (StatDir 1111490560)) None (StatDir 1111490560) 1111490560
           (or_intror eq_refl) example_run_completes))).
Defined.

(** ** A scan that is not supported *)

Section Sentinel.

Context {St : Type} `{Store St}.

Lemma stride_column_exact {A} (iter : Z -> Z -> Worker -> A -> Worker) c ph :
  (forall index w a, w_count (iter c index w a) = add64 (w_count w) 1) ->
  measurable c ph ->
  stride_column iter c ph
  = Some (sumZ (attempts c ph) * 1000000 / (elapsed ph / 1000)).
Proof.
  intros Hstep (Hc & Hn & Hn6 & Hnc & Hd).
  assert (Hint : sumZ (attempts c ph) <= int_max) by lia.
  unfold stride_column.
  destruct (Z.ltb_spec c 0) as [?|_]; [lia|].
  rewrite (counts_are_attempts iter c ph Hstep Hint).
  unfold sum_counts. rewrite sum_counts_exact; [|apply attempts_nonneg|lia|lia].
  rewrite Z.add_0_l, report_exact by assumption. reflexivity.
Qed.

Lemma getset_columns_defined c ph setCount :
  measurable c ph -> is_uint64 setCount ->
  exists x y,
    getset_columns c ph setCount = Some (["Setmixed op/s"; "Getmixed op/s"], [x; y]).
Proof.
  intros (Hc & Hn & Hn6 & Hnc & Hd) Hsc.
  assert (Hint : sumZ (attempts c ph) <= int_max) by lia.
  unfold getset_columns.
  destruct (Z.ltb_spec c 0) as [?|_]; [lia|]. cbv zeta.
  rewrite (counts_are_attempts set_iter c ph) by (try exact Hint; reflexivity).
  unfold sum_counts. rewrite sum_counts_exact; [|apply attempts_nonneg|lia|lia].
  rewrite Z.add_0_l, report_exact by assumption.
  assert (Hus : 1 <= elapsed ph / 1000) by (apply Z.div_le_lower_bound; lia).
  destruct (Z.eqb_spec setCount 0) as [->|Hne]; [by eexists _, _|].
  rewrite (quot64_exact (elapsed ph) 1000) by lia. cbn.
  assert (Hw : wrap64 setCount <> 0).
  { unfold wrap64, is_uint64, uint64_max in *.
    destruct (Z_lt_le_dec setCount (2 ^ 63)).
    - rewrite Z.mod_small by lia. lia.
    - replace (setCount + 2 ^ 63) with (setCount - 2 ^ 63 + 1 * 2 ^ 64) by lia.
      rewrite Z.mod_add by lia. rewrite Z.mod_small by lia. lia. }
  unfold quot64.
  destruct (Z.eqb_spec (elapsed ph / 1000) 0) as [?|_]; [lia|].
  destruct (Z.eqb_spec (wrap64 setCount) 0) as [?|_]; [contradiction|].
  cbn. by eexists _, _.
Qed.

End Sentinel.

Lemma extend_all_length cols : forall r,
  (extend_all cols r).2 = true -> length (extend_all cols r).1 = length cols.
Proof.
  induction cols as [|[[hs vs]|] cols IH]; intros r Hok; [reflexivity| |discriminate].
  cbn [extend_all] in *. specialize (IH (extend hs vs r)).
  destruct (extend_all cols (extend hs vs r)) as [tr ok]. cbn in *. by rewrite IH.
Qed.

(** C5. When the preliminary scan of testKeys returns an error that is
    NotSupported, testKeys starts no worker and returns the record with
    exactly one more column, ["Keys op/s"] with value [-1] (it prints [-1]
    for the rate and the mean). The statements of [main] that follow are
    run all the same: when the bulk load, the disk sampler and the later
    phases return (their figures are [measurable]), the run completes with
    all ten statements' records and a final record that has every other
    column. *)
Theorem C5_unsupported_scan_records_sentinel {St : Type} `{Store St}
    (fl : Flags) (name path : string) (store : St) (env : Env)
    (file : option (list (list string))) :
  let bulk := (testBatchWriteFixCount (flag_size fl) (env_bulk_secs env)
                 (mkRecord name ["name"] []) name store (env_rand env)
                 (flag_setCount fl)).1 in
  let run := main fl name path store env file in
  probe_unsupported (run_store bulk) (run_rand bulk) = Some true ->
  run_ok bulk = true ->
  (forall msg, env_stat env <> StatFailed msg) ->
  measurable (flag_c fl) (env_set env) ->
  measurable (flag_c fl) (env_get env) ->
  measurable (flag_c fl) (env_getset env) ->
  measurable (flag_c fl) (env_del env) ->
  is_uint64 (env_setCount env) ->
  (forall ph record,
     (testKeys (flag_c fl) ph record name (run_store bulk) (run_rand bulk)).1
     = Some (mkOut [] (mkReport (-1) (-1))
               (append_value (-1) (append_header "Keys op/s" record))))
  /\ completed run = true
  /\ length (trace run) = 10%nat
  /\ exists dh dv vset vget vsm vgm vdel,
       disk_columns (env_stat env) = Some (dh, dv)
       /\ last (trace run)
          = Some (final_record name env dh dv (-1) vset vget vsm vgm vdel).
Proof.
  intros bulk run Hprobe Hbulk Hstat Hset Hget Hgetset Hdel Hsc.
  split.
  { intros ph record. rewrite testKeys_unfold, Hprobe. reflexivity. }
  assert (Hd : exists dh dv, disk_columns (env_stat env) = Some (dh, dv)).
  { destruct (env_stat env) as [|msg|sz|sz]; cbn; try by eexists _, _.
    by destruct (Hstat msg). }
  destruct Hd as (dh & dv & Hd).
  destruct (getset_columns_defined _ _ _ Hgetset Hsc) as (vsm & vgm & Hgs).
  destruct (main_cases fl name path store env file) as [_ Hm]. fold run in Hm.
  destruct (Hm dh dv (-1)
              (sumZ (attempts (flag_c fl) (env_set env)) * 1000000
                 / (elapsed (env_set env) / 1000))
              (sumZ (attempts (flag_c fl) (env_get env)) * 1000000
                 / (elapsed (env_get env) / 1000))
              vsm vgm
              (sumZ (attempts (flag_c fl) (env_del env)) * 1000000
                 / (elapsed (env_del env) / 1000)))
    as [Hok Hlast].
  { unfold run_columns. split; [exact Hbulk|]. split; [exact Hd|]. split.
    - unfold keys_column. fold bulk.
      change (run_pages (seqZ 0 (pageCount_of (flag_setCount fl))) (flag_size fl) store
                (env_rand env) 0 []) with bulk.
      by rewrite Hprobe.
    - split; [by apply stride_column_exact|].
      split; [by apply stride_column_exact|].
      split; [exact Hgs|]. by apply stride_column_exact. }
  split; [exact Hok|]. split.
  - subst run. rewrite main_by_columns in Hok |- *. cbn [trace completed] in *.
    cbn [length]. rewrite extend_all_length by exact Hok. reflexivity.
  - by eexists dh, dv, _, _, vsm, vgm, _.
Qed.

Lemma scanless_probe :
  let bulk := (testBatchWriteFixCount (flag_size example_flags) (env_bulk_secs scanless_env)
                 (mkRecord "pogreb/nofsync" ["name"] []) "pogreb/nofsync" scanless_empty
                 (env_rand scanless_env) (flag_setCount example_flags)).1 in
  probe_unsupported (run_store bulk) (run_rand bulk) = Some true.
Proof. reflexivity. Defined.

Lemma scanless_bulk_ok :
  run_ok (testBatchWriteFixCount (flag_size example_flags) (env_bulk_secs scanless_env)
            (mkRecord "pogreb/nofsync" ["name"] []) "pogreb/nofsync" scanless_empty
            (env_rand scanless_env) (flag_setCount example_flags)).1 = true.
Proof. vm_compute. reflexivity. Defined.

Lemma uint64_7 : is_uint64 7.
Proof. unfold is_uint64, uint64_max. lia. Defined.

Lemma C5_unsupported_scan_witness :
  completed (main example_flags "pogreb/nofsync" ":memory:" scanless_empty scanless_env None)
    = true
  /\ length (trace (main example_flags "pogreb/nofsync" ":memory:" scanless_empty
                      scanless_env None)) = 10%nat.
Proof.
  pose proof (C5_unsupported_scan_records_sentinel example_flags "pogreb/nofsync"
                ":memory:" scanless_empty scanless_env None
                scanless_probe scanless_bulk_ok
                (fun msg (E : StatNotExist = StatFailed msg) =>
                   eq_ind StatNotExist
                     (fun st => match st with StatNotExist => True | _ => False end)
                     I _ E)
                measurable_stride_views measurable_get_views
                measurable_stride_views measurable_stride_views uint64_7)
    as (_ & Hok & Hlen & _).
  split; [exact Hok|exact Hlen].
Defined.

(** * Further properties *)

(** ** The engine table *)

Section Table.
Import Engine.

Lemma bytes_compare_refl a : bytes_compare a a = Eq.
Proof. induction a as [|x a IH]; [reflexivity|]. cbn. by rewrite Z.compare_refl. Qed.

Lemma bytes_compare_eq a b : bytes_compare a b = Eq -> a = b.
Proof.
  revert b. induction a as [|x a IH]; intros [|y b]; cbn; try discriminate; [reflexivity|].
  destruct (Z.compare_spec x y) as [->| |]; try discriminate.
  intros E. by rewrite (IH b E).
Qed.

Lemma tbl_get_put_eq k v t : tbl_get k (tbl_put k v t) = Some v.
Proof.
  induction t as [|[k0 v0] t IH]; cbn.
  - by rewrite decide_True.
  - destruct (bytes_compare k k0) eqn:E; cbn.
    + by rewrite decide_True.
    + by rewrite decide_True.
    + rewrite decide_False; [exact IH|].
      intros ->. by rewrite bytes_compare_refl in E.
Qed.

Lemma tbl_get_put_ne k k' v t : k <> k' -> tbl_get k' (tbl_put k v t) = tbl_get k' t.
Proof.
  intros Hne. induction t as [|[k0 v0] t IH]; cbn.
  - by rewrite decide_False.
  - destruct (bytes_compare k k0) eqn:E; cbn.
    + apply bytes_compare_eq in E as <-. by rewrite !decide_False.
    + by rewrite (decide_False (P := k' = k)).
    + destruct (decide (k' = k0)); [reflexivity|exact IH].
Qed.

Lemma tbl_get_del_eq k t : tbl_get k (tbl_del k t) = None.
Proof.
  unfold tbl_del. induction t as [|[k0 v0] t IH]; [reflexivity|].
  rewrite filter_cons. cbn. destruct (decide (k0 <> k)) as [Hne|_]; [|exact IH].
  cbn. by rewrite decide_False.
Qed.

Lemma tbl_get_del_ne k k' t : k <> k' -> tbl_get k' (tbl_del k t) = tbl_get k' t.
Proof.
  intros Hne. unfold tbl_del. induction t as [|[k0 v0] t IH]; [reflexivity|].
  rewrite filter_cons. cbn. destruct (decide (k0 <> k)) as [Hk|Hk]; cbn.
  - by rewrite IH.
  - rewrite IH. apply dec_stable in Hk. subst k0. by rewrite decide_False.
Qed.

Lemma tbl_del_absent k t : tbl_get k t = None -> tbl_del k t = t.
Proof.
  unfold tbl_del. induction t as [|[k0 v0] t IH]; [reflexivity|]. intros Hk.
  cbn in Hk. destruct (decide (k = k0)) as [->|Hne]; [discriminate|].
  rewrite filter_cons. cbn [fst]. rewrite decide_True by congruence. by rewrite IH.
Qed.

End Table.

(** ** The adapters: Set, Get, Del *)

Section AdapterOps.
Import Engine.

Lemma put_works d k v :
  closed d = false ->
  put d k v = (mkDB (tbl_put k v (table d)) false (buffers d), None).
Proof. intros Hd. unfold put, failure. by rewrite Hd. Qed.

Lemma delete_works d k :
  closed d = false ->
  delete d k = (mkDB (tbl_del k (table d)) false (buffers d), None).
Proof. intros Hd. unfold delete, failure. by rewrite Hd. Qed.

Lemma write_works d batch :
  closed d = false ->
  write d batch
  = (mkDB (foldl (fun t kv => tbl_put kv.1 kv.2 t) (table d) batch) false (buffers d),
     None).
Proof. intros Hd. unfold write, failure. by rewrite Hd. Qed.

Lemma leveldb_Get_table d p f k :
  closed d = false ->
  Leveldb.Get (Leveldb.mkStore d p f) k
  = (tbl_get k (table d), bool_decide (is_Some (tbl_get k (table d))), None).
Proof.
  intros Hd. destruct (tbl_get k (table d)) as [v|] eqn:E.
  - rewrite (leveldb_Get_present _ k v) by done. reflexivity.
  - rewrite leveldb_Get_absent by done. reflexivity.
Qed.

Lemma pebble_Get_table d k :
  closed d = false ->
  Pebble.Get (Pebble.mkStore d) k
  = Some (tbl_get k (table d), bool_decide (is_Some (tbl_get k (table d))),
          if bool_decide (is_Some (tbl_get k (table d)))
          then None else Some PebbleErrNotFound).
Proof.
  intros Hd. destruct (tbl_get k (table d)) as [v|] eqn:E.
  - rewrite (pebble_Get_present _ k v) by done. reflexivity.
  - rewrite pebble_Get_absent by done. reflexivity.
Qed.

End AdapterOps.

(** X1. On an open database, for both adapters: [Set(key, value)]
    returns a nil error; [Get(key)] then returns the value with
    [found = true] and a nil error; and [Get] of any other key returns what
    it returned before. *)
Theorem adapters_Set_then_Get (d : Engine.DB) (key value other : list Z) :
  Engine.closed d = false -> other <> key ->
  exists sl sp,
    Set_ (leveldb_on d) key value = Some (sl, None)
    /\ Get sl key = Some (Some value, true, None)
    /\ Get sl other = Get (leveldb_on d) other
    /\ Set_ (pebble_on d) key value = Some (sp, None)
    /\ Get sp key = Some (Some value, true, None)
    /\ Get sp other = Get (pebble_on d) other.
Proof.
  intros Hd Hne. cbn [Set_ Get leveldb_Store pebble_Store].
  unfold leveldb_on, pebble_on, Leveldb.Set_, Pebble.Set_, Pebble.opened.
  cbn [Leveldb.db Pebble.db]. rewrite Hd, put_works by exact Hd.
  unfold Leveldb.with_db. cbn [Leveldb.path Leveldb.fsync].
  eexists _, _. split; [reflexivity|].
  rewrite !leveldb_Get_table by done. cbn [Engine.table].
  split; [by rewrite tbl_get_put_eq|]. split; [by rewrite tbl_get_put_ne|].
  split; [reflexivity|].
  rewrite !pebble_Get_table by done. cbn [Engine.table].
  split; [by rewrite tbl_get_put_eq|]. by rewrite tbl_get_put_ne.
Qed.

Lemma adapters_Set_then_Get_witness :
  Engine.closed empty_db = false /\ [3] <> [1]
  /\ exists sl sp,
       Set_ (leveldb_on empty_db) [1] [2] = Some (sl, None)
       /\ Get sl [1] = Some (Some [2], true, None)
       /\ Get sl [3] = Get (leveldb_on empty_db) [3]
       /\ Set_ (pebble_on empty_db) [1] [2] = Some (sp, None)
       /\ Get sp [1] = Some (Some [2], true, None)
       /\ Get sp [3] = Get (pebble_on empty_db) [3].
Proof.
  assert (Hne : [3] <> [1]) by discriminate.
  split; [reflexivity|]. split; [exact Hne|].
  exact (adapters_Set_then_Get empty_db [1] [2] [3] eq_refl Hne).
Defined.

(** X2. [Del] on an open database. The leveldb adapter reports whether
    the key was stored: for a stored key it returns (true, nil) and the key
    is then absent; for a key that is not stored it returns (false, nil) and
    leaves the store as it is. The pebble adapter returns (true, nil) in
    both cases. With both, the other keys keep their values. *)
Theorem adapters_Del (d : Engine.DB) (key other : list Z) :
  Engine.closed d = false -> other <> key ->
  exists sl sp,
    Del (leveldb_on d) key
    = Some (sl, bool_decide (is_Some (Engine.tbl_get key (Engine.table d))), None)
    /\ Get sl key = Some (None, false, None)
    /\ Get sl other = Get (leveldb_on d) other
    /\ (Engine.tbl_get key (Engine.table d) = None -> sl = leveldb_on d)
    /\ Del (pebble_on d) key = Some (sp, true, None)
    /\ Get sp key = Some (None, false, Some PebbleErrNotFound)
    /\ Get sp other = Get (pebble_on d) other.
Proof.
  intros Hd Hne. cbn [Del Get leveldb_Store pebble_Store].
  unfold leveldb_on, pebble_on, Leveldb.Del, Pebble.Del, Pebble.opened,
    Leveldb.db_Has, Engine.failure.
  cbn [Leveldb.db Pebble.db]. rewrite Hd. rewrite delete_works by exact Hd.
  assert (Hp : forall k,
    Pebble.Get (Pebble.mkStore (Engine.mkDB (Engine.tbl_del key (Engine.table d)) false
                                  (Engine.buffers d))) k
    = Some (Engine.tbl_get k (Engine.tbl_del key (Engine.table d)),
            bool_decide (is_Some (Engine.tbl_get k (Engine.tbl_del key (Engine.table d)))),
            if bool_decide (is_Some (Engine.tbl_get k (Engine.tbl_del key (Engine.table d))))
            then None else Some PebbleErrNotFound)).
  { intros k. by rewrite pebble_Get_table. }
  destruct (Engine.tbl_get key (Engine.table d)) as [v|] eqn:E.
  - rewrite bool_decide_eq_true_2 by by eexists.
    rewrite (bool_decide_eq_false_2 (None <> None)) by (intros HH; by apply HH).
    cbn [negb orb]. unfold Leveldb.with_db. cbn [Leveldb.path Leveldb.fsync].
    eexists _, _. split; [reflexivity|].
    rewrite !leveldb_Get_table by done. cbn [Engine.table].
    split; [by rewrite tbl_get_del_eq|]. split; [by rewrite tbl_get_del_ne|].
    split; [discriminate|]. split; [reflexivity|].
    rewrite !Hp, pebble_Get_table by done.
    split; [by rewrite tbl_get_del_eq|]. by rewrite tbl_get_del_ne.
  - rewrite bool_decide_eq_false_2 by (intros [? ?]; discriminate).
    cbn [negb orb]. eexists _, _. split; [reflexivity|].
    rewrite !leveldb_Get_table by done. rewrite E.
    split; [reflexivity|]. split; [reflexivity|]. split; [reflexivity|].
    split; [reflexivity|].
    rewrite !Hp, pebble_Get_table by done.
    split; [by rewrite tbl_get_del_eq|]. by rewrite tbl_get_del_ne.
Qed.

Lemma adapters_Del_witness :
  Engine.closed two_keys_db = false
  /\ bytes_of_string "zz" <> bytes_of_string "ab"
  /\ exists sl sp,
       Del (leveldb_on two_keys_db) (bytes_of_string "ab")
       = Some (sl, bool_decide (is_Some (Engine.tbl_get (bytes_of_string "ab")
                                           (Engine.table two_keys_db))), None)
       /\ Get sl (bytes_of_string "ab") = Some (None, false, None)
       /\ Get sl (bytes_of_string "zz") = Get (leveldb_on two_keys_db) (bytes_of_string "zz")
       /\ (Engine.tbl_get (bytes_of_string "ab") (Engine.table two_keys_db) = None ->
           sl = leveldb_on two_keys_db)
       /\ Del (pebble_on two_keys_db) (bytes_of_string "ab") = Some (sp, true, None)
       /\ Get sp (bytes_of_string "ab") = Some (None, false, Some PebbleErrNotFound)
       /\ Get sp (bytes_of_string "zz") = Get (pebble_on two_keys_db) (bytes_of_string "zz").
Proof.
  assert (Hne : bytes_of_string "zz" <> bytes_of_string "ab") by discriminate.
  split; [reflexivity|]. split; [exact Hne|].
  exact (adapters_Del two_keys_db (bytes_of_string "ab") (bytes_of_string "zz")
           eq_refl Hne).
Defined.

(** ** The adapters: PSet and PGet *)

Section AdapterBatches.
Import Engine.

Lemma leveldb_build_batch keys values :
  (length keys <= length values)%nat ->
  Leveldb.build_batch keys values = Some (zip keys values).
Proof.
  revert values. induction keys as [|k keys IH]; intros [|v values] Hlen; cbn in *;
    try reflexivity; [lia|]. by rewrite IH by lia.
Qed.

Lemma pebble_build_batch keys vals :
  (length keys <= length vals)%nat ->
  Pebble.build_batch keys vals = Some (zip keys vals).
Proof.
  revert vals. induction keys as [|k keys IH]; intros [|v vals] Hlen; cbn in *;
    try reflexivity; [lia|]. by rewrite IH by lia.
Qed.

Lemma leveldb_build_batch_None keys values :
  Leveldb.build_batch keys values = None <-> (length values < length keys)%nat.
Proof.
  revert values. induction keys as [|k keys IH]; intros [|v values]; cbn.
  - split; [discriminate|lia].
  - split; [discriminate|lia].
  - split; [lia|reflexivity].
  - rewrite <- Nat.succ_lt_mono, <- IH.
    destruct (Leveldb.build_batch keys values); cbn; split; congruence.
Qed.

Lemma pebble_build_batch_None keys vals :
  Pebble.build_batch keys vals = None <-> (length vals < length keys)%nat.
Proof.
  revert vals. induction keys as [|k keys IH]; intros [|v vals]; cbn.
  - split; [discriminate|lia].
  - split; [discriminate|lia].
  - split; [lia|reflexivity].
  - rewrite <- Nat.succ_lt_mono, <- IH.
    destruct (Pebble.build_batch keys vals); cbn; split; congruence.
Qed.

Lemma leveldb_build_batch_take keys : forall values,
  Leveldb.build_batch keys (take (length keys) values) = Leveldb.build_batch keys values.
Proof.
  induction keys as [|k ks IH]; intros [|v vs]; cbn; try reflexivity. by rewrite IH.
Qed.

Lemma pebble_build_batch_take keys : forall vals,
  Pebble.build_batch keys (take (length keys) vals) = Pebble.build_batch keys vals.
Proof.
  induction keys as [|k ks IH]; intros [|v vs]; cbn; try reflexivity. by rewrite IH.
Qed.

Lemma leveldb_sets l : forall d p f,
  closed d = false ->
  set_each (Leveldb.mkStore d p f) l.*1 l.*2
  = Some (Leveldb.mkStore
            (mkDB (foldl (fun t kv => tbl_put kv.1 kv.2 t) (table d) l) false (buffers d))
            p f).
Proof.
  unfold set_each. intros d p f Hd. rewrite zip_fst_snd. revert d Hd.
  induction l as [|[k v] l IH]; intros d Hd.
  - destruct d as [t b bf]. cbn in *. by subst b.
  - cbn [foldl mbind option_bind Set_ leveldb_Store fmap option_fmap option_map fst snd].
    unfold Leveldb.Set_. cbn [Leveldb.db]. rewrite put_works by exact Hd.
    unfold Leveldb.with_db. cbn [fst Leveldb.path Leveldb.fsync].
    by rewrite IH.
Qed.

Lemma pebble_sets l : forall d,
  closed d = false ->
  set_each (Pebble.mkStore d) l.*1 l.*2
  = Some (Pebble.mkStore
            (mkDB (foldl (fun t kv => tbl_put kv.1 kv.2 t) (table d) l) false (buffers d))).
Proof.
  unfold set_each. intros d Hd. rewrite zip_fst_snd. revert d Hd.
  induction l as [|[k v] l IH]; intros d Hd.
  - destruct d as [t b bf]. cbn in *. by subst b.
  - cbn [foldl mbind option_bind Set_ pebble_Store fst snd].
    unfold Pebble.Set_, Pebble.opened. cbn [Pebble.db]. rewrite Hd, put_works by exact Hd.
    cbn [fmap option_fmap option_map fst]. by rewrite IH.
Qed.

Lemma set_each_zip {S : Type} `{Store S} (store : S) keys values :
  set_each store keys values
  = set_each store (zip keys values).*1 (zip keys values).*2.
Proof. unfold set_each. by rewrite zip_fst_snd. Qed.

(** In a batch, the last entry of a key decides its value. *)
Lemma tbl_get_batch batch : forall t (i : nat) k v,
  batch !! i = Some (k, v) ->
  k ∉ (drop (Datatypes.S i) batch).*1 ->
  tbl_get k (foldl (fun t kv => tbl_put kv.1 kv.2 t) t batch) = Some v.
Proof.
  intros t i k v Hi Hlater.
  assert (Hkeep : forall l t1, k ∉ l.*1 -> tbl_get k t1 = Some v ->
            tbl_get k (foldl (fun t kv => tbl_put kv.1 kv.2 t) t1 l) = Some v).
  { induction l as [|[k1 v1] l IH]; intros t1 Hl H1; [exact H1|].
    cbn [foldl fst snd]. apply IH.
    - intros Hin. apply Hl. cbn. by right.
    - rewrite tbl_get_put_ne; [exact H1|]. intros ->. apply Hl. cbn. by left. }
  rewrite <- (take_drop_middle batch i (k, v) Hi), foldl_app. cbn [foldl fst snd].
  apply Hkeep; [exact Hlater|apply tbl_get_put_eq].
Qed.

End AdapterBatches.

(** X3. On an open database, with at least as many values as keys,
    [PSet(keys, values)] of both adapters returns a nil error and leaves the
    store that [Set] of each pair, in order, leaves; so a key that occurs
    several times keeps the value of its last occurrence, which [Get]
    then returns. *)
Theorem adapters_PSet_is_Set_of_each (d : Engine.DB) (keys values : list (list Z)) :
  Engine.closed d = false -> (length keys <= length values)%nat ->
  exists sl sp,
    set_each (leveldb_on d) keys values = Some sl
    /\ set_each (pebble_on d) keys values = Some sp
    /\ PSet (leveldb_on d) keys values = Some (sl, None)
    /\ PSet (pebble_on d) keys values = Some (sp, None)
    /\ forall (i : nat) key value,
         keys !! i = Some key -> values !! i = Some value ->
         key ∉ drop (Datatypes.S i) keys ->
         Get sl key = Some (Some value, true, None)
         /\ Get sp key = Some (Some value, true, None).
Proof.
  intros Hd Hlen. unfold leveldb_on, pebble_on.
  rewrite (set_each_zip (Leveldb.mkStore _ _ _)), (set_each_zip (Pebble.mkStore _)).
  rewrite leveldb_sets, pebble_sets by exact Hd.
  cbn [PSet Get leveldb_Store pebble_Store].
  unfold Leveldb.PSet, Pebble.PSet, Pebble.opened.
  rewrite leveldb_build_batch, pebble_build_batch by exact Hlen.
  cbn [mbind option_bind Leveldb.db Pebble.db]. rewrite Hd, write_works by exact Hd.
  eexists _, _. split; [reflexivity|]. split; [reflexivity|].
  split; [reflexivity|]. split; [reflexivity|].
  intros i key value Hk Hv Hlast.
  assert (Hget : Engine.tbl_get key
            (foldl (fun t kv => Engine.tbl_put kv.1 kv.2 t) (Engine.table d) (zip keys values))
          = Some value).
  { apply (tbl_get_batch _ _ i).
    - apply lookup_zip_with_Some. by exists key, value.
    - rewrite fmap_drop, fst_zip by exact Hlen. exact Hlast. }
  rewrite leveldb_Get_table, pebble_Get_table by reflexivity.
  cbn [Engine.table]. rewrite Hget. split; reflexivity.
Qed.

Lemma adapters_PSet_witness :
  Engine.closed empty_db = false
  /\ (length [[1]; [2]; [1]] <= length [[10]; [20]; [30]])%nat
  /\ exists sl,
       PSet (leveldb_on empty_db) [[1]; [2]; [1]] [[10]; [20]; [30]] = Some (sl, None)
       /\ Get sl [1] = Some (Some [30], true, None).
Proof.
  assert (Hlen : (length [[1]; [2]; [1]] <= length [[10]; [20]; [30]])%nat)
    by (cbn; lia).
  split; [reflexivity|]. split; [exact Hlen|].
  destruct (adapters_PSet_is_Set_of_each empty_db [[1]; [2]; [1]] [[10]; [20]; [30]]
              eq_refl Hlen) as (sl & sp & _ & _ & Hl & _ & Hlast).
  exists sl. split; [exact Hl|].
  apply (Hlast 2%nat [1] [30]); [reflexivity|reflexivity|].
  cbn. apply not_elem_of_nil.
Defined.

(** X4. [PSet] of the leveldb adapter panics (index out of range) exactly
    when there are fewer values than keys, whether its database is open
    or closed. [PSet] of the pebble adapter panics exactly then or when
    its database is closed (at [Commit]). Values beyond the number of
    keys are ignored by both. *)
Theorem adapters_PSet_panics_iff_values_missing
    (ls : Leveldb.leveldbStore) (ps : Pebble.pebbleStore) (keys values : list (list Z)) :
  (PSet ls keys values = None <-> (length values < length keys)%nat)
  /\ (PSet ps keys values = None
      <-> (length values < length keys)%nat \/ Engine.closed (Pebble.db ps) = true)
  /\ PSet ls keys values = PSet ls keys (take (length keys) values)
  /\ PSet ps keys values = PSet ps keys (take (length keys) values).
Proof.
  cbn [PSet leveldb_Store pebble_Store]. unfold Leveldb.PSet, Pebble.PSet, Pebble.opened.
  rewrite leveldb_build_batch_take, pebble_build_batch_take.
  split; [|split; [|split; reflexivity]].
  - split.
    + intros E. apply leveldb_build_batch_None.
      destruct (Leveldb.build_batch keys values); [|reflexivity].
      cbn in E. destruct (Engine.write _ _). discriminate.
    + intros E. apply leveldb_build_batch_None in E. by rewrite E.
  - rewrite <- pebble_build_batch_None.
    destruct (Pebble.build_batch keys values) as [batch|]; cbn.
    + destruct (Engine.closed (Pebble.db ps)).
      * split; [intros _; by right|reflexivity].
      * split; [discriminate|intros [?|?]; discriminate].
    + split; [intros _; by left|reflexivity].
Qed.

Section AdapterPGet.
Import Engine.

Lemma leveldb_PGet_loop d p f keys : forall values oks,
  closed d = false ->
  Leveldb.PGet_loop (Leveldb.mkStore d p f) keys values oks
  = (values ++ ((fun k => tbl_get k (table d)) <$> keys),
     oks ++ ((fun k => bool_decide (is_Some (tbl_get k (table d)))) <$> keys),
     None).
Proof.
  intros values oks Hd. revert values oks.
  induction keys as [|k keys IH]; intros values oks; cbn [Leveldb.PGet_loop].
  - by rewrite !app_nil_r.
  - rewrite leveldb_Get_table by exact Hd. rewrite IH, <- !app_assoc. reflexivity.
Qed.

(** What one lookup of the pebble adapter's [PGet] finds on an open
    database. *)
Lemma pebble_db_Get_open d k :
  closed d = false ->
  Pebble.db_Get d k
  = Some (tbl_get k (table d),
          if bool_decide (is_Some (tbl_get k (table d)))
          then None else Some PebbleErrNotFound).
Proof.
  intros Hd. unfold Pebble.db_Get, Pebble.opened. rewrite Hd.
  by destruct (tbl_get k (table d)).
Qed.

Lemma pebble_PGet_loop d keys : forall vals oks err,
  closed d = false ->
  Pebble.PGet_loop (Pebble.mkStore d) keys vals oks err
  = Some (vals ++ ((fun k => tbl_get k (table d)) <$> keys),
          oks ++ ((fun k => bool_decide (is_Some (tbl_get k (table d)))) <$> keys),
          from_option (fun k => if bool_decide (is_Some (tbl_get k (table d)))
                                then None else Some PebbleErrNotFound)
                      err (last keys)).
Proof.
  intros vals oks err Hd. revert vals oks err.
  induction keys as [|k keys IH]; intros vals oks err; cbn [Pebble.PGet_loop].
  - by rewrite !app_nil_r.
  - cbn [Pebble.db]. rewrite pebble_db_Get_open by exact Hd.
    cbn [mbind option_bind]. rewrite IH, <- !app_assoc. cbn [fmap list_fmap app].
    f_equal. f_equal; [f_equal|].
    + f_equal. f_equal. by destruct (bool_decide (is_Some (tbl_get k (table d)))).
    + destruct keys as [|k' keys]; [reflexivity|].
      rewrite last_cons_cons.
      destruct (last (k' :: keys)) eqn:L; [reflexivity|].
      apply last_None in L. discriminate.
Qed.

End AdapterPGet.

(** X5. [PGet] of the leveldb adapter on an open database: one value
    and one flag per key, in the order of the keys, the ones [Get] returns
    for that key, and a nil error; a key that is not stored gives
    (nil, false) at its position and does not end the batch. *)
Theorem leveldb_PGet_is_Get_of_each (d : Engine.DB) (keys : list (list Z)) :
  Engine.closed d = false ->
  Leveldb.PGet (leveldb_on d) keys
  = ((fun k => (Leveldb.Get (leveldb_on d) k).1.1) <$> keys,
     (fun k => (Leveldb.Get (leveldb_on d) k).1.2) <$> keys,
     None)
  /\ (forall k, Get (leveldb_on d) k = Some (Leveldb.Get (leveldb_on d) k))
  /\ forall (i : nat) k, keys !! i = Some k ->
       (Leveldb.PGet (leveldb_on d) keys).1.1 !! i
         = Some (Engine.tbl_get k (Engine.table d))
       /\ (Leveldb.PGet (leveldb_on d) keys).1.2 !! i
         = Some (bool_decide (is_Some (Engine.tbl_get k (Engine.table d)))).
Proof.
  intros Hd. unfold Leveldb.PGet, leveldb_on. rewrite leveldb_PGet_loop by exact Hd.
  cbn [app fst snd]. split; [|split; [reflexivity|]].
  - f_equal. f_equal; apply list_fmap_ext; intros i k _;
      by rewrite leveldb_Get_table.
  - intros i k Hk. rewrite !list_lookup_fmap, Hk. split; reflexivity.
Qed.

Lemma leveldb_PGet_witness :
  Engine.closed two_keys_db = false
  /\ Leveldb.PGet (leveldb_on two_keys_db)
       [bytes_of_string "zz"; bytes_of_string "ab"]
     = ([None; Some [2]], [false; true], None).
Proof.
  split; [reflexivity|].
  rewrite (proj1 (leveldb_PGet_is_Get_of_each two_keys_db
                    [bytes_of_string "zz"; bytes_of_string "ab"] eq_refl)).
  reflexivity.
Defined.

(** X6. [PGet] of the pebble adapter on an open database: one value
    and one flag per key, in order, the flag telling whether the key is
    stored; the error returned is the one of the last lookup only, nil when
    there is no key or the last key is stored, [pebble.ErrNotFound] when the
    last key is not stored, whatever the other keys. *)
Theorem pebble_PGet_returns_last_error (d : Engine.DB) (keys : list (list Z)) :
  Engine.closed d = false ->
  Pebble.PGet (pebble_on d) keys
  = Some ((fun k => Engine.tbl_get k (Engine.table d)) <$> keys,
          (fun k => bool_decide (is_Some (Engine.tbl_get k (Engine.table d)))) <$> keys,
          match last keys with
          | None => None
          | Some k =>
              if bool_decide (is_Some (Engine.tbl_get k (Engine.table d)))
              then None else Some PebbleErrNotFound
          end).
Proof.
  intros Hd. unfold Pebble.PGet, pebble_on. rewrite pebble_PGet_loop by exact Hd.
  cbn [app]. by destruct (last keys).
Qed.

Lemma pebble_PGet_witness :
  Engine.closed two_keys_db = false
  /\ Pebble.PGet (pebble_on two_keys_db) [bytes_of_string "ab"; bytes_of_string "zz"]
     = Some ([Some [2]; None], [true; false], Some PebbleErrNotFound)
  /\ Pebble.PGet (pebble_on two_keys_db) [bytes_of_string "zz"; bytes_of_string "ab"]
     = Some ([None; Some [2]], [false; true], None).
Proof.
  split; [reflexivity|]. split.
  - exact (pebble_PGet_returns_last_error two_keys_db
             [bytes_of_string "ab"; bytes_of_string "zz"] eq_refl).
  - exact (pebble_PGet_returns_last_error two_keys_db
             [bytes_of_string "zz"; bytes_of_string "ab"] eq_refl).
Defined.

(** ** The pebble adapter: the range of Keys *)

Section PebbleRange.
Import Engine.

Lemma extends_below_ff_cons x y p k :
  extends_below_ff (x :: p) (y :: k) = true <-> y = x /\ extends_below_ff p k = true.
Proof.
  unfold extends_below_ff, bytes_HasPrefix. cbn [length take drop].
  rewrite !andb_true_iff, !bool_decide_eq_true. split.
  - intros [E Hrest]. injection E as -> E. by repeat split.
  - intros (-> & E & Hrest). split; [by rewrite E|exact Hrest].
Qed.

Lemma below_upper k : bytes_compare k [255] = Lt <->
  match k with [] => True | b :: _ => b < 255 end.
Proof.
  destruct k as [|b k]; cbn; [done|].
  destruct (Z.compare_spec b 255) as [->| |]; split; try done; try lia.
  destruct k; discriminate.
Qed.

(** The bounds [p <= k < append(p, 0xFF)] in terms of prefixes. *)
Lemma range_extends p : forall k,
  (bytes_compare p k <> Gt /\ bytes_compare k (p ++ [255]) = Lt)
  <-> extends_below_ff p k = true.
Proof.
  induction p as [|x p IH]; intros k.
  - unfold extends_below_ff, bytes_HasPrefix. cbn [length take drop app].
    rewrite bool_decide_eq_true_2 by reflexivity. cbn [andb]. rewrite below_upper.
    destruct k as [|b k]; cbn.
    + split; [done|]. by split.
    + rewrite Z.ltb_lt. split; [by intros [_ ?]|]. by split.
  - destruct k as [|y k].
    + cbn. split; [by intros [? _]|discriminate].
    + rewrite extends_below_ff_cons, <- IH. cbn [bytes_compare app].
      rewrite (Z.compare_antisym x y).
      destruct (Z.compare_spec x y) as [->| |]; cbn.
      * split; [by intros ?|by intros [_ ?]].
      * split; [by intros [_ ?]|]. intros [-> _]. lia.
      * split; [by intros [? _]|]. intros [-> _]. lia.
Qed.

End PebbleRange.

Section IteratorBuffers.
Import Engine.

Lemma flush_lengths (cur : list Z) pending :
  Forall (fun m => (m <= length cur)%nat) pending ->
  length <$> ((fun n => take n cur) <$> pending) = pending.
Proof.
  induction 1 as [|m pending Hm _ IH]; [reflexivity|].
  cbn [fmap list_fmap]. rewrite length_take, IH. f_equal. lia.
Qed.

(** A slice keeps its length, whatever the buffer does afterwards. *)
Lemma refill_lengths grow xs : forall cur pending,
  Forall (fun m => (m <= length cur)%nat) pending ->
  length <$> refill grow cur pending xs = pending ++ (length <$> xs).
Proof.
  induction xs as [|x xs IH]; intros cur pending Hp; cbn [refill].
  - rewrite flush_lengths by exact Hp. by rewrite app_nil_r.
  - destruct (Nat.leb_spec (length x) (length cur)) as [Hfit|Hbig].
    + rewrite IH.
      * cbn [fmap list_fmap]. by rewrite <- app_assoc.
      * rewrite length_app, length_drop.
        apply Forall_app. split; [|constructor; [lia|constructor]].
        eapply Forall_impl; [exact Hp|]. cbn. intros m Hm. lia.
    + rewrite fmap_app, flush_lengths by exact Hp. rewrite IH; [reflexivity|].
      constructor; [|constructor]. rewrite length_app. lia.
Qed.

Lemma flush_same (cur : list Z) pending n :
  Forall (fun m => m = n) pending ->
  (fun m => take m cur) <$> pending = replicate (length pending) (take n cur).
Proof.
  induction 1 as [|m pending -> _ IH]; [reflexivity|]. cbn. by rewrite IH.
Qed.

(** Slices of one length on a buffer refilled in place all hold what was
    handed out last. *)
Lemma refill_same_length grow n xs : forall cur pending,
  Forall (fun x => length x = n) xs ->
  Forall (fun m => m = n) pending ->
  (pending <> [] -> (n <= length cur)%nat) ->
  refill grow cur pending xs
  = replicate (length pending + length xs) (default (take n cur) (last xs)).
Proof.
  induction xs as [|x xs IH]; intros cur pending Hxs Hp Hcur; cbn [refill].
  - rewrite Nat.add_0_r. by apply flush_same.
  - apply Forall_cons in Hxs as [Hx Hxs]. subst n.
    assert (Hlast : forall y : list Z,
              default y (last (x :: xs)) = default x (last xs)).
    { intros y. destruct xs as [|x' xs']; [reflexivity|]. rewrite last_cons_cons.
      destruct (last (x' :: xs')) eqn:L; [reflexivity|].
      apply last_None in L. discriminate. }
    rewrite Hlast.
    destruct (Nat.leb_spec (length x) (length cur)) as [Hfit|Hbig].
    + rewrite (IH (x ++ drop (length x) cur) (pending ++ [length x])).
      * rewrite length_app. cbn [length]. rewrite take_app_length.
        f_equal. lia.
      * exact Hxs.
      * apply Forall_app. split; [exact Hp|]. by constructor.
      * intros _. rewrite length_app. lia.
    + assert (pending = []) as ->.
      { destruct pending as [|m pending]; [reflexivity|].
        assert (length x <= length cur)%nat by (by apply Hcur). lia. }
      cbn [fmap list_fmap app length].
      rewrite (IH _ [length x]).
      * cbn [length]. by rewrite take_app_length.
      * exact Hxs.
      * by constructor.
      * intros _. rewrite length_app. lia.
Qed.

(** With such an iterator the slices read back are those [refill]
    leaves. *)
Lemma reread_in_place cap grow xs :
  reread (in_place cap grow) xs = refill grow (replicate cap 0) [] xs.
Proof.
  pose proof (refill_lengths grow xs (replicate cap 0) [] ltac:(constructor)) as Hlen.
  cbn [app] in Hlen. unfold reread. apply list_eq. intros i.
  rewrite list_lookup_imap.
  pose proof (f_equal (.!! i) Hlen) as Hi. cbn beta in Hi.
  rewrite !list_lookup_fmap in Hi.
  destruct (xs !! i) as [x|] eqn:Ex; cbn [fmap option_fmap option_map] in *.
  - destruct (refill grow (replicate cap 0) [] xs !! i) as [r|] eqn:Er; [|discriminate].
    cbn in Hi. injection Hi as Hi. f_equal. apply list_eq. intros j.
    rewrite list_lookup_fmap. unfold in_place. rewrite Er. cbn [mbind option_bind].
    destruct (decide (j < length x)%nat) as [Hj|Hj].
    + rewrite lookup_seq_lt by exact Hj. cbn.
      destruct (r !! j) as [b|] eqn:Eb; [reflexivity|].
      apply lookup_ge_None in Eb. lia.
    + rewrite lookup_seq_ge by lia. cbn. symmetry. apply lookup_ge_None. lia.
  - destruct (refill grow (replicate cap 0) [] xs !! i) as [r|] eqn:Er; [discriminate|].
    reflexivity.
Qed.

Lemma reread_repeats_last cap grow n xs :
  Forall (fun x => length x = n) xs ->
  reread (in_place cap grow) xs = replicate (length xs) (default [] (last xs)).
Proof.
  intros Hxs. rewrite reread_in_place.
  rewrite (refill_same_length grow n) by (try done; constructor).
  cbn [length Nat.add]. destruct xs as [|x xs]; [reflexivity|].
  destruct (last (x :: xs)) eqn:L; [reflexivity|].
  apply last_None in L. discriminate.
Qed.

Lemma pebble_scan (d : DB) :
  scan_range d (bytes_of_string "myprefix") (bytes_of_string "myprefix" ++ [255])
  = filter (fun kv => extends_below_ff (bytes_of_string "myprefix") kv.1 = true) (table d).
Proof.
  unfold scan_range. apply list_filter_iff. intros kv. apply range_extends.
Qed.

End IteratorBuffers.

(** X7. [Keys] of the pebble adapter panics on a closed database. On an
    open one it returns a nil error and one key slice for each stored key
    that is ["myprefix"] or ["myprefix"] followed by a byte below [0xFF]
    (a stored key with [0xFF] after the prefix is left out), in the order
    of the engine and as long as that key; the values likewise, or nil
    without [withvals]. The slices are the iterator's buffer, handed out
    without a copy: when the iterator refills it in place and the keys in
    range have one length, every key returned reads as the last key in
    range. *)
Theorem pebble_Keys_range (s : Pebble.pebbleStore) (pattern : list Z) (limit : Z)
    (withvals : bool) :
  let entries := filter (fun kv => extends_below_ff (bytes_of_string "myprefix") kv.1 = true)
                        (Engine.table (Pebble.db s)) in
  let held := Engine.buffers (Pebble.db s) in
  (Engine.closed (Pebble.db s) = true -> Pebble.Keys s pattern limit withvals = None)
  /\ (Engine.closed (Pebble.db s) = false ->
      exists keys vals,
        Pebble.Keys s pattern limit withvals = Some (keys, vals, None)
        /\ length <$> keys = length <$> entries.*1
        /\ length <$> vals = (if withvals then length <$> entries.*2 else [])
        /\ forall cap grow n,
             Engine.held_keys held = Engine.in_place cap grow ->
             Forall (fun k => length k = n) entries.*1 ->
             keys = replicate (length entries) (default [] (last entries.*1)))
  /\ (forall k, k ∈ entries.*1 ->
        k ∈ Engine.stored_keys (Pebble.db s)
        /\ bytes_HasPrefix k (bytes_of_string "myprefix") = true)
  /\ (forall k rest, k = bytes_of_string "myprefix" ++ 255 :: rest -> k ∉ entries.*1).
Proof.
  intros entries held. unfold Pebble.Keys, Pebble.opened. cbv zeta.
  rewrite pebble_scan. fold entries held.
  split; [by intros ->|]. split; [|split].
  - intros ->. eexists _, _. split; [reflexivity|].
    split; [apply reread_lengths|]. split.
    + destruct withvals; [apply reread_lengths|reflexivity].
    + intros cap grow n -> Hn. rewrite (reread_repeats_last cap grow n) by exact Hn.
      by rewrite length_fmap.
  - intros k Hk. apply list_elem_of_fmap in Hk as ([k' v] & -> & Hin).
    apply list_elem_of_filter in Hin as [Hext Hin]. cbn [fst] in *. split.
    + unfold Engine.stored_keys. apply list_elem_of_fmap. by exists (k', v).
    + unfold extends_below_ff in Hext. by apply andb_true_iff in Hext as [? _].
  - intros k rest -> Hk. apply list_elem_of_fmap in Hk as ([k' v] & E & Hin).
    apply list_elem_of_filter in Hin as [Hext _]. cbn [fst] in *. subst k'.
    unfold extends_below_ff in Hext. apply andb_true_iff in Hext as [_ Hext].
    rewrite drop_app_length in Hext. by apply Z.ltb_lt in Hext.
Qed.

Lemma pebble_Keys_range_witness :
  Engine.closed (Pebble.db (pebble_on myprefix_pair_db)) = false
  /\ exists keys vals,
       Keys (pebble_on myprefix_pair_db) (bytes_of_string "a") 0 true
       = Some (keys, vals, None)
       /\ keys = [bytes_of_string "myprefix2"; bytes_of_string "myprefix2"].
Proof.
  split; [reflexivity|].
  destruct (proj1 (proj2 (pebble_Keys_range (pebble_on myprefix_pair_db)
                            (bytes_of_string "a") 0 true)) eq_refl)
    as (keys & vals & Hk & _ & _ & Hrep).
  exists keys, vals. split; [exact Hk|].
  apply (Hrep 0%nat (fun _ need => need) 9%nat); [reflexivity|].
  repeat constructor.
Defined.

(** X24. [Keys] of the leveldb adapter returns a nil error and, on an
    open database, one key slice and (with [withvalues]) one value slice
    for each stored key that starts with ["foo-"], in key order and as
    long as that key and its value. The slices are the iterator's
    buffers, handed out without a copy: when the iterator refills them in
    place and the keys, and the values, in range have one length, every
    key and every value returned reads as the last entry in range. *)
Theorem leveldb_Keys_hands_out_buffers (s : Leveldb.leveldbStore) (pattern : list Z)
    (limit : Z) :
  Engine.closed (Leveldb.db s) = false ->
  let entries := filter (fun kv => bytes_HasPrefix kv.1 (bytes_of_string "foo-") = true)
                        (Engine.table (Leveldb.db s)) in
  let held := Engine.buffers (Leveldb.db s) in
  exists keys vals,
    Leveldb.Keys s pattern limit true = (keys, vals, None)
    /\ Leveldb.Keys s pattern limit false = (keys, [], None)
    /\ length <$> keys = length <$> entries.*1
    /\ length <$> vals = length <$> entries.*2
    /\ forall cap grow n m,
         Engine.held_keys held = Engine.in_place cap grow ->
         Engine.held_values held = Engine.in_place cap grow ->
         Forall (fun kv => length kv.1 = n /\ length kv.2 = m) entries ->
         keys = replicate (length entries) (default [] (last entries.*1))
         /\ vals = replicate (length entries) (default [] (last entries.*2)).
Proof.
  intros Hd entries held. unfold Leveldb.Keys, Engine.scan_prefix. rewrite Hd.
  fold entries held. cbv zeta. eexists _, _.
  split; [reflexivity|]. split; [reflexivity|].
  split; [apply reread_lengths|]. split; [apply reread_lengths|].
  intros cap grow n m -> -> Hnm.
  rewrite (reread_repeats_last cap grow n), (reread_repeats_last cap grow m).
  - by rewrite !length_fmap.
  - apply Forall_fmap. eapply Forall_impl; [exact Hnm|]. by intros kv [_ ?].
  - apply Forall_fmap. eapply Forall_impl; [exact Hnm|]. by intros kv [? _].
Qed.

Lemma leveldb_Keys_buffers_witness :
  Engine.closed (Leveldb.db (leveldb_on foo_pair_db)) = false
  /\ exists keys vals,
       Keys (leveldb_on foo_pair_db) (bytes_of_string "a") 0 true
       = Some (keys, vals, None)
       /\ keys = [bytes_of_string "foo-2"; bytes_of_string "foo-2"]
       /\ vals = [[2]; [2]].
Proof.
  split; [reflexivity|].
  destruct (leveldb_Keys_hands_out_buffers (leveldb_on foo_pair_db) (bytes_of_string "a") 0
              eq_refl) as (keys & vals & Hk & _ & _ & _ & Hrep).
  exists keys, vals. split; [cbn [Keys leveldb_Store]; by rewrite Hk|].
  apply (Hrep 0%nat (fun _ need => need) 5%nat 1%nat); [reflexivity|reflexivity|].
  repeat constructor.
Defined.

(** ** Generated keys *)

Section Generated.

Lemma PutUint64_bytes v : is_bytes (PutUint64 v).
Proof. unfold is_bytes, PutUint64. repeat constructor; apply to_byte_range. Qed.

Lemma rand_Read_bytes k : forall g, is_bytes (rand_Read k g).1.
Proof.
  induction k as [|k IH]; intros g; cbn; [constructor|].
  specialize (IH (rand_next g)). destruct (rand_Read k (rand_next g)) as [bs g'].
  constructor; [apply to_byte_range|exact IH].
Qed.

Lemma rand_Read_cursor k : forall g,
  cursor (rand_Read k g).2 = (cursor g + k)%nat /\ draws (rand_Read k g).2 = draws g.
Proof.
  induction k as [|k IH]; intros g; cbn; [split; [lia|reflexivity]|].
  specialize (IH (rand_next g)). destruct (rand_Read k (rand_next g)) as [bs g'].
  cbn in *. destruct IH as [-> ->]. split; [lia|reflexivity].
Qed.

End Generated.

(** X8. [genKey(i)] for a [uint64] index returns 9 bytes, the first one in
    [32, 126], from which the index is read back (bytes 1..8, big endian),
    and takes one draw of the generator. [genKeyPrefix(i)] returns 3 bytes,
    the first one in [32, 126], that do not depend on [i], and takes four
    draws. *)
Theorem genKey_shape_and_index (i j : Z) (g : Rand) :
  is_uint64 i ->
  key_ok (genKey i g).1
  /\ is_bytes (genKey i g).1
  /\ key_index (genKey i g).1 = i
  /\ Uint64 (PutUint64 i) = i
  /\ (genKey i g).2 = rand_next g
  /\ length (genKeyPrefix i g).1 = 3%nat
  /\ is_bytes (genKeyPrefix i g).1
  /\ (exists b, (genKeyPrefix i g).1 !! 0%nat = Some b /\ 32 <= b <= 126)
  /\ genKeyPrefix i g = genKeyPrefix j g
  /\ cursor (genKeyPrefix i g).2 = (cursor g + 4)%nat.
Proof.
  intros Hi. rewrite genKey_spec. cbn [fst snd].
  pose proof (rand_Intn_range 95 g ltac:(lia)) as Hv.
  split; [|split; [|split; [|split; [|split]]]].
  - split; [reflexivity|]. eexists. split; [reflexivity|].
    by apply lead_byte_printable.
  - constructor; [apply to_byte_range|apply PutUint64_bytes].
  - rewrite key_index_genKey_with. by apply wrapU64_id.
  - rewrite Uint64_PutUint64. by apply wrapU64_id.
  - reflexivity.
  - unfold genKeyPrefix.
    pose proof (rand_Read_length 3 g) as Hlen.
    pose proof (rand_Read_bytes 3 g) as Hb.
    pose proof (rand_Read_cursor 3 g) as [Hc _].
    destruct (rand_Read 3 g) as [r g1]. cbn [fst snd] in *.
    pose proof (rand_Intn_range (127 - 32) g1 ltac:(lia)) as Hx.
    destruct (rand_Intn (127 - 32) g1) as [x g2] eqn:E. cbn [fst snd] in *.
    assert (Hg2 : g2 = rand_next g1) by (unfold rand_Intn in E; congruence).
    split; [by rewrite length_insert|]. split; [|split; [|split]].
    + apply Forall_insert; [exact Hb|apply to_byte_range].
    + exists (to_byte (32 + x)). split.
      * apply list_lookup_insert_eq. lia.
      * apply lead_byte_printable. lia.
    + reflexivity.
    + subst g2. cbn. lia.
Qed.

Lemma uint64_12345 : is_uint64 12345.
Proof. unfold is_uint64, uint64_max. lia. Defined.

Lemma genKey_shape_witness :
  is_uint64 12345 /\ key_index (genKey 12345 g0).1 = 12345.
Proof.
  split; [exact uint64_12345|].
  exact (proj1 (proj2 (proj2 (genKey_shape_and_index 12345 0 g0 uint64_12345)))).
Defined.

(** ** Bulk load: failures and edge counts *)

Section BulkEdges.
Context {S : Type} `{Store S}.

(** Whatever the store does, the page loop makes its calls in sequence,
    stops at the first call that fails, and makes at most one call per
    page. *)
Lemma run_pages_calls pages size : forall (store : S) g total calls,
  let run := run_pages pages size store g total calls in
  exists new, run_calls run = calls ++ new
    /\ (length new <= length pages)%nat
    /\ (forall (i : nat) cl, new !! i = Some cl -> (i + 1 < length new)%nat ->
          call_err cl = None)
    /\ (run_ok run = true ->
          Forall (fun cl => call_err cl = None) new /\ length new = length pages)
    /\ (Forall (fun cl => call_err cl = None) new -> replay store new = Some (run_store run)).
Proof.
  induction pages as [|i pages IH]; intros store g total calls.
  - exists []. cbn. rewrite app_nil_r. repeat split; try done; constructor.
  - cbn [run_pages]. cbv zeta.
    destruct ((0 <? add64 (mul64 i batchSize) batchSize - mul64 i batchSize) && (size <? 0)).
    { exists []. cbn. rewrite app_nil_r. repeat split; try done; try lia. }
    destruct (alloc_page _ _ _ g) as [[ks0 vs0] g1].
    destruct (fill_page ks0 vs0 g1) as [[ks vs] g2].
    destruct (PSet store ks vs) as [[store' [e|]]|] eqn:EP.
    + exists [mkCall ks vs (Some e)]. cbn. repeat split; try done; try lia.
      intros HF. inversion HF as [|? ? Habs _]. discriminate Habs.
    + specialize (IH store' g2 (addU64 total (Z.of_nat (length ks)))
                    (calls ++ [mkCall ks vs None])).
      cbv zeta in IH. destruct IH as (new & Hcalls & Hlen & Hmid & Hok & Hreplay).
      exists (mkCall ks vs None :: new). rewrite Hcalls, <- app_assoc.
      split; [reflexivity|]. split; [cbn; lia|]. split; [|split].
      * intros [|j] cl Hj Hlt; cbn in Hj, Hlt; [by injection Hj as <-|].
        apply (Hmid j); [exact Hj|lia].
      * intros Hrun. destruct (Hok Hrun) as [HF Hl]. split; [by constructor|cbn; lia].
      * intros HF. inversion HF as [|? ? _ HF']; subst.
        cbn [replay call_keys call_vals call_err]. rewrite EP.
        rewrite decide_True by reflexivity. by apply Hreplay.
    + exists []. cbn. rewrite app_nil_r. repeat split; try done; try lia.
Qed.

End BulkEdges.

(** X9. Whatever the store answers, testBatchWriteFixCount makes its PSet
    calls one after the other and stops at the first one that fails: only
    the last call made can have an error, there is at most one call per
    page, and the function returns (here, with the column
    ["batch write cost(s)"] appended to the record) only if every page was
    sent and accepted; otherwise it panics and the record gets nothing. *)
Theorem bulk_load_stops_at_first_failure {S : Type} `{Store S}
    (size secs : Z) (record : BenchRecord) (name : string) (store : S) (g : Rand)
    (count : Z) :
  let res := testBatchWriteFixCount size secs record name store g count in
  let calls := run_calls res.1 in
  (length calls <= Z.to_nat (pageCount_of count))%nat
  /\ (forall (i : nat) cl, calls !! i = Some cl -> (i + 1 < length calls)%nat ->
        call_err cl = None)
  /\ (run_ok res.1 = true ->
        Forall (fun cl => call_err cl = None) calls
        /\ length calls = Z.to_nat (pageCount_of count)
        /\ replay store calls = Some (run_store res.1)
        /\ res.2 = Some (append_value secs (append_header "batch write cost(s)" record)))
  /\ (run_ok res.1 = false -> res.2 = None).
Proof.
  intros res calls. subst res calls. unfold testBatchWriteFixCount. cbn [fst snd].
  destruct (run_pages_calls (seqZ 0 (pageCount_of count)) size store g 0 [])
    as (new & Hcalls & Hlen & Hmid & Hok & Hreplay).
  rewrite app_nil_l in Hcalls. rewrite Hcalls. rewrite length_seqZ in Hlen, Hok.
  split; [exact Hlen|]. split; [exact Hmid|]. split.
  - intros Hrun. destruct (Hok Hrun) as [HF Hl]. rewrite Hrun.
    repeat split; try assumption. by apply Hreplay.
  - intros Hrun. by rewrite Hrun.
Qed.

(** X10. On a store that accepts its batches, for a count that is a
    multiple of 1000 in [0, 2^63 - 1000]: exactly [count / 1000] calls of
    1000 pairs, that is exactly [count] entries; for the count 0 no call at
    all, and the column is appended all the same. *)
Theorem bulk_load_multiple_of_1000_is_exact {S : Type} `{Store S}
    (P : S -> Prop) (size secs : Z) (record : BenchRecord) (name : string)
    (store : S) (g : Rand) (count : Z) :
  accepts_batches P -> P store -> 0 <= size ->
  0 <= count <= int_max - 1000 -> count mod 1000 = 0 ->
  let res := testBatchWriteFixCount size secs record name store g count in
  res.2 = Some (append_value secs (append_header "batch write cost(s)" record))
  /\ Z.of_nat (length (run_calls res.1)) = count / 1000
  /\ Forall (page_ok size) (run_calls res.1)
  /\ entries_written (run_calls res.1) = count
  /\ run_total res.1 = count
  /\ (count = 0 -> run_calls res.1 = [] /\ run_store res.1 = store).
Proof.
  intros Hacc HP Hsize Hcount Hrem res.
  destruct (bulk_load_all P size secs record name store g count Hacc HP Hsize Hcount)
    as (Hok & Hrec & Hlen & Hall & Hreplay & Htotal & Hentries).
  fold res in Hok, Hrec, Hlen, Hall, Hreplay, Htotal, Hentries.
  rewrite Hrem in Hlen, Htotal, Hentries. cbn [Z.eqb] in Hlen, Htotal, Hentries.
  assert (Hdm := Z.div_mod count 1000 ltac:(lia)).
  split; [exact Hrec|]. split; [exact Hlen|]. split; [exact Hall|].
  split; [lia|]. split; [lia|].
  intros ->. split; reflexivity.
Qed.

Lemma bulk_load_multiple_witness :
  (0 <= 3000 <= int_max - 1000) /\ 3000 mod 1000 = 0
  /\ entries_written
       (run_calls (testBatchWriteFixCount 256 3 record1 "leveldb/nofsync"
                     leveldb_empty g0 3000).1) = 3000.
Proof.
  assert (Hrange : 0 <= 3000 <= int_max - 1000) by (unfold int_max; lia).
  split; [exact Hrange|]. split; [reflexivity|].
  exact (proj1 (proj2 (proj2 (proj2
    (bulk_load_multiple_of_1000_is_exact
       (fun s : Leveldb.leveldbStore => Engine.closed (Leveldb.db s) = false)
       256 3 record1 "leveldb/nofsync" leveldb_empty g0 3000
       leveldb_accepts_batches eq_refl ltac:(lia) Hrange eq_refl))))).
Defined.

Lemma pageCount_of_negative count :
  int_min <= count < 0 ->
  (-1000 < count -> pageCount_of count = 1)
  /\ (count <= -1000 -> pageCount_of count <= 0).
Proof.
  intros Hc. unfold pageCount_of, batchSize, add64.
  replace count with (- (- count)) by lia.
  rewrite Z.rem_opp_l, Z.quot_opp_l by lia.
  rewrite Z.rem_mod_nonneg, Z.quot_div_nonneg by lia.
  assert (Hdm := Z.div_mod (- count) 1000 ltac:(lia)).
  assert (Hm := Z.mod_pos_bound (- count) 1000 ltac:(lia)).
  assert (Hq : 0 <= - count / 1000) by (apply Z.div_pos; lia).
  split.
  - intros Hsmall. rewrite (Z.div_small (- count)), (Z.mod_small (- count)) by lia.
    destruct (Z.eqb_spec (- - count) 0) as [?|_]; [lia|]. reflexivity.
  - intros Hbig. assert (1 <= - count / 1000) by (apply Z.div_le_lower_bound; lia).
    destruct (- (- count mod 1000) =? 0); [lia|].
    rewrite wrap64_id; [lia|]. unfold is_int, int_min, int_max in *. lia.
Qed.

(** X11. For a negative count the bulk load does not reject the request:
    on a store that accepts its batches, a count in (-1000, 0) sends one
    full page of 1000 pairs, and a count of -1000 or less sends nothing;
    in both cases the function returns and appends its column. *)
Theorem bulk_load_negative_count {S : Type} `{Store S}
    (P : S -> Prop) (size secs : Z) (record : BenchRecord) (name : string)
    (store : S) (g : Rand) (count : Z) :
  accepts_batches P -> P store -> 0 <= size -> int_min <= count < 0 ->
  let res := testBatchWriteFixCount size secs record name store g count in
  res.2 = Some (append_value secs (append_header "batch write cost(s)" record))
  /\ (-1000 < count ->
        exists cl, run_calls res.1 = [cl] /\ page_ok size cl
                   /\ entries_written (run_calls res.1) = 1000)
  /\ (count <= -1000 -> run_calls res.1 = [] /\ run_store res.1 = store).
Proof.
  intros Hacc HP Hsize Hcount res. subst res. unfold testBatchWriteFixCount.
  cbn [fst snd]. destruct (pageCount_of_negative count Hcount) as [Hone Hnone].
  destruct (Z_lt_le_dec (-1000) count) as [Hsmall|Hbig].
  - rewrite (Hone Hsmall).
    destruct (run_pages_all (seqZ 0 1) P size Hacc Hsize) with (store := store)
      (g := g) (total := 0) (calls := @nil PSetCall)
      as (Hok & _ & _ & new & Hcalls & Hlen & Hall & _).
    { repeat constructor; unfold int_max; lia. }
    { exact HP. }
    { unfold is_uint64, uint64_max. lia. }
    rewrite Hok. rewrite app_nil_l in Hcalls. rewrite Hcalls.
    split; [reflexivity|]. split; [|lia]. intros _.
    destruct new as [|cl [|cl' new]]; try discriminate Hlen.
    exists cl. inversion Hall as [|? ? Hcl _]; subst.
    split; [reflexivity|]. split; [exact Hcl|].
    rewrite (entries_written_full size) by exact Hall. reflexivity.
  - rewrite seqZ_nil by (apply Hnone; lia). cbn.
    split; [reflexivity|]. split; [lia|]. by intros _.
Qed.

Lemma bulk_load_negative_witness :
  (int_min <= -5 < 0)
  /\ exists cl,
       run_calls (testBatchWriteFixCount 256 3 record1 "leveldb/nofsync"
                    leveldb_empty g0 (-5)).1 = [cl]
       /\ page_ok 256 cl
       /\ entries_written
            (run_calls (testBatchWriteFixCount 256 3 record1 "leveldb/nofsync"
                          leveldb_empty g0 (-5)).1) = 1000.
Proof.
  assert (Hrange : int_min <= -5 < 0) by (unfold int_min; lia).
  split; [exact Hrange|].
  refine (proj1 (proj2
    (bulk_load_negative_count
       (fun s : Leveldb.leveldbStore => Engine.closed (Leveldb.db s) = false)
       256 3 record1 "leveldb/nofsync" leveldb_empty g0 (-5)
       leveldb_accepts_batches eq_refl _ Hrange)) _); lia.
Defined.

(** ** Time-bounded phases: when they panic *)

Section PhasePanics.

Lemma quot_1000_int d : is_int d -> is_int (Z.quot d 1000).
Proof.
  unfold is_int, int_min, int_max. intros [Hlo Hhi].
  pose proof (Z.quot_le_mono _ _ 1000 ltac:(lia) Hlo) as H1.
  pose proof (Z.quot_le_mono _ _ 1000 ltac:(lia) Hhi) as H2.
  change (Z.quot (- 2 ^ 63) 1000) with (-9223372036854775) in H1.
  change (Z.quot (2 ^ 63 - 1) 1000) with 9223372036854775 in H2. lia.
Qed.

Lemma report_None n c d :
  is_int d ->
  report n c d = None <-> -1000 < d < 1000 \/ mul64 n c = 0.
Proof.
  intros Hd. unfold report, quot64.
  rewrite (wrap64_id (Z.quot d 1000)) by by apply quot_1000_int.
  assert (Hsmall : Z.quot d 1000 = 0 <-> -1000 < d < 1000).
  { rewrite Z.quot_small_iff by lia. lia. }
  change (1000 =? 0) with false. cbn.
  destruct (Z.eqb_spec (Z.quot d 1000) 0) as [E|E]; cbn.
  - split; [|reflexivity]. intros _. left. by apply Hsmall.
  - destruct (Z.eqb_spec (mul64 n c) 0) as [E'|E']; cbn.
    + split; [|reflexivity]. intros _. by right.
    + split; [discriminate|]. intros [H|H]; [|contradiction].
      by apply Hsmall in H.
Qed.

Lemma stride_phase_None {A} (iter : Z -> Z -> Worker -> A -> Worker) header c ph record :
  is_int (elapsed ph) ->
  stride_phase iter header c ph record = None
  <-> c < 0 \/ -1000 < elapsed ph < 1000
      \/ mul64 (sum_counts (w_count <$> run_workers iter c ph)) c = 0.
Proof.
  intros Hd. unfold stride_phase.
  destruct (Z.ltb_spec c 0) as [Hc|Hc]; [split; [by left|reflexivity]|].
  pose proof (report_None (sum_counts (w_count <$> run_workers iter c ph)) c
                (elapsed ph) Hd) as Hrep.
  destruct (report _ c (elapsed ph)) as [rep|]; cbn.
  - split; [discriminate|]. intros [?|H]; [lia|]. by apply Hrep in H.
  - split; [|reflexivity]. intros _. right. by apply Hrep.
Qed.

Lemma sum_counts_zeros l : Forall (fun x => x = 0) l -> sum_counts l = 0.
Proof.
  unfold sum_counts. induction 1 as [|x l -> _ IH]; [reflexivity|]. cbn. exact IH.
Qed.

Lemma idle_workers_count {A} (iter : Z -> Z -> Worker -> A -> Worker) c ph :
  (forall j, view_answers (sched ph j) = []) ->
  sum_counts (w_count <$> run_workers iter c ph) = 0.
Proof.
  intros Hidle. apply sum_counts_zeros. unfold run_workers.
  rewrite <- list_fmap_compose. apply Forall_fmap, Forall_forall. intros j _. cbn.
  unfold run_worker. by rewrite Hidle.
Qed.

End PhasePanics.

(** X12. A time-bounded phase (testGet, testSet, testDelete) panics instead
    of reporting exactly when the worker count is negative, or less than a
    microsecond elapsed, or [n * c] is zero as an [int]; so it panics with
    zero workers, and it panics when no worker completes an attempt before
    the deadline. *)
Theorem time_bounded_phase_panics (c : Z) (pg : Phase bool) (ps : Phase unit)
    (record : BenchRecord) (name : string) :
  is_int (elapsed pg) -> is_int (elapsed ps) ->
  (testGet c pg record name = None
   <-> c < 0 \/ -1000 < elapsed pg < 1000
       \/ mul64 (sum_counts (w_count <$> run_workers get_iter c pg)) c = 0)
  /\ (testSet c ps record name = None
      <-> c < 0 \/ -1000 < elapsed ps < 1000
          \/ mul64 (sum_counts (w_count <$> run_workers set_iter c ps)) c = 0)
  /\ (testDelete c ps record name = None <-> testSet c ps record name = None)
  /\ (c = 0 ->
        testGet c pg record name = None /\ testSet c ps record name = None)
  /\ ((forall j, view_answers (sched pg j) = []) -> testGet c pg record name = None)
  /\ ((forall j, view_answers (sched ps j) = []) -> testSet c ps record name = None).
Proof.
  intros Hg Hs. unfold testGet, testSet, testDelete.
  split; [by apply stride_phase_None|]. split; [by apply stride_phase_None|].
  split; [by rewrite !stride_phase_None|]. split; [|split].
  - intros ->. split; apply stride_phase_None; try assumption; right; right;
      unfold mul64; by rewrite Z.mul_0_r.
  - intros Hidle. apply stride_phase_None; [assumption|]. right; right.
    by rewrite idle_workers_count.
  - intros Hidle. apply stride_phase_None; [assumption|]. right; right.
    by rewrite idle_workers_count.
Qed.

Lemma int_5000 : is_int 5000.
Proof. unfold is_int, int_min, int_max. lia. Defined.

Lemma time_bounded_phase_panics_witness :
  is_int (elapsed get_views) /\ is_int (elapsed stride_views)
  /\ testGet 0 get_views record1 "leveldb/nofsync" = None
  /\ testSet 0 stride_views record1 "leveldb/nofsync" = None.
Proof.
  split; [exact int_5000|]. split; [exact int_5000|].
  exact (proj1 (proj2 (proj2 (proj2
    (time_bounded_phase_panics 0 get_views stride_views record1 "leveldb/nofsync"
       int_5000 int_5000)))) eq_refl).
Defined.

(** ** The mixed phase: testGetSet *)

(** X13. In the measurable ranges, testGetSet appends two columns: the
    writer's rate [setCount * 1e6 / (d / 1000)], or [-1] when the writer
    completed no Set, and the readers' rate over the sum of their
    attempts; the readers are measured whatever the writer did. *)
Theorem testGetSet_columns (c : Z) (ph : Phase unit) (setCount : Z)
    (record : BenchRecord) (name : string) :
  measurable c ph -> 0 <= setCount -> setCount * 1000000 <= int_max ->
  out_record <$> testGetSet c ph setCount record name
  = Some (extend ["Setmixed op/s"; "Getmixed op/s"]
            [ (if setCount =? 0 then -1
               else setCount * 1000000 / (elapsed ph / 1000));
              sumZ (attempts c ph) * 1000000 / (elapsed ph / 1000) ] record).
Proof.
  intros (Hc & Hn & Hn6 & Hnc & Hd) Hs0 Hs6.
  rewrite (testGetSet_appends c ph setCount name record).
  assert (Hint : sumZ (attempts c ph) <= int_max) by lia.
  unfold getset_columns.
  destruct (Z.ltb_spec c 0) as [?|_]; [lia|]. cbv zeta.
  rewrite (counts_are_attempts set_iter c ph) by (try exact Hint; reflexivity).
  unfold sum_counts. rewrite sum_counts_exact; [|apply attempts_nonneg|lia|lia].
  rewrite Z.add_0_l, report_exact by assumption.
  assert (Hus : 1 <= elapsed ph / 1000) by (apply Z.div_le_lower_bound; lia).
  destruct (Z.eqb_spec setCount 0) as [->|Hne]; [reflexivity|].
  assert (Hw : wrap64 setCount = setCount).
  { apply wrap64_id. unfold is_int, int_min, int_max in *. lia. }
  rewrite Hw. unfold mul64.
  rewrite (wrap64_id (setCount * 1000000))
    by (unfold is_int, int_min, int_max in *; lia).
  rewrite (quot64_exact (elapsed ph) 1000) by lia. cbn.
  rewrite (quot64_exact (setCount * 1000000)) by lia. cbn.
  rewrite (quot64_exact (elapsed ph) setCount) by lia. reflexivity.
Qed.

Lemma testGetSet_columns_witness :
  measurable 4 stride_views /\ 0 <= 7 /\ 7 * 1000000 <= int_max
  /\ out_record <$> testGetSet 4 stride_views 7 record1 "leveldb/nofsync"
     = Some (mkRecord "leveldb/nofsync"
               ["name"; "Setmixed op/s"; "Getmixed op/s"] [1400000; 2400000]).
Proof.
  split; [exact measurable_stride_views|].
  split; [lia|]. split; [unfold int_max; lia|].
  exact (testGetSet_columns 4 stride_views 7 record1 "leveldb/nofsync"
           measurable_stride_views ltac:(lia) ltac:(unfold int_max; lia)).
Defined.

(** ** GetDirSize *)

Section DirSize.

Lemma FsNode_induction (P : FsNode -> Prop) :
  (forall size, P (FsFile size)) ->
  (forall readable entries, Forall P entries -> P (FsDir readable entries)) ->
  P FsBroken ->
  forall node, P node.
Proof.
  intros Hf Hd Hb.
  exact (fix F (node : FsNode) : P node :=
           match node with
           | FsFile size => Hf size
           | FsDir readable entries =>
               Hd readable entries
                 ((fix G (l : list FsNode) : Forall P l :=
                     match l with
                     | [] => @List.Forall_nil _ P
                     | x :: l' => @List.Forall_cons _ P x l' (F x) (G l')
                     end) entries)
           | FsBroken => Hb
           end).
Qed.

Lemma walk_dir_nil size : walk (FsDir true []) size = WalkDone size.
Proof. reflexivity. Qed.

Lemma walk_dir_cons entry l size :
  walk (FsDir true (entry :: l)) size
  = match walk entry size with
    | WalkDone size' => walk (FsDir true l) size'
    | stopped => stopped
    end.
Proof. reflexivity. Qed.

Lemma sumZ_app l1 l2 : sumZ (l1 ++ l2) = sumZ l1 + sumZ l2.
Proof. unfold sumZ. induction l1 as [|x l1 IH]; cbn; [reflexivity|]. rewrite IH. lia. Qed.

Lemma file_sizes_dir readable entry l :
  file_sizes (FsDir readable (entry :: l)) = file_sizes entry ++ file_sizes (FsDir readable l).
Proof. reflexivity. Qed.

Lemma readable_tree_dir entry l :
  readable_tree (FsDir true (entry :: l))
  = readable_tree entry && readable_tree (FsDir true l).
Proof. reflexivity. Qed.

Lemma walk_readable node : forall size,
  readable_tree node = true ->
  Forall (fun x => 0 <= x) (file_sizes node) ->
  0 <= size -> size + sumZ (file_sizes node) <= int_max ->
  walk node size = WalkDone (size + sumZ (file_sizes node)).
Proof.
  induction node as [sz|readable entries IH|] using FsNode_induction;
    intros size Hr Hpos Hsize Hmax.
  - cbn in *. apply Forall_inv in Hpos. unfold add64. f_equal.
    rewrite wrap64_id; [lia|]. unfold is_int, int_min, int_max in *. lia.
  - destruct readable; [|discriminate Hr].
    revert size Hr Hpos Hsize Hmax.
    induction IH as [|entry l Hentry _ IHl]; intros size Hr Hpos Hsize Hmax.
    + cbn. f_equal. lia.
    + rewrite readable_tree_dir in Hr. apply andb_true_iff in Hr as [Hr1 Hr2].
      rewrite file_sizes_dir in Hpos, Hmax |- *.
      apply Forall_app in Hpos as [Hp1 Hp2]. rewrite sumZ_app in Hmax |- *.
      pose proof (sumZ_nonneg _ Hp1). pose proof (sumZ_nonneg _ Hp2).
      rewrite walk_dir_cons, Hentry by (assumption || lia).
      rewrite IHl by (assumption || lia). f_equal. lia.
  - discriminate Hr.
Qed.

Lemma walk_done_iff node : forall size,
  (exists size', walk node size = WalkDone size') <-> readable_tree node = true.
Proof.
  induction node as [sz|readable entries IH|] using FsNode_induction; intros size.
  - cbn. split; [reflexivity|]. intros _. by eexists.
  - destruct readable; [|cbn; split; [intros [? [=]]|discriminate]].
    revert size. induction IH as [|entry l Hentry _ IHl]; intros size.
    + cbn. split; [reflexivity|]. intros _. by eexists.
    + rewrite walk_dir_cons, readable_tree_dir, andb_true_iff.
      rewrite <- (Hentry size).
      destruct (walk entry size) as [size'| |] eqn:E.
      * rewrite <- (IHl size'). split; [intros Hd; split; [by eexists|exact Hd]|].
        by intros [_ Hd].
      * split; [intros [? [=]]|]. by intros [[? [=]] _].
      * split; [intros [? [=]]|]. by intros [[? [=]] _].
  - cbn. split; [intros [? [=]]|discriminate].
Qed.

Lemma walk_dir_app before rest : forall size,
  Forall (fun e => readable_tree e = true) before ->
  Forall (fun x => 0 <= x) (files_under before) ->
  0 <= size -> size + sumZ (files_under before) <= int_max ->
  walk (FsDir true (before ++ rest)) size
  = walk (FsDir true rest) (size + sumZ (files_under before)).
Proof.
  unfold files_under.
  induction before as [|entry before IH]; intros size Hr Hpos Hsize Hmax.
  - cbn. f_equal. lia.
  - cbn [fmap list_fmap concat] in Hpos, Hmax |- *.
    apply Forall_cons in Hr as [Hr1 Hr2].
    apply Forall_app in Hpos as [Hp1 Hp2]. rewrite sumZ_app in Hmax |- *.
    pose proof (sumZ_nonneg _ Hp1). pose proof (sumZ_nonneg _ Hp2).
    change ((entry :: before) ++ rest) with (entry :: (before ++ rest)).
    rewrite walk_dir_cons, walk_readable by (assumption || lia).
    rewrite IH by (assumption || lia). f_equal. lia.
Qed.

Lemma GetDirSize_readable root :
  readable_tree root = true ->
  Forall (fun x => 0 <= x) (file_sizes root) ->
  sumZ (file_sizes root) <= int_max ->
  GetDirSize root = Some (sumZ (file_sizes root), false).
Proof.
  intros Hr Hpos Hmax. unfold GetDirSize.
  rewrite walk_readable by (assumption || lia). by rewrite Z.add_0_l.
Qed.

End DirSize.

(** X14. GetDirSize returns without an error exactly when every directory
    under the path can be read and every entry can be examined; it then
    returns the sum of the sizes of the files, directories not counted
    (for sizes that are not negative and a sum within [int64]). *)
Theorem GetDirSize_sums_files (root : FsNode) :
  ((exists size, GetDirSize root = Some (size, false)) <-> readable_tree root = true)
  /\ (readable_tree root = true ->
      Forall (fun x => 0 <= x) (file_sizes root) ->
      sumZ (file_sizes root) <= int_max ->
      GetDirSize root = Some (sumZ (file_sizes root), false)).
Proof.
  split.
  - rewrite <- (walk_done_iff root 0). unfold GetDirSize.
    destruct (walk root 0) as [size| |].
    + split; intros _; by eexists.
    + split; [intros [? [=]]|intros [? [=]]].
    + split; [intros [? [=]]|intros [? [=]]].
  - apply GetDirSize_readable.
Qed.

Lemma GetDirSize_sums_files_witness :
  readable_tree example_tree = true
  /\ Forall (fun x => 0 <= x) (file_sizes example_tree)
  /\ sumZ (file_sizes example_tree) <= int_max
  /\ GetDirSize example_tree = Some (3670016, false).
Proof.
  assert (Hpos : Forall (fun x => 0 <= x) (file_sizes example_tree)).
  { cbn. repeat constructor; lia. }
  assert (Hmax : sumZ (file_sizes example_tree) <= int_max).
  { cbn. unfold int_max. lia. }
  split; [reflexivity|]. split; [exact Hpos|]. split; [exact Hmax|].
  exact (proj2 (GetDirSize_sums_files example_tree) eq_refl Hpos Hmax).
Defined.

(** X15. The walk of GetDirSize ends at the first directory it cannot
    read: the size returned, with the error, counts only the files met
    before it, and showDiskUsage, which drops that error, is given the
    partial total. An entry that cannot be examined makes GetDirSize
    panic instead. *)
Theorem GetDirSize_stops_at_first_failure (before after inside : list FsNode) :
  Forall (fun e => readable_tree e = true) before ->
  Forall (fun x => 0 <= x) (files_under before) ->
  sumZ (files_under before) <= int_max ->
  let locked := FsDir true (before ++ FsDir false inside :: after) in
  let broken := FsDir true (before ++ FsBroken :: after) in
  GetDirSize locked = Some (sumZ (files_under before), true)
  /\ stat_path (Some locked) = Some (StatDir (sumZ (files_under before)))
  /\ GetDirSize broken = None
  /\ stat_path (Some broken) = None.
Proof.
  intros Hr Hpos Hmax locked broken.
  assert (Hl : GetDirSize locked = Some (sumZ (files_under before), true)).
  { unfold GetDirSize, locked. rewrite walk_dir_app by (assumption || lia).
    rewrite walk_dir_cons. cbn [walk]. by rewrite Z.add_0_l. }
  assert (Hb : GetDirSize broken = None).
  { unfold GetDirSize, broken. rewrite walk_dir_app by (assumption || lia).
    rewrite walk_dir_cons. reflexivity. }
  split; [exact Hl|]. split; [|split; [exact Hb|]].
  - unfold stat_path, locked in *. by rewrite Hl.
  - unfold stat_path, broken in *. by rewrite Hb.
Qed.

Lemma GetDirSize_stops_witness :
  Forall (fun e => readable_tree e = true) [FsFile 1048576]
  /\ Forall (fun x => 0 <= x) (files_under [FsFile 1048576])
  /\ sumZ (files_under [FsFile 1048576]) <= int_max
  /\ GetDirSize locked_tree = Some (1048576, true)
  /\ GetDirSize broken_tree = None.
Proof.
  assert (Hr : Forall (fun e => readable_tree e = true) [FsFile 1048576]).
  { repeat constructor. }
  assert (Hpos : Forall (fun x => 0 <= x) (files_under [FsFile 1048576])).
  { cbn. repeat constructor; lia. }
  assert (Hmax : sumZ (files_under [FsFile 1048576]) <= int_max).
  { cbn. unfold int_max. lia. }
  split; [exact Hr|]. split; [exact Hpos|]. split; [exact Hmax|].
  pose proof (GetDirSize_stops_at_first_failure [FsFile 1048576] [FsFile 524288]
                [FsFile 2097152] Hr Hpos Hmax) as H.
  exact (conj (proj1 H) (proj1 (proj2 (proj2 H)))).
Defined.

(** ** The resource samplers *)

Section Samplers.

Lemma mebibytes_uint64 x :
  is_uint64 x -> wrap64 (x / 1024 / 1024) = x / 1048576.
Proof.
  intros [Hlo Hhi]. rewrite Z.div_div by lia. change (1024 * 1024) with 1048576.
  apply wrap64_id.
  assert (0 <= x / 1048576 <= x).
  { split; [apply Z.div_pos; lia|]. apply Z.div_le_upper_bound; lia. }
  assert (x / 1048576 < 2 ^ 44).
  { apply Z.div_lt_upper_bound; [lia|]. unfold uint64_max in Hhi. lia. }
  unfold is_int, int_min, int_max. lia.
Qed.

Lemma mebibytes_int64 x :
  0 <= x <= int_max -> wrap64 (Z.quot (Z.quot x 1024) 1024) = x / 1048576.
Proof.
  intros [Hlo Hhi]. rewrite Z.quot_quot by lia. change (1024 * 1024) with 1048576.
  rewrite Z.quot_div_nonneg by lia. apply wrap64_id.
  assert (0 <= x / 1048576 <= x).
  { split; [apply Z.div_pos; lia|]. apply Z.div_le_upper_bound; lia. }
  unfold is_int, int_min, int_max in *. lia.
Qed.

End Samplers.

(** X16. The samplers report whole mebibytes, rounded down: showMemUsage
    appends [Alloc / 2^20] and [HeapInuse / 2^20], and showDiskUsage, for a
    file or for a directory that can be read throughout, appends the total
    size of the files under the path divided by [2^20]; the conversions to
    [int] lose nothing. *)
Theorem samplers_report_whole_mebibytes (m : MemStats) (root : FsNode)
    (record : BenchRecord) (name path : string) :
  is_uint64 (Alloc m) -> is_uint64 (HeapInuse m) ->
  readable_tree root = true ->
  Forall (fun x => 0 <= x) (file_sizes root) ->
  sumZ (file_sizes root) <= int_max ->
  showMemUsage m record name
  = extend ["MemUsage(MiB)"; "HeapInuse(MiB)"]
      [Alloc m / 1048576; HeapInuse m / 1048576] record
  /\ (stat_path (Some root) ≫= fun st => showDiskUsage st record name path)
     = Some (extend ["DiskUsage(MiB)"] [sumZ (file_sizes root) / 1048576] record).
Proof.
  intros Ha Hh Hr Hpos Hmax. split.
  - rewrite <- (mebibytes_uint64 (Alloc m)), <- (mebibytes_uint64 (HeapInuse m))
      by assumption.
    apply (inj Some). exact (showMemUsage_appends m name record).
  - pose proof (sumZ_nonneg _ Hpos) as Hsum.
    assert (Hst : exists st, stat_path (Some root) = Some st
                  /\ (st = StatFile (sumZ (file_sizes root))
                      \/ st = StatDir (sumZ (file_sizes root)))).
    { destruct root as [size|readable entries|]; [| |discriminate Hr].
      - eexists. split; [reflexivity|]. left. cbn. f_equal. lia.
      - unfold stat_path.
        rewrite (GetDirSize_readable (FsDir readable entries) Hr Hpos Hmax).
        eexists. split; [reflexivity|]. by right. }
    destruct Hst as (st & -> & Hst). cbn [mbind option_bind].
    rewrite (showDiskUsage_appends st name path record).
    destruct Hst as [-> | ->]; cbn; by rewrite mebibytes_int64 by lia.
Qed.

Lemma samplers_witness :
  is_uint64 (Alloc (mkMem 536870912 629145600))
  /\ is_uint64 (HeapInuse (mkMem 536870912 629145600))
  /\ readable_tree example_tree = true
  /\ Forall (fun x => 0 <= x) (file_sizes example_tree)
  /\ sumZ (file_sizes example_tree) <= int_max
  /\ showMemUsage (mkMem 536870912 629145600) record1 "leveldb/nofsync"
     = mkRecord "leveldb/nofsync" ["name"; "MemUsage(MiB)"; "HeapInuse(MiB)"] [512; 600]
  /\ (stat_path (Some example_tree)
        ≫= fun st => showDiskUsage st record1 "leveldb/nofsync" "leveldb.db")
     = Some (mkRecord "leveldb/nofsync" ["name"; "DiskUsage(MiB)"] [3]).
Proof.
  assert (Ha : is_uint64 536870912) by (unfold is_uint64, uint64_max; lia).
  assert (Hh : is_uint64 629145600) by (unfold is_uint64, uint64_max; lia).
  assert (Hpos : Forall (fun x => 0 <= x) (file_sizes example_tree)).
  { cbn. repeat constructor; lia. }
  assert (Hmax : sumZ (file_sizes example_tree) <= int_max).
  { cbn. unfold int_max. lia. }
  split; [exact Ha|]. split; [exact Hh|]. split; [reflexivity|].
  split; [exact Hpos|]. split; [exact Hmax|].
  exact (samplers_report_whole_mebibytes (mkMem 536870912 629145600) example_tree
           record1 "leveldb/nofsync" "leveldb.db" Ha Hh eq_refl Hpos Hmax).
Defined.

(** ** The record sink *)

Section Sink.

Lemma save_all_existing savePath records : forall rows,
  savePath <> "" ->
  save_all savePath records (Some rows) = Some (rows ++ (ledger_row <$> records)).
Proof.
  unfold save_all.
  induction records as [|r records IH]; intros rows Hp; cbn [foldl fmap list_fmap].
  - by rewrite app_nil_r.
  - unfold saveReorder at 2. destruct (decide (savePath = "")) as [?|_]; [contradiction|].
    rewrite IH by exact Hp. by rewrite <- app_assoc.
Qed.

End Sink.

(** X17. With a save path, the save that finds no file writes the headers
    of its record and then its row; every later save appends one row and
    never a header, whatever the headers of its record. Without a save
    path nothing is written. *)
Theorem saveReorder_header_once (savePath : string) (r : BenchRecord)
    (records : list BenchRecord) (rows : list (list string))
    (file : option (list (list string))) :
  savePath <> "" ->
  save_all savePath (r :: records) None
  = Some (Headers r :: ledger_row r :: (ledger_row <$> records))
  /\ save_all savePath (r :: records) (Some rows)
     = Some (rows ++ ledger_row r :: (ledger_row <$> records))
  /\ save_all "" (r :: records) file = file.
Proof.
  intros Hp. split; [|split].
  - unfold save_all. cbn [foldl]. unfold saveReorder at 2.
    destruct (decide (savePath = "")) as [?|_]; [contradiction|].
    exact (save_all_existing savePath records _ Hp).
  - exact (save_all_existing savePath (r :: records) rows Hp).
  - unfold save_all. generalize (r :: records). intros l.
    induction l as [|x l IH]; [reflexivity|]. cbn [foldl]. exact IH.
Qed.

Lemma saveReorder_header_once_witness :
  "results.csv" <> ""
  /\ save_all "results.csv"
       [mkRecord "leveldb/nofsync" ["name"; "Set op/s"] [42];
        mkRecord "pebble/nofsync" ["name"; "DiskUsage(MiB)"; "Set op/s"] [3; 57]] None
     = Some [["name"; "Set op/s"]; ["leveldb/nofsync"; "42"];
             ["pebble/nofsync"; "3"; "57"]].
Proof.
  split; [discriminate|].
  exact (proj1 (saveReorder_header_once "results.csv"
           (mkRecord "leveldb/nofsync" ["name"; "Set op/s"] [42])
           [mkRecord "pebble/nofsync" ["name"; "DiskUsage(MiB)"; "Set op/s"] [3; 57]]
           [] None ltac:(discriminate))).
Defined.

(** ** getStore and the head of main *)

Section Opening.

Variable leveldb_OpenFile : string -> bool -> Engine.DB + error.

Variable pebble_Open : string -> bool -> Engine.DB + error.

Variable other_New : string -> string -> bool -> option AnyStore * option error.

Lemma string_take_drop n : forall s, string_take n s +:+ string_drop n s = s.
Proof.
  induction n as [|n IH]; intros s; [reflexivity|].
  destruct s as [|a s]; [reflexivity|].
  change (String a (string_take n s +:+ string_drop n s) = String a s). by rewrite IH.
Qed.

Lemma TrimSuffix_app s suffix :
  strings_HasSuffix s suffix = true -> strings_TrimSuffix s suffix +:+ suffix = s.
Proof.
  intros Hs. unfold strings_TrimSuffix. rewrite Hs.
  unfold strings_HasSuffix in Hs. apply andb_true_iff in Hs as [_ Heq].
  apply String.eqb_eq in Heq. rewrite <- Heq at 2. apply string_take_drop.
Qed.

Lemma run_name_of_flag s fsync :
  run_name (store_type_of s) (strings_HasSuffix s "/memory") fsync
  = s +:+ (if fsync then "/fsync" else "/nofsync").
Proof.
  unfold run_name, store_type_of.
  destruct (strings_HasSuffix s "/memory") eqn:E.
  - rewrite TrimSuffix_app by exact E. by destruct fsync.
  - by destruct fsync.
Qed.

Lemma extend_all_names cols : forall r,
  Forall (fun r' => Name r' = Name r) (extend_all cols r).1.
Proof.
  induction cols as [|[[hs vs]|] cols IH]; intros r; [constructor| |constructor].
  cbn [extend_all]. specialize (IH (extend hs vs r)).
  destruct (extend_all cols (extend hs vs r)) as [tr ok]. cbn [fst] in *.
  constructor; [reflexivity|exact IH].
Qed.

Lemma main_names {St : Type} `{Store St} fl name path (store : St) env file :
  Forall (fun r => Name r = name) (trace (main fl name path store env file)).
Proof.
  rewrite main_by_columns. cbv zeta. cbn [trace].
  constructor; [reflexivity|]. constructor; [reflexivity|].
  exact (extend_all_names (main_columns fl store env) (mkRecord name ["name"] [])).
Qed.

Lemma getStore_unknown s fsync path :
  s ∉ store_types ->
  getStore leveldb_OpenFile pebble_Open other_New s fsync path
  = (None, path, Some (UnknownStoreType s)).
Proof.
  intros Hs. unfold getStore.
  repeat (destruct (decide _) as [->|_];
          [exfalso; apply Hs; unfold store_types; repeat constructor|]).
  reflexivity.
Qed.

Lemma getStore_path s fsync path :
  s ∈ store_types ->
  (getStore leveldb_OpenFile pebble_Open other_New s fsync path).1.2
  = if decide (path = "") then s +:+ ".db" else path.
Proof.
  intros Hs. unfold getStore.
  repeat (destruct (decide (s = _)) as [->|?];
    [unfold open_other, default_path, Leveldb.NewLevelDBStore, Pebble.NewPebbleStore;
     repeat case_match; simplify_eq; reflexivity|]).
  exfalso. unfold store_types in Hs. rewrite !elem_of_cons, elem_of_nil in Hs.
  intuition congruence.
Qed.

Lemma getStore_known s fsync path :
  s ∈ store_types ->
  (getStore leveldb_OpenFile pebble_Open other_New s fsync path).2
  <> Some (UnknownStoreType s).
Proof.
  intros Hs. unfold getStore.
  repeat (destruct (decide (s = _)) as [->|?];
    [unfold open_other, Leveldb.NewLevelDBStore, Pebble.NewPebbleStore;
     repeat case_match; simplify_eq; cbn;
     try discriminate;
     match goal with |- context [OpenFailed <$> ?o] => destruct o end;
     cbn; discriminate|]).
  exfalso. unfold store_types in Hs. rewrite !elem_of_cons, elem_of_nil in Hs.
  intuition congruence.
Qed.

End Opening.

(** X18. When [main] gets a store, the run is named by the value of [-s]
    as given, an ["/memory"] suffix included, followed by ["/fsync"] or
    ["/nofsync"]; the store type is one of the eleven getStore knows; and
    every record of the run carries that name. *)
Theorem main_top_names_the_run
    (leveldb_OpenFile pebble_Open : string -> bool -> Engine.DB + error)
    (other_New : string -> string -> bool -> option AnyStore * option error)
    (s : string) (fsync : bool) (fl : Flags) (env : Env)
    (file : option (list (list string))) (run : Run) :
  main_top leveldb_OpenFile pebble_Open other_New s fsync fl env file = Some run ->
  store_type_of s ∈ store_types
  /\ Forall (fun r => Name r = s +:+ (if fsync then "/fsync" else "/nofsync"))
            (trace run).
Proof.
  unfold main_top. fold (store_type_of s).
  destruct (decide (store_type_of s ∈ store_types)) as [Hin|Hout].
  - destruct (getStore _ _ _ _ _ _) as [[store path] err].
    destruct err as [e|]; [discriminate|]. destruct store as [st|]; [|discriminate].
    intros [= <-]. split; [exact Hin|].
    rewrite <- run_name_of_flag. apply main_names.
  - rewrite getStore_unknown by exact Hout. discriminate.
Qed.

Lemma main_top_names_witness :
  main_top open_empty open_empty no_other "leveldb" false example_flags
    (example_env (StatDir 1111490560)) None
  = Some (main example_flags "leveldb/nofsync" "leveldb.db" leveldb_empty
            (example_env (StatDir 1111490560)) None)
  /\ Forall (fun r => Name r = "leveldb/nofsync") (trace example_run).
Proof.
  split; [reflexivity|].
  exact (proj2 (main_top_names_the_run open_empty open_empty no_other "leveldb" false
                  example_flags (example_env (StatDir 1111490560)) None example_run
                  eq_refl)).
Defined.

(** X19. getStore keeps the path it is given; when the path is empty it
    opens a known store type at the type's name followed by [".db"]; for
    any other store type it returns no store and the unknown-type error,
    the path as it was. *)
Theorem getStore_default_path
    (leveldb_OpenFile pebble_Open : string -> bool -> Engine.DB + error)
    (other_New : string -> string -> bool -> option AnyStore * option error)
    (s : string) (fsync : bool) (path : string) :
  (getStore leveldb_OpenFile pebble_Open other_New s fsync path).1.2
  = (if bool_decide (s ∈ store_types)
     then if decide (path = "") then s +:+ ".db" else path
     else path)
  /\ (s ∉ store_types <->
      (getStore leveldb_OpenFile pebble_Open other_New s fsync path).2
      = Some (UnknownStoreType s)).
Proof.
  destruct (decide (s ∈ store_types)) as [Hin|Hout].
  - rewrite bool_decide_eq_true_2 by exact Hin.
    split; [by apply getStore_path|].
    split; [contradiction|]. intros Herr. exfalso.
    by apply (getStore_known leveldb_OpenFile pebble_Open other_New s fsync path Hin).
  - rewrite bool_decide_eq_false_2 by exact Hout.
    rewrite getStore_unknown by exact Hout. split; [reflexivity|]. by split.
Qed.

(** X20. [main] panics before any record is created when the store type
    is unknown, and when leveldb or pebble is asked for with the
    ["/memory"] suffix: both constructors refuse the path [":memory:"]. *)
Theorem main_top_refuses
    (leveldb_OpenFile pebble_Open : string -> bool -> Engine.DB + error)
    (other_New : string -> string -> bool -> option AnyStore * option error)
    (s : string) (fsync : bool) (fl : Flags) (env : Env)
    (file : option (list (list string))) :
  store_type_of s ∉ store_types \/ s = "leveldb/memory" \/ s = "pebble/memory" ->
  main_top leveldb_OpenFile pebble_Open other_New s fsync fl env file = None.
Proof.
  intros [Hout|[-> | ->]].
  - unfold main_top. fold (store_type_of s).
    by rewrite getStore_unknown by exact Hout.
  - reflexivity.
  - reflexivity.
Qed.

Lemma rocksdb_unknown : store_type_of "rocksdb" ∉ store_types.
Proof.
  change (store_type_of "rocksdb") with "rocksdb". unfold store_types.
  rewrite !elem_of_cons, elem_of_nil. intros H.
  repeat (destruct H as [H|H]; [discriminate H|]). exact H.
Defined.

Lemma main_top_refuses_witness :
  (store_type_of "rocksdb" ∉ store_types
   \/ "rocksdb" = "leveldb/memory" \/ "rocksdb" = "pebble/memory")
  /\ main_top open_empty open_empty no_other "rocksdb" false example_flags
       (example_env StatNotExist) None = None.
Proof.
  split; [left; exact rocksdb_unknown|].
  exact (main_top_refuses open_empty open_empty no_other "rocksdb" false example_flags
           (example_env StatNotExist) None (or_introl rocksdb_unknown)).
Defined.

(** ** A failed stat *)

(** X21. When [os.Stat] fails with an error other than not-exist,
    showDiskUsage panics: the run ends after the memory sample at the
    latest (at most four states of the record), no time-bounded phase is
    run and nothing is saved. *)
Theorem stat_failure_aborts_run {St : Type} `{Store St}
    (fl : Flags) (name path : string) (store : St) (env : Env)
    (file : option (list (list string))) (msg : string) :
  env_stat env = StatFailed msg ->
  let run := main fl name path store env file in
  completed run = false
  /\ ledger run = file
  /\ (length (trace run) <= 4)%nat
  /\ Forall (fun r => Headers r `prefix_of`
                        ["name"; "batch write cost(s)"; "MemUsage(MiB)"; "HeapInuse(MiB)"])
            (trace run).
Proof.
  intros Hstat run. subst run. rewrite main_by_columns. cbv zeta.
  unfold main_columns. rewrite Hstat. cbn [disk_columns extend_all].
  unfold bulk_columns, mem_columns.
  destruct (run_ok _); cbn.
  - split; [reflexivity|]. split; [reflexivity|]. split; [lia|].
    repeat constructor; cbn; by eexists.
  - split; [reflexivity|]. split; [reflexivity|]. split; [lia|].
    repeat constructor; cbn; by eexists.
Qed.

Lemma stat_failure_witness :
  env_stat (example_env (StatFailed "permission denied")) = StatFailed "permission denied"
  /\ completed (main example_flags "leveldb/nofsync" "leveldb.db" leveldb_empty
                  (example_env (StatFailed "permission denied")) None) = false.
Proof.
  split; [reflexivity|].
  exact (proj1 (stat_failure_aborts_run example_flags "leveldb/nofsync" "leveldb.db"
                  leveldb_empty (example_env (StatFailed "permission denied")) None
                  "permission denied" eq_refl)).
Defined.

(** ** The adapters on a closed database *)

Section ClosedDatabase.
Import Engine.

Lemma pebble_PGet_loop_closed d keys : forall vals oks err,
  closed d = true -> keys <> [] ->
  Pebble.PGet_loop (Pebble.mkStore d) keys vals oks err = None.
Proof.
  intros vals oks err Hd Hkeys. destruct keys as [|k keys]; [contradiction|].
  cbn [Pebble.PGet_loop Pebble.db]. unfold Pebble.db_Get, Pebble.opened. by rewrite Hd.
Qed.

End ClosedDatabase.

(** X22. On a database that has been closed the two adapters part ways.
    The leveldb adapter hands [leveldb.ErrClosed] to the caller and leaves
    the store as it is: [Set], [Get], [Del] (with [false]) and [PSet];
    [PGet] gives up at the first key and returns nil slices with the
    error; [Keys] returns (nil, nil, nil), the iterator's error is not
    read. Every method of the pebble adapter panics; only [PGet] without
    a key returns. *)
Theorem adapters_on_closed_database (d : Engine.DB)
    (key value : list Z) (keys values : list (list Z)) :
  Engine.closed d = true ->
  (length keys <= length values)%nat -> keys <> [] ->
  let e := LeveldbErrClosed in
  (Set_ (leveldb_on d) key value = Some (leveldb_on d, Some e)
   /\ Get (leveldb_on d) key = Some (None, false, Some e)
   /\ Del (leveldb_on d) key = Some (leveldb_on d, false, Some e)
   /\ PSet (leveldb_on d) keys values = Some (leveldb_on d, Some e)
   /\ Leveldb.PGet (leveldb_on d) keys = ([], [], Some e)
   /\ Keys (leveldb_on d) key 0 true = Some ([], [], None))
  /\ (Set_ (pebble_on d) key value = None
      /\ Get (pebble_on d) key = None
      /\ Del (pebble_on d) key = None
      /\ PSet (pebble_on d) keys values = None
      /\ Pebble.PGet (pebble_on d) keys = None
      /\ Pebble.PGet (pebble_on d) [] = Some ([], [], None)
      /\ Keys (pebble_on d) key 0 true = None).
Proof.
  intros Hd Hlen Hkeys e.
  assert (Hlget : forall k, Leveldb.Get (leveldb_on d) k = (None, false, Some e)).
  { intros k. unfold Leveldb.Get, Leveldb.db_Get, Engine.failure, leveldb_on.
    cbn [Leveldb.db]. rewrite Hd. cbn. by rewrite decide_False. }
  split.
  - cbn [Set_ Get Del PSet Keys leveldb_Store].
    split; [|split; [|split; [|split; [|split]]]].
    + unfold Leveldb.Set_, Engine.put, Engine.failure, leveldb_on. cbn [Leveldb.db].
      by rewrite Hd.
    + by rewrite Hlget.
    + unfold Leveldb.Del, Leveldb.db_Has, Engine.failure, leveldb_on. cbn [Leveldb.db].
      by rewrite Hd.
    + unfold Leveldb.PSet. rewrite leveldb_build_batch by exact Hlen. cbn.
      unfold Engine.write, Engine.failure, leveldb_on. cbn [Leveldb.db]. by rewrite Hd.
    + destruct keys as [|k keys]; [contradiction|].
      unfold Leveldb.PGet. cbn [Leveldb.PGet_loop]. by rewrite Hlget.
    + unfold Leveldb.Keys, leveldb_on. cbn [Leveldb.db]. by rewrite Hd.
  - cbn [Set_ Get Del PSet Keys pebble_Store].
    unfold Pebble.Set_, Pebble.Get, Pebble.Del, Pebble.PSet, Pebble.Keys, Pebble.PGet,
      Pebble.db_Get, Pebble.opened, pebble_on.
    cbn [Pebble.db]. rewrite Hd, pebble_build_batch by exact Hlen.
    repeat split. by apply pebble_PGet_loop_closed.
Qed.

Lemma adapters_on_closed_database_witness :
  Engine.closed closed_db = true
  /\ (length [[1]; [2]] <= length [[7]; [8]])%nat /\ [[1]; [2]] <> []
  /\ Leveldb.PGet (leveldb_on closed_db) [[1]; [2]] = ([], [], Some LeveldbErrClosed)
  /\ Pebble.PGet (pebble_on closed_db) [[1]; [2]] = None.
Proof.
  assert (Hlen : (length [[1]; [2]] <= length [[7]; [8]])%nat) by (cbn; lia).
  assert (Hne : [[1]; [2]] <> []) by discriminate.
  split; [reflexivity|]. split; [exact Hlen|]. split; [exact Hne|].
  pose proof (adapters_on_closed_database closed_db [1] [7] [[1]; [2]]
                [[7]; [8]] eq_refl Hlen Hne)
    as [(_ & _ & _ & _ & Hl & _) (_ & _ & _ & _ & Hp & _)].
  split; [exact Hl|exact Hp].
Defined.

(** ** Keys of one index *)

Section SameIndex.

Lemma genKey_with_inj v v' i :
  0 <= v < 95 -> 0 <= v' < 95 -> genKey_with v i = genKey_with v' i <-> v = v'.
Proof.
  intros Hv Hv'. unfold genKey_with, to_byte. split; [|by intros ->].
  intros [= E]. rewrite !Z.mod_small in E by lia. lia.
Qed.

End SameIndex.

(** X23. Two calls of [genKey] with the same index return the same key
    only if the generator gives both the same first byte: a key written
    under one draw is found again under another draw exactly when the
    draws agree modulo 95 (on a store that did not hold the second key). *)
Theorem genKey_same_index_other_draw (d : Engine.DB) (i : Z) (g g' : Rand)
    (value : list Z) :
  Engine.closed d = false ->
  Engine.tbl_get (genKey i g').1 (Engine.table d) = None ->
  let same := bool_decide (draws g (cursor g) mod 95 = draws g' (cursor g') mod 95) in
  bool_decide ((genKey i g).1 = (genKey i g').1) = same
  /\ exists sl sp vl vp el ep,
       Set_ (leveldb_on d) (genKey i g).1 value = Some (sl, None)
       /\ Get sl (genKey i g').1 = Some (vl, same, el)
       /\ Set_ (pebble_on d) (genKey i g).1 value = Some (sp, None)
       /\ Get sp (genKey i g').1 = Some (vp, same, ep).
Proof.
  intros Hd Habs same.
  assert (Hkey : (genKey i g).1 = (genKey i g').1
                 <-> draws g (cursor g) mod 95 = draws g' (cursor g') mod 95).
  { unfold genKey, rand_Intn. change (127 - 32) with 95. cbn [fst].
    apply genKey_with_inj; apply Z.mod_pos_bound; lia. }
  assert (Hsame : bool_decide ((genKey i g).1 = (genKey i g').1) = same).
  { unfold same. apply bool_decide_ext. exact Hkey. }
  split; [exact Hsame|]. rewrite <- Hsame. clear Hkey Hsame. revert Habs.
  generalize ((genKey i g).1) as k. generalize ((genKey i g').1) as k'. intros k' k Habs.
  cbn [Set_ Get leveldb_Store pebble_Store].
  unfold leveldb_on, pebble_on, Leveldb.Set_, Pebble.Set_, Pebble.opened.
  cbn [Leveldb.db Pebble.db]. rewrite Hd, put_works by exact Hd.
  unfold Leveldb.with_db. cbn [Leveldb.path Leveldb.fsync].
  assert (Hfound : bool_decide (is_Some (Engine.tbl_get k' (Engine.tbl_put k value
                                                            (Engine.table d))))
                   = bool_decide (k = k')).
  { destruct (decide (k = k')) as [E|E].
    - rewrite <- E, tbl_get_put_eq.
      rewrite !bool_decide_eq_true_2; [reflexivity|reflexivity|by eexists].
    - rewrite tbl_get_put_ne, Habs by exact E.
      rewrite !bool_decide_eq_false_2; [reflexivity|exact E|by intros [? ?]]. }
  eexists _, _, _, _, _, _. split; [reflexivity|].
  rewrite leveldb_Get_table by reflexivity. cbn [Engine.table]. rewrite Hfound.
  split; [reflexivity|]. split; [reflexivity|].
  rewrite pebble_Get_table by reflexivity. cbn [Engine.table]. rewrite Hfound.
  reflexivity.
Qed.

Lemma genKey_same_index_witness :
  Engine.closed empty_db = false
  /\ Engine.tbl_get (genKey 5 (rand_next g0)).1 (Engine.table empty_db) = None
  /\ bool_decide ((genKey 5 g0).1 = (genKey 5 (rand_next g0)).1) = false
  /\ exists sl sp vl vp el ep,
       Set_ (leveldb_on empty_db) (genKey 5 g0).1 [1] = Some (sl, None)
       /\ Get sl (genKey 5 (rand_next g0)).1 = Some (vl, false, el)
       /\ Set_ (pebble_on empty_db) (genKey 5 g0).1 [1] = Some (sp, None)
       /\ Get sp (genKey 5 (rand_next g0)).1 = Some (vp, false, ep).
Proof.
  split; [reflexivity|]. split; [reflexivity|].
  exact (genKey_same_index_other_draw empty_db 5 g0 (rand_next g0) [1]
           eq_refl eq_refl).
Defined.
